(** * AquaTrack: the statistics service and the period-local clustering

    A shallow embedding of [services/statsService.ts] (Mann-Kendall,
    Pettitt, Shewhart limits, EWMA) and of the clustering and volatility
    routines of [App.tsx].

    Numbers.  A TypeScript [number] is modelled by a real number of [R]:
    the arithmetic is the exact one, without rounding, NaN or the
    infinities.  Where the source relies on one of those ([Infinity] as the
    seed of a running minimum, [0 / 0] being [NaN], [NaN || 1]) the case
    is written out in the definition that has it.  Loop counters and the
    signed counts, which are small integers in the source, are [nat] and
    [Z].

    Rounding.  The program computes in double precision, and a value it
    rounds can differ from the exact one in its last digits.  The
    statements below are of the kind that this leaves alone: an order or
    a sign, a count, the shape of a result, an equation between the
    expressions the code evaluates.  Where the centroids of the
    clustering are concerned, the sort and the labelling are proved for
    every array of centroids, the rounded ones included. *)

From Stdlib Require Import Reals Lra Lia ZArith String Ascii Bool DecimalString
  DecimalNat.
From Stdlib Require Import List Sorted Permutation.
Import ListNotations.

Open Scope R_scope.

(** ** JavaScript idioms shared by both source files *)

Module JS.

(** [for (let i = lo; i < hi; i++) s = body i s]. *)
Definition forLoop {St : Type} (lo hi : nat) (body : nat -> St -> St) (s : St) : St :=
  fold_left (fun acc i => body i acc) (seq lo (hi - lo)) s.

(** [xs.reduce((a, b) => a + b, 0)]. *)
Definition sumReduce (xs : list R) : R :=
  fold_left (fun a b => a + b) xs 0.

(** The comparisons [x < y] and [x > y] on numbers, as booleans. *)
Definition ltb (x y : R) : bool := if Rlt_dec x y then true else false.
Definition gtb (x y : R) : bool := if Rlt_dec y x then true else false.

(** [data[i]] for an index inside the array. *)
Definition get (data : list R) (i : nat) : R := nth i data 0.

(** What an expression of type [string | null | undefined] evaluates to. *)
Inductive value : Type :=
| Null : value
| Undefined : value
| Str : string -> value.

(** [dates[i]]: the element, or [undefined] past the end. *)
Definition index (dates : list string) (i : nat) : value :=
  match nth_error dates i with
  | Some d => Str d
  | None => Undefined
  end.

End JS.

(** ** services/statsService.ts *)

Module StatsService.

Import JS.

(** *** Mann-Kendall *)

Definition INCREASING : string := "صعودی (Increasing)".
Definition DECREASING : string := "نزولی (Decreasing)".
Definition STABLE : string := "بدون روند (Stable)".

(** The body of the inner loop: the two [if]s on [data[j]] and [data[i]]. *)
Definition mkBody (data : list R) (i j : nat) (s : Z) : Z :=
  let s1 := if gtb (get data j) (get data i) then (s + 1)%Z else s in
  if ltb (get data j) (get data i) then (s1 - 1)%Z else s1.

(** The statistic [s] after both loops. *)
Definition mannKendallS (data : list R) : Z :=
  let n := length data in
  forLoop 0 (n - 1)
    (fun i s => forLoop (i + 1) n (fun j s' => mkBody data i j s') s) 0%Z.

Definition calculateMannKendall (data : list R) : string :=
  let s := mannKendallS data in
  if (s >? 0)%Z then INCREASING
  else if (s <? 0)%Z then DECREASING
  else STABLE.

(** *** Pettitt *)

(** [diff > 0 ? 1 : diff < 0 ? -1 : 0]. *)
Definition signOf (diff : R) : Z :=
  if gtb diff 0 then 1%Z else if ltb diff 0 then (-1)%Z else 0%Z.

(** The value of [u] for the split [t], after the loops on [i] and [j]. *)
Definition pettittU (data : list R) (t : nat) : Z :=
  let n := length data in
  forLoop 0 t
    (fun i u => forLoop t n
       (fun j u' => (u' + signOf (get data i - get data j))%Z) u) 0%Z.

(** The state of the outer loop: [maxU] and [changePointIdx],
    the latter [-1] until a split is recorded. *)
Definition pettittStep (data : list R) (t : nat) (st : Z * Z) : Z * Z :=
  let u := pettittU data t in
  if (Z.abs u >? fst st)%Z then (Z.abs u, Z.of_nat t) else st.

Definition pettittLoop (data : list R) : Z * Z :=
  forLoop 1 (length data) (pettittStep data) (0%Z, (-1)%Z).

Definition findPettittChangePoint (data : list R) (dates : list string) : value :=
  let n := length data in
  if (n <? 4)%nat then Null
  else
    let changePointIdx := snd (pettittLoop data) in
    if negb (changePointIdx =? -1)%Z
    then index dates (Z.to_nat changePointIdx)
    else Null.

(** *** Shewhart control limits *)

Record Limits : Type := mkLimits { mean : R; ucl : R; lcl : R }.

Definition calculateControlLimits (data : list R) : Limits :=
  let n := length data in
  if (n =? 0)%nat then mkLimits 0 0 0
  else
    let mean := sumReduce data / INR n in
    let stdDev := sqrt (sumReduce (map (fun x => (x - mean) ^ 2) data) / INR n) in
    mkLimits mean (mean + 3 * stdDev) (Rmax 0 (mean - 3 * stdDev)).

(** *** EWMA *)

(** One turn of the loop: [ewma.push(lambda * data[i] + (1 - lambda) * ewma[i - 1])]. *)
Definition ewmaBody (data : list R) (lambda : R) (i : nat) (ewma : list R) : list R :=
  ewma ++ [lambda * get data i + (1 - lambda) * get ewma (i - 1)].

Definition calculateEWMA (data : list R) (lambda : R) : list R :=
  if (length data =? 0)%nat then []
  else forLoop 1 (length data) (ewmaBody data lambda) [get data 0].

(** The caller of [App.tsx] leaves [lambda] out: the default is 0.3. *)
Definition calculateEWMA_default (data : list R) : list R :=
  calculateEWMA data (3 / 10).

End StatsService.

(** ** App.tsx: clustering of one period, volatility ranking *)

Module App.

Import JS.

(** types.ts *)
Record WaterSample : Type := mkSample {
  id : string;
  conductivity : R;
  nitrate : R;
  timestamp : string;
  location : option string;
  cluster : option string;
  clusterColor : option string
}.

Record TimePoint : Type := mkTimePoint {
  date : string;
  samples : list WaterSample
}.

Inductive Algo : Type := Simple | KMeans.

Record Centroid : Type := mkCentroid { ec : R; no3 : R }.

Definition DEFAULT_CLUSTER_LABELS : list string :=
  ["عالی"; "خوب"; "متوسط"; "ضعیف"; "بحرانی"]%string.

(** [currentClusterLabels], a function of the state [clusterCount]. *)
Definition currentClusterLabels (clusterCount : nat) : list string :=
  if (clusterCount =? 5)%nat then DEFAULT_CLUSTER_LABELS
  else map (fun i => ("دسته " ++ NilEmpty.string_of_uint (Nat.to_uint (i + 1)))%string)
           (seq 0 clusterCount).

(** [{ ...s, cluster: c }]; [None] is a label that is [undefined]. *)
Definition withCluster (s : WaterSample) (c : option string) : WaterSample :=
  {| id := id s; conductivity := conductivity s; nitrate := nitrate s;
     timestamp := timestamp s; location := location s;
     cluster := c; clusterColor := clusterColor s |}.

(** [Math.sqrt(Math.pow(s.conductivity - c.ec, 2) + Math.pow(s.nitrate - c.no3, 2))]. *)
Definition distance (s : WaterSample) (c : Centroid) : R :=
  sqrt ((conductivity s - ec c) ^ 2 + (nitrate s - no3 c) ^ 2).

(** [xs.forEach((x, idx) => ...)] with the state threaded through,
    counting the indices from [start]. *)
Fixpoint forEachFrom {A St : Type} (start : nat) (xs : list A)
    (body : A -> nat -> St -> St) (st : St) : St :=
  match xs with
  | [] => st
  | x :: rest => forEachFrom (S start) rest body (body x start st)
  end.

(** The state of the search for the nearest centroid: [minDist], where
    [None] stands for [Infinity], and [clusterIdx]. *)
Definition nearestBody (s : WaterSample) (c : Centroid) (idx : nat)
    (st : option R * nat) : option R * nat :=
  let d := distance s c in
  let below := match fst st with
               | None => true
               | Some minDist => ltb d minDist
               end in
  if below then (Some d, idx) else st.

Definition nearestCentroid (centroids : list Centroid) (s : WaterSample) : nat :=
  snd (forEachFrom 0 centroids (nearestBody s) (None, 0%nat)).

(** [groups[clusterIdx].push(s)]; [None] is the TypeError of pushing on
    [undefined]. *)
Fixpoint pushAt (groups : list (list WaterSample)) (clusterIdx : nat)
    (s : WaterSample) : option (list (list WaterSample)) :=
  match groups, clusterIdx with
  | [], _ => None
  | g :: gs, O => Some ((g ++ [s]) :: gs)
  | g :: gs, S i => option_map (cons g) (pushAt gs i s)
  end.

(** [samples.forEach(s => { ...; groups[clusterIdx].push(s); })]. *)
Fixpoint assignGroups (centroids : list Centroid) (samples : list WaterSample)
    (groups : list (list WaterSample)) : option (list (list WaterSample)) :=
  match samples with
  | [] => Some groups
  | s :: rest =>
      match pushAt groups (nearestCentroid centroids s) s with
      | Some groups' => assignGroups centroids rest groups'
      | None => None
      end
  end.

(** The callback of [groups.map((group, idx) => ...)].  An index past the
    end of [centroids] would leave [undefined] in the array and fail at the
    next read of its fields: it is the error [None]. *)
Definition newCentroid (centroids : list Centroid) (group : list WaterSample)
    (idx : nat) : option Centroid :=
  if (length group =? 0)%nat then nth_error centroids idx
  else Some {| ec := fold_left (fun a b => a + conductivity b) group 0
                     / INR (length group);
               no3 := fold_left (fun a b => a + nitrate b) group 0
                      / INR (length group) |}.

Fixpoint recompute (centroids : list Centroid) (groups : list (list WaterSample))
    (idx : nat) : option (list Centroid) :=
  match groups with
  | [] => Some []
  | g :: gs =>
      match newCentroid centroids g idx, recompute centroids gs (S idx) with
      | Some c, Some cs => Some (c :: cs)
      | _, _ => None
      end
  end.

(** One turn of the [iter] loop. *)
Definition kmeansStep (samples : list WaterSample) (count : nat)
    (centroids : list Centroid) : option (list Centroid) :=
  match assignGroups centroids samples (repeat [] count) with
  | Some groups => recompute centroids groups 0
  | None => None
  end.

Definition kmeansCentroids (samples : list WaterSample) (count : nat)
    : option (list Centroid) :=
  forLoop 0 10
    (fun _ st => match st with
                 | Some centroids => kmeansStep samples count centroids
                 | None => None
                 end)
    (Some (map (fun s => {| ec := conductivity s; no3 := nitrate s |})
               (firstn count samples))).

(** [Math.max(...xs)]; [None] is the [-Infinity] of the empty list. *)
Definition mathMax (xs : list R) : option R :=
  match xs with
  | [] => None
  | x :: rest => Some (fold_left Rmax rest x)
  end.

(** The centroids of the uniform-range algorithm, for [count <> 1].
    Without samples [count] is 0 and [Array.from] builds nothing. *)
Definition simpleCentroids (samples : list WaterSample) (count : nat)
    : list Centroid :=
  match mathMax (map conductivity samples), mathMax (map nitrate samples) with
  | Some maxEC, Some maxNO3 =>
      map (fun i => {| ec := (INR i / INR (count - 1)) * maxEC;
                       no3 := (INR i / INR (count - 1)) * maxNO3 |})
          (seq 0 count)
  | _, _ => []
  end.

(** [centroids.sort((a, b) => (a.ec + a.no3) - (b.ec + b.no3))].  The sort
    of an array is stable, which fixes its result: the insertion sort. *)
Definition magnitude (c : Centroid) : R := ec c + no3 c.

Fixpoint insertCentroid (c : Centroid) (sorted : list Centroid) : list Centroid :=
  match sorted with
  | [] => [c]
  | c' :: rest =>
      if Rle_dec (magnitude c) (magnitude c') then c :: c' :: rest
      else c' :: insertCentroid c rest
  end.

Definition sortCentroids (centroids : list Centroid) : list Centroid :=
  fold_right insertCentroid [] centroids.

(** The last [samples.map]: every sample gets the label at the index of
    its nearest centroid. *)
Definition labelSamples (labels : list string) (centroids : list Centroid)
    (samples : list WaterSample) : list WaterSample :=
  map (fun s => withCluster s (nth_error labels (nearestCentroid centroids s)))
      samples.

(** [clusterDataPerPeriod], with the [currentClusterLabels] of its closure
    as the first argument.  [None] is a run that throws.

    With [algo = Simple] and [count = 1] the only centroid is
    [(0 / 0) * max], which is [NaN] on both axes: every distance is [NaN],
    no comparison [d < minDist] holds and [clusterIdx] stays 0. *)
Definition clusterDataPerPeriod (labels : list string) (samples : list WaterSample)
    (count : nat) (algo : Algo) : option (list WaterSample) :=
  if (length samples <? count)%nat
  then Some (map (fun s => withCluster s (nth_error labels 0)) samples)
  else
    match algo with
    | Simple =>
        if (count =? 1)%nat
        then Some (map (fun s => withCluster s (nth_error labels 0)) samples)
        else Some (labelSamples labels
                     (sortCentroids (simpleCentroids samples count)) samples)
    | KMeans =>
        match kmeansCentroids samples count with
        | Some centroids =>
            Some (labelSamples labels (sortCentroids centroids) samples)
        | None => None
        end
    end.

(** [processedTimePoints]: every period clustered on its own, with the
    labels of the same [clusterCount]. *)
Fixpoint processedTimePoints (timePoints : list TimePoint) (clusterCount : nat)
    (clusteringAlgo : Algo) : option (list TimePoint) :=
  match timePoints with
  | [] => Some []
  | tp :: rest =>
      match clusterDataPerPeriod (currentClusterLabels clusterCount)
              (samples tp) clusterCount clusteringAlgo,
            processedTimePoints rest clusterCount clusteringAlgo with
      | Some ss, Some rest' => Some ({| date := date tp; samples := ss |} :: rest')
      | _, _ => None
      end
  end.

(** *** The volatility ranking *)

Record HistoryEntry : Type := mkEntry { h_ec : R; h_no3 : R; h_cluster : string }.

(** [s.cluster || '']. *)
Definition clusterOrEmpty (s : WaterSample) : string :=
  match cluster s with
  | Some c => c
  | None => EmptyString
  end.

Definition entryOf (s : WaterSample) : HistoryEntry :=
  {| h_ec := conductivity s; h_no3 := nitrate s; h_cluster := clusterOrEmpty s |}.

(** [pointHistories] is the object [{}] used as a map: the own properties
    in the order of their creation.  A key that [Object.prototype] already
    has reads as a truthy value without [push], and the call throws. *)
Definition objectPrototypeKeys : list string :=
  ["constructor"; "toString"; "toLocaleString"; "valueOf"; "hasOwnProperty";
   "isPrototypeOf"; "propertyIsEnumerable"; "__proto__"; "__defineGetter__";
   "__defineSetter__"; "__lookupGetter__"; "__lookupSetter__"]%string.

Definition Histories : Type := list (string * list HistoryEntry).

(** [pointHistories[key].push(h)] on an own property, or its creation. *)
Fixpoint pushOwn (ph : Histories) (key : string) (h : HistoryEntry) : Histories :=
  match ph with
  | [] => [(key, [h])]
  | (k, hs) :: rest =>
      if String.eqb k key then (k, hs ++ [h]) :: rest
      else (k, hs) :: pushOwn rest key h
  end.

(** The state of the two nested [forEach]: [pointHistories], [allEC],
    [allNO3]. *)
Definition Collected : Type := Histories * list R * list R.

Definition collectSample (s : WaterSample) (st : option Collected)
    : option Collected :=
  match st with
  | None => None
  | Some (ph, allEC, allNO3) =>
      if existsb (String.eqb (id s)) objectPrototypeKeys then None
      else Some (pushOwn ph (id s) (entryOf s),
                 allEC ++ [conductivity s], allNO3 ++ [nitrate s])
  end.

Definition collect (tps : list TimePoint) : option Collected :=
  fold_left (fun st tp => fold_left (fun st' s => collectSample s st') (samples tp) st)
            tps (Some ([], [], [])).

(** [mean || 1] for [mean = xs.reduce(...) / xs.length]: 1 when the mean
    is 0, and when it is the [NaN] of an empty [xs]. *)
Definition meanOrOne (xs : list R) : R :=
  if (length xs =? 0)%nat then 1
  else
    let m := sumReduce xs / INR (length xs) in
    if Req_dec_T m 0 then 1 else m.

Definition entryAt (history : list HistoryEntry) (i : nat) : HistoryEntry :=
  nth i history (mkEntry 0 0 EmptyString).

(** One turn of the loop over a history: [totalChange] and [clusterJumps]. *)
Definition scoreBody (divEC divNO3 : R) (history : list HistoryEntry) (i : nat)
    (st : R * nat) : R * nat :=
  let dEC := Rabs (h_ec (entryAt history i) - h_ec (entryAt history (i - 1))) / divEC in
  let dNO3 := Rabs (h_no3 (entryAt history i) - h_no3 (entryAt history (i - 1))) / divNO3 in
  (fst st + sqrt (dEC * dEC + dNO3 * dNO3),
   if negb (String.eqb (h_cluster (entryAt history i))
                       (h_cluster (entryAt history (i - 1))))
   then (snd st + 1)%nat else snd st).

Record Ranking : Type := mkRanking { r_id : string; score : R; jumps : nat }.

Definition rankStation (divEC divNO3 : R) (p : string * list HistoryEntry) : Ranking :=
  let history := snd p in
  let st := forLoop 1 (length history) (scoreBody divEC divNO3 history) (0, 0%nat) in
  let avgChange := if (1 <? length history)%nat
                   then fst st / INR (length history - 1) else 0 in
  {| r_id := fst p; score := avgChange + INR (snd st) * (2 / 10); jumps := snd st |}.

(** [Object.entries]: the keys that are array indices first, in ascending
    order, then the other keys in the order of their creation. *)
Definition digitOf (c : ascii) : option N :=
  let n := N_of_ascii c in
  if ((48 <=? n) && (n <=? 57))%N then Some (n - 48)%N else None.

Fixpoint digitsValue (str : string) (acc : N) : option N :=
  match str with
  | EmptyString => Some acc
  | String c rest =>
      match digitOf c with
      | Some d => digitsValue rest (10 * acc + d)%N
      | None => None
      end
  end.

Definition arrayIndex (key : string) : option N :=
  match key with
  | EmptyString => None
  | String c rest =>
      if Ascii.eqb c "0" && negb (String.eqb rest EmptyString) then None
      else match digitsValue key 0 with
           | Some v => if (v <? 4294967295)%N then Some v else None
           | None => None
           end
  end.

Fixpoint insertIndexed {A : Type} (x : N * A) (sorted : list (N * A)) : list (N * A) :=
  match sorted with
  | [] => [x]
  | y :: rest =>
      if (fst x <=? fst y)%N then x :: y :: rest else y :: insertIndexed x rest
  end.

Definition objectEntries (ph : Histories) : Histories :=
  let indexed :=
    flat_map (fun p => match arrayIndex (fst p) with
                       | Some v => [(v, p)]
                       | None => []
                       end) ph in
  map snd (fold_right insertIndexed [] indexed)
  ++ filter (fun p => match arrayIndex (fst p) with
                      | Some _ => false
                      | None => true
                      end) ph.

(** [rankings.sort((a, b) => b.score - a.score)]: stable, descending. *)
Fixpoint insertRanking (r : Ranking) (sorted : list Ranking) : list Ranking :=
  match sorted with
  | [] => [r]
  | r' :: rest =>
      if Rle_dec (score r') (score r) then r :: r' :: rest
      else r' :: insertRanking r rest
  end.

Definition sortRankings (rankings : list Ranking) : list Ranking :=
  fold_right insertRanking [] rankings.

(** [volatilityRanking] over the processed periods; [None] is a run that
    throws. *)
Definition volatilityRanking (processed : list TimePoint) : option (list Ranking) :=
  if (length processed <? 2)%nat then Some []
  else
    match collect processed with
    | Some (pointHistories, allEC, allNO3) =>
        Some (sortRankings
                (map (rankStation (meanOrOne allEC) (meanOrOne allNO3))
                     (objectEntries pointHistories)))
    | None => None
    end.

(** *** The statistics of the selected point *)

Definition UNKNOWN : string := "نامشخص".

Record HistoryRow : Type := mkRow {
  row_date : string;
  row_ec : R;
  row_nitrate : R;
  row_cluster : string
}.

(** The callback of [processedTimePoints.map]: the first sample of the
    period with the selected id, or zeros and the label of the unknown.
    [x || 0] is [x] on a number, and [c || 'نامشخص'] replaces the empty
    label as it does the missing one. *)
Definition rowOf (selectedPointId : string) (tp : TimePoint) : HistoryRow :=
  match find (fun s => String.eqb (id s) selectedPointId) (samples tp) with
  | Some sample =>
      {| row_date := date tp;
         row_ec := conductivity sample;
         row_nitrate := nitrate sample;
         row_cluster := match cluster sample with
                        | Some c => if String.eqb c EmptyString then UNKNOWN else c
                        | None => UNKNOWN
                        end |}
  | None =>
      {| row_date := date tp; row_ec := 0; row_nitrate := 0;
         row_cluster := UNKNOWN |}
  end.

(** [processedTimePoints.map(...).filter(h => h.ec > 0)]. *)
Definition selectedHistory (selectedPointId : string) (processed : list TimePoint)
    : list HistoryRow :=
  filter (fun h => gtb (row_ec h) 0) (map (rowOf selectedPointId) processed).

Record SeriesStats : Type := mkSeriesStats {
  trend : string;
  changePoint : value;
  limits : StatsService.Limits
}.

(** A row of the chart: [{ ...h, ecEWMA: ecEWMA[i], no3EWMA: no3EWMA[i] }],
    where [None] is the [undefined] of an index past the end. *)
Record ChartRow : Type := mkChartRow {
  row : HistoryRow;
  ecEWMA : option R;
  no3EWMA : option R
}.

Record PointStats : Type := mkPointStats {
  history : list ChartRow;
  ecStats : SeriesStats;
  no3Stats : SeriesStats
}.

Definition seriesStats (vals : list R) (dates : list string) : SeriesStats :=
  {| trend := StatsService.calculateMannKendall vals;
     changePoint := StatsService.findPettittChangePoint vals dates;
     limits := StatsService.calculateControlLimits vals |}.

(** [selectedPointStats]; [None] is its [null].  [!selectedPointId] holds
    of [null] and of the empty string. *)
Definition selectedPointStats (selectedPointId : option string)
    (processed : list TimePoint) : option PointStats :=
  match selectedPointId with
  | None => None
  | Some key =>
      if String.eqb key EmptyString || (length processed =? 0)%nat then None
      else
        let history := selectedHistory key processed in
        if (length history =? 0)%nat then None
        else
          let ecVals := map row_ec history in
          let no3Vals := map row_nitrate history in
          let dates := map row_date history in
          let ecEWMA := StatsService.calculateEWMA_default ecVals in
          let no3EWMA := StatsService.calculateEWMA_default no3Vals in
          Some {| history :=
                    map (fun p => {| row := snd p;
                                     ecEWMA := nth_error ecEWMA (fst p);
                                     no3EWMA := nth_error no3EWMA (fst p) |})
                        (combine (seq 0 (length history)) history);
                  ecStats := seriesStats ecVals dates;
                  no3Stats := seriesStats no3Vals dates |}
  end.

(** *** The number of samples of each label, period by period *)

(** The value of a property of [counts]: a number, or the [NaN] that
    [undefined + 1] is. *)
Inductive Count : Type :=
| Num : nat -> Count
| NaN : Count.

Definition Counts : Type := list (string * Count).

Definition PROTO : string := "__proto__".

(** [counts[key] = v].  The key [__proto__] is the setter of the
    prototype, which ignores a number. *)
Fixpoint setOwn (counts : Counts) (key : string) (v : Count) : Counts :=
  match counts with
  | [] => [(key, v)]
  | (k, old) :: rest =>
      if String.eqb k key then (k, v) :: rest
      else (k, old) :: setOwn rest key v
  end.

Definition assign (counts : Counts) (key : string) (v : Count) : Counts :=
  if String.eqb key PROTO then counts else setOwn counts key v.

Fixpoint getOwn (counts : Counts) (key : string) : option Count :=
  match counts with
  | [] => None
  | (k, v) :: rest => if String.eqb k key then Some v else getOwn rest key
  end.

(** [counts[key]++]: what is not an own number, inherited or missing,
    converts to [NaN]. *)
Definition increment (counts : Counts) (key : string) : Counts :=
  match getOwn counts key with
  | Some (Num n) => assign counts key (Num (n + 1))
  | _ => assign counts key NaN
  end.

(** [if (s.cluster) counts[s.cluster]++]: the empty label is falsy. *)
Definition countSample (counts : Counts) (s : WaterSample) : Counts :=
  match cluster s with
  | Some c => if String.eqb c EmptyString then counts else increment counts c
  | None => counts
  end.

Definition countPeriod (labels : list string) (tp : TimePoint) : Counts :=
  fold_left countSample (samples tp)
            (fold_left (fun counts l => assign counts l (Num 0)) labels []).

(** A cell of the row [{ date: tp.date, ...counts }]. *)
Inductive Cell : Type :=
| DateCell : string -> Cell
| CountCell : Count -> Cell.

(** The spread writes every own property of [counts] over the row that
    has [date] already. *)
Fixpoint setCell (r : list (string * Cell)) (key : string) (v : Cell)
    : list (string * Cell) :=
  match r with
  | [] => [(key, v)]
  | (k, old) :: rest =>
      if String.eqb k key then (k, v) :: rest
      else (k, old) :: setCell rest key v
  end.

Fixpoint getCell (r : list (string * Cell)) (key : string) : option Cell :=
  match r with
  | [] => None
  | (k, v) :: rest => if String.eqb k key then Some v else getCell rest key
  end.

Definition statsRow (labels : list string) (tp : TimePoint) : list (string * Cell) :=
  fold_left (fun r p => setCell r (fst p) (CountCell (snd p)))
            (countPeriod labels tp) [("date"%string, DateCell (date tp))].

(** [clusterStats]: a row for every period, read by key. *)
Definition clusterStats (labels : list string) (processed : list TimePoint)
    : list (list (string * Cell)) :=
  map (statsRow labels) processed.

End App.

(** ** components/TrajectoryChart.tsx *)

Module TrajectoryChart.

Import JS App.

Definition PERIOD_COLORS : list string :=
  ["#2563eb"; "#d97706"; "#059669"; "#7c3aed"; "#db2777"; "#0891b2"; "#dc2626";
   "#475569"]%string.

Definition CLUSTER_COLORS_STATIC : list (string * string) :=
  [("عالی", "#059669"); ("خوب", "#10b981"); ("متوسط", "#f59e0b");
   ("ضعیف", "#ea580c"); ("بحرانی", "#dc2626")]%string.

(** What a [fill] evaluates to: a colour, a member of [Object.prototype]
    read through the object of the static colours, or [undefined]. *)
Inductive Fill : Type :=
| Colour : string -> Fill
| Inherited : Fill
| NoFill : Fill.

Fixpoint lookupColour (table : list (string * string)) (label : string)
    : option string :=
  match table with
  | [] => None
  | (k, c) :: rest => if String.eqb k label then Some c else lookupColour rest label
  end.

(** [PERIOD_COLORS[idx % PERIOD_COLORS.length]]: the remainder has the
    sign of [idx], and a negative index reads [undefined]. *)
Definition periodColour (idx : Z) : Fill :=
  let i := Z.rem idx (Z.of_nat (length PERIOD_COLORS)) in
  if (i <? 0)%Z then NoFill
  else match nth_error PERIOD_COLORS (Z.to_nat i) with
       | Some c => Colour c
       | None => NoFill
       end.

(** [CLUSTER_COLORS_STATIC[label] || PERIOD_COLORS[idx % PERIOD_COLORS.length]]. *)
Definition getClusterColor (label : string) (idx : Z) : Fill :=
  match lookupColour CLUSTER_COLORS_STATIC label with
  | Some c => Colour c
  | None =>
      if existsb (String.eqb label) objectPrototypeKeys then Inherited
      else periodColour idx
  end.

(** [customLabels.indexOf(label)]. *)
Fixpoint indexOfFrom (start : Z) (customLabels : list string) (label : string) : Z :=
  match customLabels with
  | [] => (-1)%Z
  | l :: rest =>
      if String.eqb l label then start else indexOfFrom (start + 1)%Z rest label
  end.

Definition indexOf (customLabels : list string) (label : string) : Z :=
  indexOfFrom 0 customLabels label.

(** The [fill] of the cell of a sample of the period of index [idx]. *)
Definition cellFill (colorByCluster : bool) (customLabels : list string)
    (idx : nat) (entry : WaterSample) : Fill :=
  let clusterIdx := indexOf customLabels (clusterOrEmpty entry) in
  if colorByCluster then getClusterColor (clusterOrEmpty entry) clusterIdx
  else periodColour (Z.of_nat idx).

Inductive AxisField : Type := Conductivity | Nitrate.

(** [s[key]]. *)
Definition field (key : AxisField) (s : WaterSample) : R :=
  match key with
  | Conductivity => conductivity s
  | Nitrate => nitrate s
  end.

(** [Math.max(...data.flatMap(tp => tp.samples.map(s => s[key])), 10) * 1.1]. *)
Definition maxVal (key : AxisField) (data : list TimePoint) : R :=
  match mathMax (flat_map (fun tp => map (field key) (samples tp)) data ++ [10]) with
  | Some m => m * (11 / 10)
  | None => 0
  end.

End TrajectoryChart.

(** ** The formulas of the specification, in its own words, and the
    invariants of the loops *)

Module Spec.

Definition sumZ (zs : list Z) : Z := fold_right Z.add 0%Z zs.

Definition total (xs : list R) : R := fold_right Rplus 0 xs.

(** +1 if the later value is greater, -1 if it is smaller, 0 if equal. *)
Definition laterSign (earlier later : R) : Z :=
  match total_order_T earlier later with
  | inleft (left _) => 1%Z
  | inleft (right _) => 0%Z
  | inright _ => (-1)%Z
  end.

(** The signed count over all pairs [i < j]. *)
Fixpoint pairSum (data : list R) : Z :=
  match data with
  | [] => 0%Z
  | x :: rest => (sumZ (map (laterSign x) rest) + pairSum rest)%Z
  end.

(** The sign of a real number. *)
Definition sign (r : R) : Z :=
  match total_order_T r 0 with
  | inleft (left _) => (-1)%Z
  | inleft (right _) => 0%Z
  | inright _ => 1%Z
  end.

(** U(t): the sum over [i < t] and [j >= t] of sign(data[i] - data[j]). *)
Definition U (data : list R) (t : nat) : Z :=
  sumZ (map (fun x => sumZ (map (fun y => sign (x - y)) (skipn t data)))
            (firstn t data)).

Definition arithmeticMean (data : list R) : R :=
  total data / INR (length data).

(** The population standard deviation: the divisor is [n]. *)
Definition populationSigma (data : list R) : R :=
  sqrt (total (map (fun x => Rsqr (x - arithmeticMean data)) data)
        / INR (length data)).

(** The smoothed sequence after a seed [prev]. *)
Fixpoint smooth (lambda prev : R) (rest : list R) : list R :=
  match rest with
  | [] => []
  | x :: rest' =>
      let y := lambda * x + (1 - lambda) * prev in
      y :: smooth lambda y rest'
  end.

Definition ewma (lambda : R) (data : list R) : list R :=
  match data with
  | [] => []
  | x :: rest => x :: smooth lambda x rest
  end.

(** The centroid at an index of the sorted array. *)
Definition centroidAt (centroids : list App.Centroid) (j : nat) : App.Centroid :=
  nth j centroids (App.mkCentroid 0 0).

(** The Euclidean distance between a sample and a centroid in the plane
    of conductivity and nitrate. *)
Definition euclidean (s : App.WaterSample) (c : App.Centroid) : R :=
  sqrt (Rsqr (App.conductivity s - App.ec c) + Rsqr (App.nitrate s - App.no3 c)).

(** [idx] is the index of a centroid nearest to [s] in Euclidean
    distance, the first of them. *)
Definition nearestAt (s : App.WaterSample) (centroids : list App.Centroid)
    (idx : nat) : Prop :=
  (idx < length centroids)%nat /\
  (forall j, (j < length centroids)%nat ->
     euclidean s (centroidAt centroids idx) <= euclidean s (centroidAt centroids j)) /\
  (forall j, (j < idx)%nat ->
     euclidean s (centroidAt centroids idx) < euclidean s (centroidAt centroids j)).

(** What the search for the nearest centroid holds after the centroids
    [seen]. *)
Definition searchState (s : App.WaterSample) (seen : list App.Centroid)
    (st : option R * nat) : Prop :=
  match fst st with
  | None => seen = [] /\ snd st = 0%nat
  | Some d => d = euclidean s (centroidAt seen (snd st)) /\ nearestAt s seen (snd st)
  end.

(** The sum by which the centroids are ordered: conductivity + nitrate. *)
Definition sumOf (c : App.Centroid) : R := App.ec c + App.no3 c.

(** Ascending order of conductivity + nitrate. *)
Definition lowerMagnitude (a b : App.Centroid) : Prop :=
  App.ec a + App.no3 a <= App.ec b + App.no3 b.

(** Every field of a sample but its label. *)
Definition sameMeasures (s o : App.WaterSample) : Prop :=
  App.id o = App.id s /\ App.conductivity o = App.conductivity s /\
  App.nitrate o = App.nitrate s /\ App.timestamp o = App.timestamp s /\
  App.location o = App.location s /\ App.clusterColor o = App.clusterColor s.

(** What the sort and the labelling make of the [centroids]: [sorted] has
    the same centroids in ascending order of conductivity + nitrate, its
    index 0 holds one of lowest sum, and every sample is returned with
    the label at the index of the centroid of [sorted] nearest to it. *)
Definition sortedNearest (labels : list string) (centroids sorted : list App.Centroid)
    (samples out : list App.WaterSample) : Prop :=
  Permutation centroids sorted /\
  StronglySorted lowerMagnitude sorted /\
  (forall c, In c centroids -> sumOf (centroidAt sorted 0) <= sumOf c) /\
  Forall2 (fun s o => sameMeasures s o /\
                      exists idx, nearestAt s sorted idx /\
                                  App.cluster o = nth_error labels idx)
          samples out.

(** The two measured values of a sample, and the sample reduced to them. *)
Definition measures (s : App.WaterSample) : R * R :=
  (App.conductivity s, App.nitrate s).

Definition bare (s : App.WaterSample) : App.WaterSample :=
  App.mkSample EmptyString (App.conductivity s) (App.nitrate s) EmptyString
    None None None.

Definition allSamples (tps : list App.TimePoint) : list App.WaterSample :=
  flat_map App.samples tps.

(** The sample has the label [l]. *)
Definition labelled (l : string) (s : App.WaterSample) : bool :=
  match App.cluster s with
  | Some c => String.eqb c l
  | None => false
  end.

(** The number read in a row at a label, 0 where there is none. *)
Definition countOf (r : list (string * App.Cell)) (l : string) : nat :=
  match App.getCell r l with
  | Some (App.CountCell (App.Num n)) => n
  | _ => 0%nat
  end.

(** The counts are on the labels and nowhere else, each a number. *)
Definition counted (labels : list string) (f : string -> nat)
    (counts : App.Counts) : Prop :=
  NoDup (map fst counts) /\
  (forall k, In k (map fst counts) -> In k labels) /\
  (forall l, In l labels -> App.getOwn counts l = Some (App.Num (f l))).

(** The consecutive entries of a history, period by period. *)
Definition pairs (history : list App.HistoryEntry)
    : list (App.HistoryEntry * App.HistoryEntry) :=
  combine history (tl history).

(** The normalized Euclidean step between two consecutive entries. *)
Definition normStep (divEC divNO3 : R) (p : App.HistoryEntry * App.HistoryEntry) : R :=
  sqrt (Rsqr ((App.h_ec (snd p) - App.h_ec (fst p)) / divEC)
        + Rsqr ((App.h_no3 (snd p) - App.h_no3 (fst p)) / divNO3)).

Definition labelChanged (p : App.HistoryEntry * App.HistoryEntry) : bool :=
  negb (String.eqb (App.h_cluster (fst p)) (App.h_cluster (snd p))).

(** The average normalized step plus 0.2 for every change of label. *)
Definition volatilityScore (divEC divNO3 : R) (history : list App.HistoryEntry) : R :=
  match pairs history with
  | [] => 0
  | ps => total (map (normStep divEC divNO3) ps) / INR (length ps)
  end
  + (2 / 10) * INR (length (filter labelChanged (pairs history))).

(** The history of a station: its samples over the periods, in order. *)
Definition historyOf (key : string) (all : list App.WaterSample)
    : list App.HistoryEntry :=
  map App.entryOf (filter (fun s => String.eqb (App.id s) key) all).

(** [pointHistories] after the samples [sofar]. *)
Definition historiesOf (sofar : list App.WaterSample) (ph : App.Histories) : Prop :=
  NoDup (map fst ph) /\
  (forall k hs, In (k, hs) ph -> hs = historyOf k sofar) /\
  (forall s, In s sofar -> In (App.id s) (map fst ph)).

Definition collectedOf (sofar : list App.WaterSample) (st : option App.Collected)
    : Prop :=
  match st with
  | None => True
  | Some (ph, allEC, allNO3) =>
      historiesOf sofar ph /\
      allEC = map App.conductivity sofar /\ allNO3 = map App.nitrate sofar
  end.

End Spec.

(** ** Loops over index ranges *)

Module LoopFacts.

Import JS.

Section ForLoop.

Context {St : Type}.
Implicit Types (body : nat -> St -> St) (s : St).

Lemma forLoop_empty lo hi body s :
  (hi <= lo)%nat -> forLoop lo hi body s = s.
Proof.
  intros H. unfold forLoop.
  replace (hi - lo)%nat with 0%nat by lia. reflexivity.
Qed.

Lemma forLoop_first lo hi body s :
  (lo < hi)%nat -> forLoop lo hi body s = forLoop (S lo) hi body (body lo s).
Proof.
  intros H. unfold forLoop.
  replace (hi - lo)%nat with (S (hi - S lo)) by lia. reflexivity.
Qed.

Lemma forLoop_last lo hi body s :
  (lo <= hi)%nat -> forLoop lo (S hi) body s = body hi (forLoop lo hi body s).
Proof.
  intros H. unfold forLoop.
  replace (S hi - lo)%nat with (S (hi - lo)) by lia.
  rewrite seq_S, fold_left_app. simpl.
  replace (lo + (hi - lo))%nat with hi by lia. reflexivity.
Qed.

Lemma forLoop_ext lo hi body body' s :
  (forall i acc, (lo <= i < hi)%nat -> body i acc = body' i acc) ->
  forLoop lo hi body s = forLoop lo hi body' s.
Proof.
  unfold forLoop. remember (hi - lo)%nat as len eqn:Hlen.
  assert (Hb : (lo + len <= Nat.max lo hi)%nat) by lia.
  clear Hlen. revert lo s Hb.
  induction len as [|len IH]; intros lo s Hb Hext; simpl; [reflexivity|].
  rewrite Hext by lia. apply IH; [lia|].
  intros i acc Hi. apply Hext. lia.
Qed.

Lemma forLoop_shift lo hi body s :
  forLoop (S lo) (S hi) body s = forLoop lo hi (fun i => body (S i)) s.
Proof.
  unfold forLoop. simpl (S hi - S lo)%nat.
  rewrite <- seq_shift. generalize (seq lo (hi - lo)). intros l. revert s.
  induction l as [|i l IH]; intros s; simpl; [reflexivity|apply IH].
Qed.

End ForLoop.

(** A loop that adds a term read at each index is a sum over the list. *)
Lemma forLoop_sum (f : R -> Z) (l : list R) (s : Z) :
  forLoop 0 (length l) (fun j acc => (acc + f (get l j))%Z) s
  = (s + Spec.sumZ (map f l))%Z.
Proof.
  revert s. induction l as [|x l IH]; intros s.
  - rewrite forLoop_empty by (simpl; lia). simpl. lia.
  - simpl length. rewrite forLoop_first by lia. rewrite forLoop_shift.
    erewrite forLoop_ext; [rewrite IH|].
    + unfold get. simpl. lia.
    + intros i acc _. reflexivity.
Qed.

(** The same over the part of the list from an index on. *)
Lemma forLoop_sum_from (f : R -> Z) (l : list R) (t : nat) (s : Z) :
  forLoop t (length l) (fun j acc => (acc + f (get l j))%Z) s
  = (s + Spec.sumZ (map f (skipn t l)))%Z.
Proof.
  revert l s. induction t as [|t IH]; intros l s.
  - apply forLoop_sum.
  - destruct l as [|x l].
    + rewrite forLoop_empty by (simpl; lia). simpl. lia.
    + simpl length. rewrite forLoop_shift. simpl skipn.
      erewrite forLoop_ext; [apply IH|]. intros i acc _. reflexivity.
Qed.

End LoopFacts.

(** ** The statistics service *)

Module StatsProofs.

Import JS StatsService LoopFacts.

Ltac case_cmp :=
  unfold ltb, gtb in *;
  repeat match goal with
         | |- context [Rlt_dec ?a ?b] => destruct (Rlt_dec a b)
         | |- context [total_order_T ?a ?b] =>
             destruct (total_order_T a b) as [[?|?]|?]
         end;
  try lra; try reflexivity; try lia.

(** *** Mann-Kendall *)

Lemma mkBody_laterSign data i j s :
  mkBody data i j s = (s + Spec.laterSign (get data i) (get data j))%Z.
Proof. unfold mkBody, Spec.laterSign. case_cmp. Qed.

Lemma mk_inner_head x rest s :
  forLoop 1 (S (length rest)) (fun j acc => mkBody (x :: rest) 0 j acc) s
  = (s + Spec.sumZ (map (Spec.laterSign x) rest))%Z.
Proof.
  rewrite forLoop_shift.
  erewrite forLoop_ext; [apply (forLoop_sum (Spec.laterSign x))|].
  intros j acc _. rewrite mkBody_laterSign. reflexivity.
Qed.

Lemma mk_loops_pairSum data s :
  forLoop 0 (length data - 1)
    (fun i acc => forLoop (i + 1) (length data)
                    (fun j acc' => mkBody data i j acc') acc) s
  = (s + Spec.pairSum data)%Z.
Proof.
  revert s. induction data as [|x rest IH]; intros s.
  - rewrite forLoop_empty by (simpl; lia). simpl. lia.
  - simpl length. replace (S (length rest) - 1)%nat with (length rest) by lia.
    destruct rest as [|y rest'] eqn:Hrest.
    + rewrite forLoop_empty by (simpl; lia). simpl. lia.
    + rewrite <- Hrest in *.
      assert (Hlen : length rest = S (length rest - 1)) by (subst rest; simpl; lia).
      rewrite Hlen at 1. rewrite forLoop_first by lia.
      rewrite forLoop_shift. simpl (0 + 1)%nat. rewrite mk_inner_head.
      erewrite forLoop_ext; [rewrite IH|].
      * simpl. lia.
      * intros i acc _. simpl (S i + 1)%nat. rewrite forLoop_shift.
        apply forLoop_ext. intros j acc' _. reflexivity.
Qed.

Lemma mannKendallS_pairSum data : mannKendallS data = Spec.pairSum data.
Proof. unfold mannKendallS. rewrite mk_loops_pairSum. lia. Qed.

Lemma sumZ_laterSign_above x rest :
  Forall (Rlt x) rest ->
  Spec.sumZ (map (Spec.laterSign x) rest) = Z.of_nat (length rest).
Proof.
  induction 1 as [|y rest Hy _ IH]; [reflexivity|].
  simpl map. simpl Spec.sumZ. fold (Spec.sumZ (map (Spec.laterSign x) rest)).
  rewrite IH. simpl length. unfold Spec.laterSign. case_cmp.
Qed.

Lemma sumZ_laterSign_below x rest :
  Forall (Rgt x) rest ->
  Spec.sumZ (map (Spec.laterSign x) rest) = (- Z.of_nat (length rest))%Z.
Proof.
  induction 1 as [|y rest Hy _ IH]; [reflexivity|].
  simpl map. simpl Spec.sumZ. fold (Spec.sumZ (map (Spec.laterSign x) rest)).
  rewrite IH. simpl length. unfold Spec.laterSign. unfold Rgt in Hy. case_cmp.
Qed.

Lemma sumZ_laterSign_equal x rest :
  Forall (eq x) rest -> Spec.sumZ (map (Spec.laterSign x) rest) = 0%Z.
Proof.
  induction 1 as [|y rest Hy _ IH]; [reflexivity|].
  simpl map. simpl Spec.sumZ. fold (Spec.sumZ (map (Spec.laterSign x) rest)).
  rewrite IH. unfold Spec.laterSign. case_cmp.
Qed.

Lemma pairSum_increasing data :
  StronglySorted Rlt data -> (Z.of_nat (length data) - 1 <= Spec.pairSum data)%Z.
Proof.
  induction 1 as [|x rest Hs IH Hx]; simpl Spec.pairSum; simpl length; [lia|].
  rewrite sumZ_laterSign_above by assumption.
  destruct rest as [|y rest']; [simpl; lia|].
  cbn [length] in *. lia.
Qed.

Lemma pairSum_decreasing data :
  StronglySorted Rgt data -> (Spec.pairSum data <= 1 - Z.of_nat (length data))%Z.
Proof.
  induction 1 as [|x rest Hs IH Hx]; simpl Spec.pairSum; simpl length; [lia|].
  rewrite sumZ_laterSign_below by assumption.
  destruct rest as [|y rest']; [simpl; lia|].
  cbn [length] in *. lia.
Qed.

Lemma pairSum_constant data :
  (forall x y, In x data -> In y data -> x = y) -> Spec.pairSum data = 0%Z.
Proof.
  induction data as [|x rest IH]; intros Hc; [reflexivity|].
  simpl Spec.pairSum. rewrite sumZ_laterSign_equal, IH; [reflexivity| |].
  - intros a b Ha Hb. apply Hc; right; assumption.
  - apply Forall_forall. intros y Hy. apply Hc; [left; reflexivity|right; assumption].
Qed.

Lemma verdicts_distinct :
  INCREASING <> DECREASING /\ INCREASING <> STABLE /\ DECREASING <> STABLE.
Proof. repeat split; discriminate. Qed.

(** C3.  [calculateMannKendall] computes the signed count over all pairs
    [i < j] (+1 when the later value is greater, -1 when it is smaller, 0
    when they are equal); it answers "increasing" exactly when the count is
    positive, "decreasing" exactly when it is negative and "stable" exactly
    when it is zero.  Hence every strictly increasing sequence of at least
    two values is "increasing", every strictly decreasing one is
    "decreasing", and every constant sequence is "stable". *)
Theorem mann_kendall_verdict (data : list R) :
  mannKendallS data = Spec.pairSum data /\
  (calculateMannKendall data = INCREASING <-> (0 < mannKendallS data)%Z) /\
  (calculateMannKendall data = DECREASING <-> (mannKendallS data < 0)%Z) /\
  (calculateMannKendall data = STABLE <-> mannKendallS data = 0%Z) /\
  (StronglySorted Rlt data -> (2 <= length data)%nat ->
   calculateMannKendall data = INCREASING) /\
  (StronglySorted Rgt data -> (2 <= length data)%nat ->
   calculateMannKendall data = DECREASING) /\
  ((forall x y, In x data -> In y data -> x = y) ->
   calculateMannKendall data = STABLE).
Proof.
  destruct verdicts_distinct as (Hid & His & Hds).
  assert (Hup : (0 < mannKendallS data)%Z -> calculateMannKendall data = INCREASING).
  { intros H. unfold calculateMannKendall.
    destruct (Z.gtb_spec (mannKendallS data) 0); [reflexivity|lia]. }
  assert (Hdown : (mannKendallS data < 0)%Z -> calculateMannKendall data = DECREASING).
  { intros H. unfold calculateMannKendall.
    destruct (Z.gtb_spec (mannKendallS data) 0); [lia|].
    destruct (Z.ltb_spec (mannKendallS data) 0); [reflexivity|lia]. }
  assert (Hflat : mannKendallS data = 0%Z -> calculateMannKendall data = STABLE).
  { intros H. unfold calculateMannKendall. rewrite H. reflexivity. }
  split; [apply mannKendallS_pairSum|].
  repeat split; try assumption.
  - intros H. destruct (Z.lt_trichotomy (mannKendallS data) 0) as [Hc|[Hc|Hc]];
      [apply Hdown in Hc|apply Hflat in Hc|assumption]; congruence.
  - intros H. destruct (Z.lt_trichotomy (mannKendallS data) 0) as [Hc|[Hc|Hc]];
      [assumption|apply Hflat in Hc|apply Hup in Hc]; congruence.
  - intros H. destruct (Z.lt_trichotomy (mannKendallS data) 0) as [Hc|[Hc|Hc]];
      [apply Hdown in Hc|assumption|apply Hup in Hc]; congruence.
  - intros Hs Hlen. apply Hup. rewrite mannKendallS_pairSum.
    pose proof (pairSum_increasing data Hs). lia.
  - intros Hs Hlen. apply Hdown. rewrite mannKendallS_pairSum.
    pose proof (pairSum_decreasing data Hs). lia.
  - intros Hc. apply Hflat. rewrite mannKendallS_pairSum.
    apply pairSum_constant, Hc.
Qed.

Lemma mann_kendall_verdict_witness :
  calculateMannKendall [1; 2; 3; 4] = INCREASING /\
  calculateMannKendall [4; 3; 2; 1] = DECREASING /\
  calculateMannKendall [5; 5; 5] = STABLE.
Proof.
  split; [|split].
  - destruct (mann_kendall_verdict [1; 2; 3; 4]) as (_ & _ & _ & _ & H & _ & _).
    apply H; [repeat constructor; lra|simpl; lia].
  - destruct (mann_kendall_verdict [4; 3; 2; 1]) as (_ & _ & _ & _ & _ & H & _).
    apply H; [repeat constructor; unfold Rgt; lra|simpl; lia].
  - destruct (mann_kendall_verdict [5; 5; 5]) as (_ & _ & _ & _ & _ & _ & H).
    apply H. simpl. intros x y Hx Hy.
    repeat (destruct Hx as [Hx|Hx]; [|try contradiction]);
    repeat (destruct Hy as [Hy|Hy]; [|try contradiction]); congruence.
Defined.

(** *** Pettitt *)

Lemma signOf_sign r : signOf r = Spec.sign r.
Proof. unfold signOf, Spec.sign. case_cmp. Qed.

Lemma forLoop_sum_upto (f : R -> Z) (l : list R) (t : nat) (s : Z) :
  (t <= length l)%nat ->
  forLoop 0 t (fun i acc => (acc + f (get l i))%Z) s
  = (s + Spec.sumZ (map f (firstn t l)))%Z.
Proof.
  intros Ht. rewrite <- forLoop_sum.
  rewrite length_firstn, Nat.min_l by assumption.
  apply forLoop_ext. intros i acc Hi. unfold get.
  rewrite nth_firstn. destruct (Nat.ltb_spec i t); [reflexivity|lia].
Qed.

Lemma pettittU_spec data t :
  (t <= length data)%nat -> pettittU data t = Spec.U data t.
Proof.
  intros Ht. unfold pettittU, Spec.U.
  set (g := fun x => Spec.sumZ (map (fun y => Spec.sign (x - y)) (skipn t data))).
  rewrite (forLoop_ext _ _ _ (fun i acc => (acc + g (get data i))%Z)).
  - rewrite (forLoop_sum_upto g data t 0%Z Ht). lia.
  - intros i acc _.
    rewrite (forLoop_sum_from (fun y => signOf (get data i - y))).
    unfold g. f_equal. f_equal. apply map_ext. intros y. apply signOf_sign.
Qed.

(** What the outer loop has recorded after the splits [1 .. k-1]: nothing
    while every [u] was 0, else the first split of the largest [|u|]. *)
Lemma pettittLoop_invariant data k :
  (1 <= k)%nat ->
  let st := forLoop 1 k (pettittStep data) (0%Z, (-1)%Z) in
  (snd st = (-1)%Z /\ fst st = 0%Z /\
   forall t, (1 <= t < k)%nat -> pettittU data t = 0%Z)
  \/
  (exists t, snd st = Z.of_nat t /\ (1 <= t < k)%nat /\
     fst st = Z.abs (pettittU data t) /\ (0 < fst st)%Z /\
     (forall t', (1 <= t' < k)%nat -> (Z.abs (pettittU data t') <= fst st)%Z) /\
     (forall t', (1 <= t' < t)%nat -> (Z.abs (pettittU data t') < fst st)%Z)).
Proof.
  intros Hk. induction k as [|k IH]; [lia|].
  destruct (Nat.eq_dec k 0) as [->|Hk0].
  - rewrite forLoop_empty by lia. left. simpl. repeat split. intros t Ht. lia.
  - specialize (IH ltac:(lia)). cbv zeta in *.
    rewrite forLoop_last by lia.
    set (st := forLoop 1 k (pettittStep data) (0%Z, (-1)%Z)) in *.
    unfold pettittStep.
    destruct (Z.gtb_spec (Z.abs (pettittU data k)) (fst st)) as [Hgt|Hle].
    + right. exists k. cbn [fst snd]. repeat split; try lia.
      * destruct IH as [(_ & H0 & _)|(t & _ & _ & _ & Hpos & _)]; lia.
      * intros t' Ht'. destruct (Nat.eq_dec t' k) as [->|Hne]; [lia|].
        destruct IH as [(_ & H0 & Hall)|(t & _ & _ & _ & _ & Hmax & _)].
        -- rewrite Hall by lia. simpl. lia.
        -- specialize (Hmax t' ltac:(lia)). lia.
      * intros t' Ht'.
        destruct IH as [(_ & H0 & Hall)|(t & _ & _ & _ & _ & Hmax & _)].
        -- rewrite Hall by lia. simpl. lia.
        -- specialize (Hmax t' ltac:(lia)). lia.
    + destruct IH as [(Hidx & H0 & Hall)|(t & Hidx & Ht & Hval & Hpos & Hmax & Hfirst)].
      * left. repeat split; try assumption.
        intros t' Ht'. destruct (Nat.eq_dec t' k) as [->|Hne]; [lia|].
        apply Hall. lia.
      * right. exists t. repeat split; try assumption; try lia.
        intros t' Ht'. destruct (Nat.eq_dec t' k) as [->|Hne]; [lia|].
        apply Hmax. lia.
Qed.

(** C7.  A sequence of fewer than four values has no change point:
    the answer is [null] whatever the values and the dates are. *)
Theorem pettitt_short_is_null (data : list R) (dates : list string) :
  (length data < 4)%nat -> findPettittChangePoint data dates = Null.
Proof.
  intros H. unfold findPettittChangePoint.
  destruct (Nat.ltb_spec (length data) 4); [reflexivity|lia].
Qed.

Lemma pettitt_short_is_null_witness :
  findPettittChangePoint [1; 2; 10] ["d0"; "d1"; "d2"]%string = Null.
Proof. apply pettitt_short_is_null. simpl. lia. Defined.

(** C1, as the code has it.  For a sequence of at least four values and as
    many dates: when U(t) is 0 at every split the answer is [null]; else
    it is the date at the first split [t], [1 <= t <= n-1], whose [|U(t)|]
    is the largest, U(t) being the sum over [i < t] and [j >= t] of
    sign(data[i] - data[j]). *)
Theorem pettitt_change_point (data : list R) (dates : list string) :
  length dates = length data -> (4 <= length data)%nat ->
  ((forall t, (1 <= t < length data)%nat -> Spec.U data t = 0%Z) /\
   findPettittChangePoint data dates = Null)
  \/
  (exists t d, (1 <= t < length data)%nat /\
     nth_error dates t = Some d /\
     findPettittChangePoint data dates = Str d /\
     Spec.U data t <> 0%Z /\
     (forall t', (1 <= t' < length data)%nat ->
        (Z.abs (Spec.U data t') <= Z.abs (Spec.U data t))%Z) /\
     (forall t', (1 <= t' < t)%nat ->
        (Z.abs (Spec.U data t') < Z.abs (Spec.U data t))%Z)).
Proof.
  intros Hdates Hn. unfold findPettittChangePoint, pettittLoop.
  destruct (Nat.ltb_spec (length data) 4) as [?|_]; [lia|].
  pose proof (pettittLoop_invariant data (length data) ltac:(lia)) as Hinv.
  cbv zeta in Hinv.
  destruct Hinv as [(Hidx & _ & Hall)|(t & Hidx & Ht & Hval & Hpos & Hmax & Hfirst)].
  - left. rewrite Hidx. split; [|reflexivity].
    intros t Ht. rewrite <- pettittU_spec by lia. apply Hall, Ht.
  - right. rewrite Hidx.
    destruct (nth_error dates t) as [d|] eqn:Hd.
    2:{ apply nth_error_None in Hd. lia. }
    exists t, d. rewrite Hval in *.
    replace (negb (Z.of_nat t =? -1)%Z) with true
      by (symmetry; apply negb_true_iff, Z.eqb_neq; lia).
    rewrite Nat2Z.id. unfold index. rewrite Hd.
    rewrite <- !pettittU_spec by lia.
    repeat split; try assumption; try lia.
    + intros t' Ht'. rewrite <- pettittU_spec by lia. apply Hmax, Ht'.
    + intros t' Ht'. rewrite <- pettittU_spec by lia. apply Hfirst, Ht'.
Qed.

(** Evaluation of the loops on a literal array: unfold them, settle every
    comparison of two literals, compute the integers that are left. *)
Ltac settle_cmp :=
  repeat match goal with
         | |- context [Rlt_dec ?a ?b] =>
             destruct (Rlt_dec a b); [try (exfalso; lra)|try (exfalso; lra)]
         end.

Ltac run_pettitt :=
  cbv [findPettittChangePoint pettittLoop pettittStep pettittU signOf forLoop
       ltb gtb get seq fold_left length Nat.sub Nat.ltb Nat.leb nth];
  settle_cmp.

Lemma pettitt_example :
  findPettittChangePoint [1; 2; 10; 11] ["d0"; "d1"; "d2"; "d3"]%string
  = Str "d2"%string.
Proof. run_pettitt. reflexivity. Qed.

Example mann_kendall_example :
  mannKendallS [3; 1; 2] = (-1)%Z /\ calculateMannKendall [3; 1; 2] = DECREASING.
Proof.
  assert (Hs : mannKendallS [3; 1; 2] = (-1)%Z).
  { cbv [mannKendallS mkBody forLoop ltb gtb get seq fold_left length Nat.sub
         Nat.add nth].
    settle_cmp. reflexivity. }
  split; [exact Hs|]. unfold calculateMannKendall. rewrite Hs. reflexivity.
Qed.

Example ewma_example : calculateEWMA [10; 20; 30] (1 / 2) = [10; 15; 45 / 2].
Proof.
  cbv [calculateEWMA ewmaBody forLoop get seq fold_left length Nat.sub Nat.eqb
       nth app].
  f_equal. f_equal; [lra|]. f_equal. lra.
Qed.

Lemma pettitt_change_point_witness :
  let data := [1; 2; 10; 11] in
  let dates := ["d0"; "d1"; "d2"; "d3"]%string in
  exists t d, (1 <= t < length data)%nat /\ nth_error dates t = Some d /\
    findPettittChangePoint data dates = Str d /\ (t = 2)%nat.
Proof.
  intros data dates.
  destruct (pettitt_change_point data dates eq_refl ltac:(simpl; lia))
    as [(_ & Hnull)|(t & d & Ht & Hd & Hres & _)].
  - unfold data, dates in Hnull. rewrite pettitt_example in Hnull. discriminate.
  - exists t, d. repeat split; try assumption; try lia.
    unfold data, dates in Hres. rewrite pettitt_example in Hres.
    injection Hres as Hres. subst d. simpl in Ht.
    destruct t as [|[|[|[|t]]]]; simpl in Hd; try discriminate; try lia.
Defined.

(** C1 as the specification has it fails on a constant series: all four
    values are equal, every U(t) is 0, so every split is an arg-max of
    [|U(t)|], and the answer is [null], no date at all. *)
Lemma pettitt_constant_series_counterexample :
  let data := [5; 5; 5; 5] in
  let dates := ["d0"; "d1"; "d2"; "d3"]%string in
  length dates = length data /\ (4 <= length data)%nat /\
  findPettittChangePoint data dates = Null /\
  ~ (exists t, (1 <= t <= length data - 1)%nat /\
       (forall t', (1 <= t' <= length data - 1)%nat ->
          (Z.abs (Spec.U data t') <= Z.abs (Spec.U data t))%Z) /\
       findPettittChangePoint data dates = index dates t).
Proof.
  intros data dates.
  assert (Hnull : findPettittChangePoint data dates = Null).
  { unfold data, dates. run_pettitt. reflexivity. }
  repeat split; try assumption; try (simpl; lia).
  intros (t & Ht & _ & Hres). rewrite Hnull in Hres. simpl in Ht.
  destruct t as [|[|[|[|t]]]]; try lia; discriminate.
Qed.

(** *** Shewhart control limits *)

Lemma fold_plus_total (f : R -> R) xs a :
  fold_left (fun acc b => acc + f b) xs a = a + Spec.total (map f xs).
Proof.
  revert a. induction xs as [|x xs IH]; intros a; simpl.
  - lra.
  - rewrite IH. lra.
Qed.

Lemma sumReduce_total xs : sumReduce xs = Spec.total xs.
Proof.
  unfold sumReduce. rewrite (fold_plus_total (fun b => b)), map_id. lra.
Qed.

(** C4.  Without data the three limits are 0 and nothing is divided.
    Otherwise [mean] is the arithmetic mean, [ucl] is the mean plus three
    sigma and [lcl] is the larger of 0 and the mean minus three sigma, for
    sigma the population standard deviation, of divisor [n]. *)
Theorem control_limits_formula (data : list R) :
  (length data = 0%nat -> calculateControlLimits data = mkLimits 0 0 0) /\
  (length data <> 0%nat ->
   let m := Spec.arithmeticMean data in
   let sigma := Spec.populationSigma data in
   calculateControlLimits data
   = mkLimits m (m + 3 * sigma) (Rmax 0 (m - 3 * sigma))).
Proof.
  unfold calculateControlLimits. split; intros Hn.
  - rewrite Hn. reflexivity.
  - destruct (Nat.eqb_spec (length data) 0) as [?|_]; [contradiction|].
    cbv zeta.
    assert (Hm : sumReduce data / INR (length data) = Spec.arithmeticMean data).
    { unfold Spec.arithmeticMean. rewrite sumReduce_total. reflexivity. }
    rewrite Hm.
    assert (Hs : sqrt (sumReduce (map (fun x => (x - Spec.arithmeticMean data) ^ 2) data)
                       / INR (length data))
                 = Spec.populationSigma data).
    { unfold Spec.populationSigma. rewrite sumReduce_total. f_equal. f_equal. f_equal.
      apply map_ext. intros x. rewrite Rsqr_pow2. reflexivity. }
    rewrite Hs. reflexivity.
Qed.

Lemma control_limits_formula_witness :
  calculateControlLimits [] = mkLimits 0 0 0 /\
  calculateControlLimits [2; 4; 4; 4; 5; 5; 7; 9] = mkLimits 5 11 0.
Proof.
  split.
  - apply (control_limits_formula []). reflexivity.
  - destruct (control_limits_formula [2; 4; 4; 4; 5; 5; 7; 9]) as [_ H].
    rewrite H by (simpl; lia). clear H.
    assert (Hm : Spec.arithmeticMean [2; 4; 4; 4; 5; 5; 7; 9] = 5).
    { unfold Spec.arithmeticMean. replace (INR (length [2; 4; 4; 4; 5; 5; 7; 9])) with 8
        by (simpl; lra).
      simpl. lra. }
    assert (Hs : Spec.populationSigma [2; 4; 4; 4; 5; 5; 7; 9] = 2).
    { unfold Spec.populationSigma. rewrite Hm.
      replace (INR (length [2; 4; 4; 4; 5; 5; 7; 9])) with 8 by (simpl; lra).
      replace (Spec.total (map (fun x => Rsqr (x - 5)) [2; 4; 4; 4; 5; 5; 7; 9]) / 8)
        with (2 * 2) by (simpl; unfold Rsqr; lra).
      apply sqrt_square. lra. }
    cbv zeta. rewrite Hm, Hs.
    replace (5 + 3 * 2) with 11 by lra.
    rewrite Rmax_left by lra. reflexivity.
Defined.

(** *** EWMA *)

Lemma smooth_length lambda prev rest :
  length (Spec.smooth lambda prev rest) = length rest.
Proof.
  revert prev. induction rest as [|x rest IH]; intros prev; simpl; [reflexivity|].
  rewrite IH. reflexivity.
Qed.

Lemma ewma_length lambda data : length (Spec.ewma lambda data) = length data.
Proof. destruct data; simpl; [reflexivity|]. rewrite smooth_length. reflexivity. Qed.

Lemma smooth_nth lambda rest : forall y0 x0 k,
  (1 <= k < S (length rest))%nat ->
  nth k (y0 :: Spec.smooth lambda y0 rest) 0
  = lambda * nth k (x0 :: rest) 0
    + (1 - lambda) * nth (k - 1) (y0 :: Spec.smooth lambda y0 rest) 0.
Proof.
  induction rest as [|x1 rest IH]; intros y0 x0 k Hk; simpl in Hk; [lia|].
  destruct k as [|[|k]]; [lia|reflexivity|].
  change (nth (S (S k)) (y0 :: Spec.smooth lambda y0 (x1 :: rest)) 0)
    with (nth (S k) (Spec.smooth lambda y0 (x1 :: rest)) 0).
  change (nth (S (S k)) (x0 :: x1 :: rest) 0) with (nth (S k) (x1 :: rest) 0).
  replace (S (S k) - 1)%nat with (S (S k - 1)) by lia.
  change (nth (S (S k - 1)) (y0 :: Spec.smooth lambda y0 (x1 :: rest)) 0)
    with (nth (S k - 1) (Spec.smooth lambda y0 (x1 :: rest)) 0).
  simpl Spec.smooth. apply IH. lia.
Qed.

Lemma ewma_nth lambda data k :
  (1 <= k < length data)%nat ->
  get (Spec.ewma lambda data) k
  = lambda * get data k + (1 - lambda) * get (Spec.ewma lambda data) (k - 1).
Proof.
  destruct data as [|x rest]; simpl length; intros Hk; [lia|].
  unfold get, Spec.ewma. apply smooth_nth. lia.
Qed.

Lemma firstn_snoc_nth (l : list R) k :
  (k < length l)%nat -> firstn (S k) l = firstn k l ++ [nth k l 0].
Proof.
  revert k. induction l as [|x l IH]; intros k Hk; simpl in Hk; [lia|].
  destruct k as [|k]; [reflexivity|].
  change (firstn (S (S k)) (x :: l)) with (x :: firstn (S k) l).
  rewrite IH by lia. reflexivity.
Qed.

Lemma ewma_loop_prefix data lambda k :
  (1 <= k <= length data)%nat ->
  forLoop 1 k (ewmaBody data lambda) [get data 0]
  = firstn k (Spec.ewma lambda data).
Proof.
  induction k as [|k IH]; intros Hk; [lia|].
  destruct (Nat.eq_dec k 0) as [->|Hk0].
  - rewrite forLoop_empty by lia.
    destruct data as [|x rest]; [simpl in Hk; lia|reflexivity].
  - rewrite forLoop_last by lia. rewrite IH by lia.
    unfold ewmaBody. rewrite firstn_snoc_nth by (rewrite ewma_length; lia).
    f_equal. f_equal.
    fold (get (Spec.ewma lambda data) k). rewrite ewma_nth by lia.
    f_equal. f_equal. unfold get. rewrite nth_firstn.
    destruct (Nat.ltb_spec (k - 1) k); [reflexivity|lia].
Qed.

Lemma calculateEWMA_spec data lambda :
  calculateEWMA data lambda = Spec.ewma lambda data.
Proof.
  unfold calculateEWMA. destruct (Nat.eqb_spec (length data) 0) as [H0|Hn].
  - destruct data; [reflexivity|discriminate].
  - rewrite ewma_loop_prefix by lia.
    apply firstn_all2. rewrite ewma_length. lia.
Qed.

(** C5.  For every smoothing factor, those of (0,1] among them,
    [calculateEWMA] returns as many values as it was given, the first one
    being the first input value and the one at each later position [i]
    being [lambda * input[i] + (1 - lambda) * output[i-1]]; without input
    the output is empty. *)
Theorem ewma_recurrence (data : list R) (lambda : R) :
  let out := calculateEWMA data lambda in
  length out = length data /\
  calculateEWMA [] lambda = [] /\
  nth_error out 0 = nth_error data 0 /\
  (forall i, (1 <= i < length data)%nat ->
     get out i = lambda * get data i + (1 - lambda) * get out (i - 1)).
Proof.
  cbv zeta. rewrite calculateEWMA_spec. repeat split.
  - apply ewma_length.
  - destruct data; reflexivity.
  - intros i Hi. apply ewma_nth, Hi.
Qed.

Lemma ewma_recurrence_witness :
  length (calculateEWMA [10; 20] (3 / 10)) = 2%nat /\
  nth_error (calculateEWMA [10; 20] (3 / 10)) 0 = Some 10 /\
  get (calculateEWMA [10; 20] (3 / 10)) 1 = 13.
Proof.
  destruct (ewma_recurrence [10; 20] (3 / 10)) as (Hlen & _ & Hhead & Hrec).
  repeat split; try assumption.
  rewrite (Hrec 1%nat) by (simpl; lia).
  change (1 - 1)%nat with 0%nat. unfold get at 2.
  rewrite (nth_error_nth _ _ 0 Hhead). unfold get. simpl. lra.
Defined.

Lemma smooth_lambda_one prev rest : Spec.smooth 1 prev rest = rest.
Proof.
  revert prev. induction rest as [|x rest IH]; intros prev; simpl; [reflexivity|].
  rewrite IH. f_equal. lra.
Qed.

(** C6.  With [lambda = 1] the smoothing changes nothing: [calculateEWMA]
    is the identity, so a smoothed sequence fed back through it with
    [lambda = 1] comes out as it went in. *)
Theorem ewma_lambda_one_identity (data : list R) (lambda : R) :
  calculateEWMA data 1 = data /\
  calculateEWMA (calculateEWMA data lambda) 1 = calculateEWMA data lambda.
Proof.
  assert (Hid : forall xs, calculateEWMA xs 1 = xs).
  { intros xs. rewrite calculateEWMA_spec. destruct xs as [|x rest]; [reflexivity|].
    simpl. rewrite smooth_lambda_one. reflexivity. }
  split; apply Hid.
Qed.

End StatsProofs.

(** ** Clustering of one period *)

Module ClusterProofs.

Import JS App LoopFacts.

(** *** The nearest centroid *)

Lemma centroidAt_app_old pre c j :
  (j < length pre)%nat -> Spec.centroidAt (pre ++ [c]) j = Spec.centroidAt pre j.
Proof. intros Hj. unfold Spec.centroidAt. apply app_nth1, Hj. Qed.

Lemma centroidAt_app_new pre c :
  Spec.centroidAt (pre ++ [c]) (length pre) = c.
Proof.
  unfold Spec.centroidAt. rewrite app_nth2 by lia.
  rewrite Nat.sub_diag. reflexivity.
Qed.

(** The distance the code computes is the Euclidean one. *)
Lemma distance_euclidean s c : distance s c = Spec.euclidean s c.
Proof.
  unfold distance, Spec.euclidean. f_equal. unfold Rsqr. ring.
Qed.

Lemma nearestBody_keeps s pre c st :
  Spec.searchState s pre st ->
  Spec.searchState s (pre ++ [c]) (nearestBody s c (length pre) st).
Proof.
  unfold Spec.searchState, nearestBody. cbv zeta. rewrite distance_euclidean.
  destruct st as [[m|] idx]; cbn [fst snd].
  - intros (Hm & Hidx & Hmin & Hfirst). unfold ltb.
    destruct (Rlt_dec (Spec.euclidean s c) m) as [Hlt|Hge]; cbn [fst snd].
    + rewrite centroidAt_app_new. split; [reflexivity|].
      unfold Spec.nearestAt. rewrite length_app, centroidAt_app_new. simpl length.
      split; [lia|]. split.
      * intros j Hj. destruct (Nat.eq_dec j (length pre)) as [->|Hne].
        -- rewrite centroidAt_app_new. lra.
        -- rewrite centroidAt_app_old by lia.
           specialize (Hmin j ltac:(lia)). lra.
      * intros j Hj. rewrite centroidAt_app_old by lia.
        specialize (Hmin j Hj). lra.
    + rewrite centroidAt_app_old by assumption. split; [assumption|].
      unfold Spec.nearestAt. rewrite length_app. simpl length.
      rewrite centroidAt_app_old by assumption.
      split; [lia|]. split.
      * intros j Hj. destruct (Nat.eq_dec j (length pre)) as [->|Hne].
        -- rewrite centroidAt_app_new. lra.
        -- rewrite centroidAt_app_old by lia. apply Hmin. lia.
      * intros j Hj. rewrite centroidAt_app_old by lia. apply Hfirst, Hj.
  - intros (-> & ->). cbn [fst snd]. simpl app. simpl length.
    split; [reflexivity|]. unfold Spec.nearestAt. simpl length.
    split; [lia|]. split.
    + intros j Hj. replace j with 0%nat by lia. lra.
    + intros j Hj. lia.
Qed.

Lemma search_keeps s rest : forall pre st,
  Spec.searchState s pre st ->
  Spec.searchState s (pre ++ rest)
    (forEachFrom (length pre) rest (nearestBody s) st).
Proof.
  induction rest as [|c rest IH]; intros pre st Hst; simpl.
  - rewrite app_nil_r. assumption.
  - replace (pre ++ c :: rest) with ((pre ++ [c]) ++ rest)
      by (rewrite <- app_assoc; reflexivity).
    replace (S (length pre)) with (length (pre ++ [c]))
      by (rewrite length_app; simpl; lia).
    apply IH, nearestBody_keeps, Hst.
Qed.

Lemma nearestCentroid_nearest centroids s :
  centroids <> [] -> Spec.nearestAt s centroids (nearestCentroid centroids s).
Proof.
  intros Hne. unfold nearestCentroid.
  pose proof (search_keeps s centroids [] (None, 0%nat)) as H.
  simpl in H. specialize (H (conj eq_refl eq_refl)).
  unfold Spec.searchState in H.
  destruct (forEachFrom 0 centroids (nearestBody s) (None, 0%nat)) as [[d|] idx];
    cbn [fst snd] in *.
  - apply H.
  - destruct H as [H _]. contradiction.
Qed.

Lemma nearestCentroid_bare centroids s :
  nearestCentroid centroids (Spec.bare s) = nearestCentroid centroids s.
Proof. reflexivity. Qed.

(** *** The sort of the centroids *)

Lemma insertCentroid_perm c sorted :
  Permutation (c :: sorted) (insertCentroid c sorted).
Proof.
  induction sorted as [|c' rest IH]; simpl; [reflexivity|].
  destruct (Rle_dec (magnitude c) (magnitude c')); [reflexivity|].
  rewrite perm_swap. apply perm_skip, IH.
Qed.

Lemma sortCentroids_perm centroids :
  Permutation centroids (sortCentroids centroids).
Proof.
  induction centroids as [|c rest IH]; simpl; [constructor|].
  rewrite <- insertCentroid_perm. apply perm_skip, IH.
Qed.

Lemma insertCentroid_sorted c sorted :
  StronglySorted Spec.lowerMagnitude sorted ->
  StronglySorted Spec.lowerMagnitude (insertCentroid c sorted).
Proof.
  induction 1 as [|c' rest Hs IH Hall]; simpl.
  - constructor; constructor.
  - destruct (Rle_dec (magnitude c) (magnitude c')) as [Hle|Hgt].
    + constructor; [constructor; assumption|].
      constructor; [exact Hle|].
      eapply Forall_impl; [|exact Hall].
      intros a Ha. unfold Spec.lowerMagnitude, magnitude in *. lra.
    + constructor; [exact IH|].
      eapply Permutation_Forall; [apply insertCentroid_perm|].
      constructor; [unfold Spec.lowerMagnitude, magnitude in *; lra|exact Hall].
Qed.

Lemma sortCentroids_sorted centroids :
  StronglySorted Spec.lowerMagnitude (sortCentroids centroids).
Proof.
  induction centroids as [|c rest IH]; simpl; [constructor|].
  apply insertCentroid_sorted, IH.
Qed.

Lemma sortCentroids_length centroids :
  length (sortCentroids centroids) = length centroids.
Proof. symmetry. apply Permutation_length, sortCentroids_perm. Qed.

Lemma sorted_head_lowest sorted c :
  StronglySorted Spec.lowerMagnitude sorted -> In c sorted ->
  Spec.sumOf (Spec.centroidAt sorted 0) <= Spec.sumOf c.
Proof.
  intros Hs Hin. destruct Hs as [|c0 rest _ Hall]; [contradiction|].
  unfold Spec.centroidAt. simpl. destruct Hin as [->|Hin]; [lra|].
  rewrite Forall_forall in Hall. apply Hall, Hin.
Qed.

(** *** The centroids exist *)

Lemma simpleCentroids_length samples count :
  samples <> [] -> length (simpleCentroids samples count) = count.
Proof.
  intros Hne. unfold simpleCentroids.
  destruct samples as [|s rest]; [contradiction|]. simpl.
  rewrite length_map, length_seq. reflexivity.
Qed.

Lemma pushAt_some groups : forall idx s,
  (idx < length groups)%nat ->
  exists groups', pushAt groups idx s = Some groups' /\
                  length groups' = length groups.
Proof.
  induction groups as [|g gs IH]; intros idx s Hidx; simpl in Hidx; [lia|].
  destruct idx as [|idx]; simpl.
  - eexists. split; reflexivity.
  - destruct (IH idx s ltac:(lia)) as (gs' & -> & Hlen).
    eexists. split; [reflexivity|]. simpl. rewrite Hlen. reflexivity.
Qed.

Lemma assignGroups_some centroids samples : forall groups,
  centroids <> [] -> length groups = length centroids ->
  exists groups', assignGroups centroids samples groups = Some groups' /\
                  length groups' = length centroids.
Proof.
  induction samples as [|s rest IH]; intros groups Hne Hlen; simpl.
  - exists groups. split; [reflexivity|assumption].
  - destruct (nearestCentroid_nearest centroids s Hne) as (Hidx & _).
    destruct (pushAt_some groups (nearestCentroid centroids s) s ltac:(lia))
      as (groups' & -> & Hlen').
    apply IH; [assumption|lia].
Qed.

Lemma recompute_some centroids groups : forall idx,
  (idx + length groups <= length centroids)%nat ->
  exists centroids', recompute centroids groups idx = Some centroids' /\
                     length centroids' = length groups.
Proof.
  induction groups as [|g gs IH]; intros idx Hidx; simpl.
  - exists []. split; reflexivity.
  - simpl in Hidx. destruct (IH (S idx) ltac:(lia)) as (cs & -> & Hlen).
    unfold newCentroid. destruct (length g =? 0)%nat.
    + destruct (nth_error centroids idx) as [c|] eqn:Hc.
      * eexists. split; [reflexivity|]. simpl. rewrite Hlen. reflexivity.
      * apply nth_error_None in Hc. lia.
    + eexists. split; [reflexivity|]. simpl. rewrite Hlen. reflexivity.
Qed.

Lemma kmeansStep_some samples count centroids :
  (1 <= count)%nat -> length centroids = count ->
  exists centroids', kmeansStep samples count centroids = Some centroids' /\
                     length centroids' = count.
Proof.
  intros Hc Hlen. unfold kmeansStep.
  assert (Hne : centroids <> []) by (destruct centroids; [simpl in Hlen; lia|discriminate]).
  destruct (assignGroups_some centroids samples (repeat [] count) Hne)
    as (groups & -> & Hg).
  { rewrite repeat_length. lia. }
  destruct (recompute_some centroids groups 0 ltac:(lia)) as (cs & -> & Hcs).
  exists cs. split; [reflexivity|lia].
Qed.

Lemma forLoop_iter {St : Type} (f : St -> St) n s :
  forLoop 0 n (fun _ => f) s = Nat.iter n f s.
Proof.
  induction n as [|n IH]; [reflexivity|].
  rewrite forLoop_last by lia. rewrite IH. reflexivity.
Qed.

Lemma kmeansCentroids_some samples count :
  (1 <= count <= length samples)%nat ->
  exists centroids, kmeansCentroids samples count = Some centroids /\
                    length centroids = count.
Proof.
  intros Hc. unfold kmeansCentroids. rewrite forLoop_iter.
  generalize 10%nat. intros n. induction n as [|n IH].
  - eexists. split; [reflexivity|].
    rewrite length_map, length_firstn. lia.
  - destruct IH as (cs & Hcs & Hlen). simpl. rewrite Hcs.
    apply kmeansStep_some; [lia|assumption].
Qed.

(** *** Labels *)

Lemma labelSamples_nearest labels sorted samples :
  sorted <> [] ->
  Forall2 (fun s o => Spec.sameMeasures s o /\
                      exists idx, Spec.nearestAt s sorted idx /\
                                  cluster o = nth_error labels idx)
          samples (labelSamples labels sorted samples).
Proof.
  intros Hne. unfold labelSamples.
  induction samples as [|s rest IH]; simpl; constructor; [|exact IH].
  split; [repeat split|].
  exists (nearestCentroid sorted s). split; [|reflexivity].
  apply nearestCentroid_nearest, Hne.
Qed.

Lemma currentClusterLabels_length clusterCount :
  length (currentClusterLabels clusterCount) = clusterCount.
Proof.
  unfold currentClusterLabels. destruct (Nat.eqb_spec clusterCount 5) as [->|_].
  - reflexivity.
  - rewrite length_map, length_seq. reflexivity.
Qed.

(** C8.  With fewer samples than the requested number of clusters the
    routine does not fail: every sample comes back with the label of
    index 0, the lowest severity, and with its other fields as they
    were. *)
Theorem too_few_samples_lowest_label (labels : list string)
    (samples : list WaterSample) (count : nat) (algo : Algo) :
  (length samples < count)%nat ->
  exists out,
    clusterDataPerPeriod labels samples count algo = Some out /\
    Forall2 (fun s o => Spec.sameMeasures s o /\ cluster o = nth_error labels 0)
            samples out /\
    (labels = currentClusterLabels count ->
     exists lowest, nth_error labels 0 = Some lowest).
Proof.
  intros Hlt. unfold clusterDataPerPeriod.
  destruct (Nat.ltb_spec (length samples) count) as [_|?]; [|lia].
  eexists. split; [reflexivity|]. split.
  - induction samples as [|s rest IH]; simpl; constructor.
    + split; [repeat split|reflexivity].
    + apply IH. simpl in Hlt. lia.
  - intros ->. destruct (nth_error (currentClusterLabels count) 0) as [l|] eqn:Hl.
    + exists l. reflexivity.
    + apply nth_error_None in Hl. rewrite currentClusterLabels_length in Hl. lia.
Qed.

Lemma labelling_sorted_nearest labels centroids samples :
  centroids <> [] ->
  Spec.sortedNearest labels centroids (sortCentroids centroids) samples
    (labelSamples labels (sortCentroids centroids) samples).
Proof.
  intros Hne. unfold Spec.sortedNearest.
  split; [apply sortCentroids_perm|].
  split; [apply sortCentroids_sorted|].
  split.
  - intros c Hin. apply sorted_head_lowest; [apply sortCentroids_sorted|].
    eapply Permutation_in; [apply sortCentroids_perm|exact Hin].
  - apply labelSamples_nearest. intros Hnil.
    pose proof (sortCentroids_length centroids) as Hl.
    rewrite Hnil in Hl. destruct centroids; [contradiction|discriminate].
Qed.

(** C2.  In a run on at least [count] samples, with either algorithm
    ([count] at least 1, and not 1 for the uniform-range algorithm, whose
    only centroid is then [NaN]; the application offers 3 to 8), the
    [count] centroids are sorted by ascending conductivity + nitrate
    before the labels are given, so that index 0, the lowest-severity
    label, is a centroid of lowest sum; and every sample gets the label
    at the index of the sorted centroid nearest to it, in Euclidean
    distance on conductivity and nitrate (the first of them when several
    are as near).

    The sort and the labelling do so on every non-empty array of
    centroids, whatever the lines before them have put there: this is
    the second part, which does not depend on how the centroids were
    computed. *)
Theorem clustering_sorted_nearest (labels : list string)
    (samples : list WaterSample) (count : nat) (algo : Algo) :
  (1 <= count <= length samples)%nat ->
  (algo = Simple -> count <> 1%nat) ->
  (exists centroids out,
     match algo with
     | Simple => simpleCentroids samples count = centroids
     | KMeans => kmeansCentroids samples count = Some centroids
     end /\
     length centroids = count /\
     clusterDataPerPeriod labels samples count algo = Some out /\
     out = labelSamples labels (sortCentroids centroids) samples /\
     Spec.sortedNearest labels centroids (sortCentroids centroids) samples out) /\
  (forall centroids, centroids <> [] ->
     Spec.sortedNearest labels centroids (sortCentroids centroids) samples
       (labelSamples labels (sortCentroids centroids) samples)).
Proof.
  intros Hc Hsimple. split; [|intros centroids; apply labelling_sorted_nearest].
  assert (Hne : forall centroids : list Centroid,
            length centroids = count -> centroids <> []).
  { intros centroids Hlen ->. simpl in Hlen. lia. }
  unfold clusterDataPerPeriod.
  destruct (Nat.ltb_spec (length samples) count) as [?|_]; [lia|].
  destruct algo.
  - destruct (Nat.eqb_spec count 1) as [H1|_]; [exfalso; apply Hsimple; auto|].
    assert (Hlen : length (simpleCentroids samples count) = count).
    { apply simpleCentroids_length.
      destruct samples; [simpl in Hc; lia|discriminate]. }
    exists (simpleCentroids samples count). eexists.
    split; [reflexivity|]. split; [exact Hlen|].
    split; [reflexivity|]. split; [reflexivity|].
    apply labelling_sorted_nearest, Hne, Hlen.
  - destruct (kmeansCentroids_some samples count Hc) as (centroids & Hk & Hlen).
    rewrite Hk. exists centroids. eexists.
    split; [reflexivity|]. split; [exact Hlen|].
    split; [reflexivity|]. split; [reflexivity|].
    apply labelling_sorted_nearest, Hne, Hlen.
Qed.

(** *** Two runs by hand *)

Ltac settle_sqrt :=
  repeat match goal with
         | |- context [Rlt_dec (sqrt ?a) (sqrt ?b)] =>
             let H := fresh "H" in
             destruct (Rlt_dec (sqrt a) (sqrt b)) as [H|H];
             [ try (exfalso;
                    assert (sqrt b <= sqrt a) by (apply sqrt_le_1_alt; lra); lra)
             | try (exfalso; apply H; apply sqrt_lt_1_alt; split; lra) ]
         end.

Ltac settle_le :=
  repeat match goal with
         | |- context [Rle_dec ?a ?b] =>
             destruct (Rle_dec a b); [try (exfalso; lra)|try (exfalso; lra)]
         end.

Ltac run_labels :=
  unfold sortCentroids, labelSamples, nearestCentroid;
  repeat (progress (cbv [fold_right insertCentroid magnitude ec no3 map forEachFrom
                         nearestBody fst snd distance conductivity nitrate
                         option_map cluster withCluster ltb];
                    settle_le; settle_sqrt)).

Example simpleCentroids_example :
  simpleCentroids [mkSample "W1" 100 10 "1402-01.xlsx" None None None;
                   mkSample "W2" 900 50 "1402-01.xlsx" None None None;
                   mkSample "W3" 500 30 "1402-01.xlsx" None None None] 3
  = [mkCentroid 0 0; mkCentroid 450 25; mkCentroid 900 50].
Proof.
  unfold simpleCentroids.
  cbn [map mathMax conductivity nitrate fold_left seq Nat.sub].
  repeat match goal with
         | |- context [Rmax (IZR ?a) (IZR ?b)] =>
             first [rewrite (Rmax_right (IZR a) (IZR b)) by lra
                   |rewrite (Rmax_left (IZR a) (IZR b)) by lra]
         end.
  replace (INR 0) with 0 by (simpl; lra).
  replace (INR 1) with 1 by (simpl; lra).
  replace (INR 2) with 2 by (simpl; lra).
  repeat f_equal; lra.
Qed.

Example simple_run_example :
  option_map (map cluster)
    (clusterDataPerPeriod (currentClusterLabels 3)
       [mkSample "W1" 100 10 "1402-01.xlsx" None None None;
        mkSample "W2" 900 50 "1402-01.xlsx" None None None;
        mkSample "W3" 500 30 "1402-01.xlsx" None None None] 3 Simple)
  = Some [Some "دسته 1"; Some "دسته 3"; Some "دسته 2"]%string.
Proof.
  unfold clusterDataPerPeriod. cbn [length Nat.ltb Nat.leb Nat.eqb].
  rewrite simpleCentroids_example. run_labels. reflexivity.
Qed.

Example kmeans_run_example :
  option_map (map cluster)
    (clusterDataPerPeriod (currentClusterLabels 3)
       [mkSample "W1" 100 10 "1402-01.xlsx" None None None;
        mkSample "W2" 900 50 "1402-01.xlsx" None None None;
        mkSample "W3" 500 30 "1402-01.xlsx" None None None] 3 KMeans)
  = Some [Some "دسته 1"; Some "دسته 3"; Some "دسته 2"]%string.
Proof.
  unfold clusterDataPerPeriod. cbn [length Nat.ltb Nat.leb Nat.eqb].
  unfold kmeansCentroids, forLoop.
  cbn [seq Nat.sub fold_left firstn map conductivity nitrate].
  unfold kmeansStep.
  repeat (progress (cbv [assignGroups nearestCentroid forEachFrom nearestBody fst snd
                         distance conductivity nitrate ec no3 ltb pushAt option_map
                         repeat recompute newCentroid length Nat.eqb fold_left app INR];
                    settle_sqrt)).
  run_labels. reflexivity.
Qed.

(** The uniform-range centroids are [(i / (count - 1)) * max], which the
    program holds as doubles.  With four clusters and the maxima 400 and
    20, the sample (200, 10) is as near to the exact centroid of index 1
    as to that of index 2, and the search keeps the first; of the doubles
    nearest to them, 133.33333333333331 and 266.66666666666663 for the
    conductivity, the one of index 2 is the nearer, and the search finds
    it.  The labelling is the same search on either array. *)
Example exact_centroids_example :
  map cluster
    (labelSamples (currentClusterLabels 4)
       (sortCentroids [mkCentroid 0 0; mkCentroid (400 / 3) (20 / 3);
                       mkCentroid (800 / 3) (40 / 3); mkCentroid 400 20])
       [mkSample "W1" 400 20 "1402-01.xlsx" None None None;
        mkSample "W2" 0 0 "1402-01.xlsx" None None None;
        mkSample "W3" 200 10 "1402-01.xlsx" None None None;
        mkSample "W4" 130 6 "1402-01.xlsx" None None None])
  = [Some "دسته 4"; Some "دسته 1"; Some "دسته 2"; Some "دسته 2"]%string.
Proof. run_labels. reflexivity. Qed.

Example rounded_centroids_example :
  map cluster
    (labelSamples (currentClusterLabels 4)
       (sortCentroids
          [mkCentroid 0 0;
           mkCentroid (2345624805922133 / 17592186044416)
                      (3752999689475413 / 562949953421312);
           mkCentroid (2345624805922133 / 8796093022208)
                      (3752999689475413 / 281474976710656);
           mkCentroid 400 20])
       [mkSample "W1" 400 20 "1402-01.xlsx" None None None;
        mkSample "W2" 0 0 "1402-01.xlsx" None None None;
        mkSample "W3" 200 10 "1402-01.xlsx" None None None;
        mkSample "W4" 130 6 "1402-01.xlsx" None None None])
  = [Some "دسته 4"; Some "دسته 1"; Some "دسته 3"; Some "دسته 2"]%string.
Proof. run_labels. reflexivity. Qed.

Lemma too_few_samples_lowest_label_witness :
  let s := mkSample "W1" 850 12 "1402-01.xlsx" None None None in
  exists out,
    clusterDataPerPeriod (currentClusterLabels 3) [s] 3 KMeans = Some out /\
    map cluster out = [Some "دسته 1"%string] /\
    map conductivity out = [850] /\ map nitrate out = [12].
Proof.
  intros s.
  destruct (too_few_samples_lowest_label (currentClusterLabels 3) [s] 3 KMeans)
    as (out & Hout & Hall & _); [simpl; lia|].
  exists out. split; [exact Hout|].
  inversion Hall as [|s0 o ss os (Hsame & Hlabel) Hrest]; subst.
  inversion Hrest; subst. destruct Hsame as (_ & Hec & Hno3 & _).
  simpl. rewrite Hlabel, Hec, Hno3. repeat split.
Defined.

Lemma clustering_sorted_nearest_witness :
  let samples := [mkSample "W1" 100 10 "1402-01.xlsx" None None None;
                  mkSample "W2" 900 50 "1402-01.xlsx" None None None;
                  mkSample "W3" 500 30 "1402-01.xlsx" None None None] in
  let tied := [mkSample "W1" 400 20 "1402-01.xlsx" None None None;
               mkSample "W2" 0 0 "1402-01.xlsx" None None None;
               mkSample "W3" 200 10 "1402-01.xlsx" None None None;
               mkSample "W4" 130 6 "1402-01.xlsx" None None None] in
  let rounded := [mkCentroid 0 0;
                  mkCentroid (2345624805922133 / 17592186044416)
                             (3752999689475413 / 562949953421312);
                  mkCentroid (2345624805922133 / 8796093022208)
                             (3752999689475413 / 281474976710656);
                  mkCentroid 400 20] in
  (exists centroids out,
     kmeansCentroids samples 3 = Some centroids /\
     clusterDataPerPeriod (currentClusterLabels 3) samples 3 KMeans = Some out /\
     map cluster out = [Some "دسته 1"; Some "دسته 3"; Some "دسته 2"]%string /\
     Spec.sortedNearest (currentClusterLabels 3) centroids (sortCentroids centroids)
       samples out) /\
  map cluster (labelSamples (currentClusterLabels 4) (sortCentroids rounded) tied)
  = [Some "دسته 4"; Some "دسته 1"; Some "دسته 3"; Some "دسته 2"]%string /\
  Spec.sortedNearest (currentClusterLabels 4) rounded (sortCentroids rounded) tied
    (labelSamples (currentClusterLabels 4) (sortCentroids rounded) tied).
Proof.
  intros samples tied rounded. split; [|split].
  - destruct (clustering_sorted_nearest (currentClusterLabels 3) samples 3 KMeans)
      as ((centroids & out & Hk & _ & Hout & _ & Hall) & _).
    + simpl. lia.
    + discriminate.
    + exists centroids, out. split; [exact Hk|]. split; [exact Hout|].
      split; [|exact Hall].
      pose proof kmeans_run_example as Hrun. fold samples in Hrun.
      rewrite Hout in Hrun. injection Hrun as Hrun. exact Hrun.
  - apply rounded_centroids_example.
  - apply (clustering_sorted_nearest (currentClusterLabels 4) tied 4 Simple).
    + simpl. lia.
    + discriminate.
    + discriminate.
Defined.

(** *** The labels depend on the measured values only *)

Lemma bare_measures samples1 samples2 :
  map Spec.measures samples1 = map Spec.measures samples2 ->
  map Spec.bare samples1 = map Spec.bare samples2.
Proof.
  intros H.
  assert (Hb : forall l, map Spec.bare l
                         = map (fun m => mkSample EmptyString (fst m) (snd m)
                                           EmptyString None None None)
                               (map Spec.measures l)).
  { intros l. rewrite map_map. reflexivity. }
  rewrite !Hb, H. reflexivity.
Qed.

Lemma pushAt_bare groups : forall idx s,
  pushAt (map (map Spec.bare) groups) idx (Spec.bare s)
  = option_map (map (map Spec.bare)) (pushAt groups idx s).
Proof.
  induction groups as [|g gs IH]; intros idx s; simpl; [reflexivity|].
  destruct idx as [|idx]; simpl.
  - rewrite map_app. reflexivity.
  - rewrite IH. destruct (pushAt gs idx s); reflexivity.
Qed.

Lemma assignGroups_bare centroids samples : forall groups,
  assignGroups centroids (map Spec.bare samples) (map (map Spec.bare) groups)
  = option_map (map (map Spec.bare)) (assignGroups centroids samples groups).
Proof.
  induction samples as [|s rest IH]; intros groups; simpl; [reflexivity|].
  rewrite nearestCentroid_bare, pushAt_bare.
  destruct (pushAt groups (nearestCentroid centroids s) s) as [groups'|]; simpl;
    [apply IH|reflexivity].
Qed.

Lemma fold_plus_bare (f : WaterSample -> R) group :
  (forall s, f (Spec.bare s) = f s) ->
  forall a, fold_left (fun acc b => acc + f b) (map Spec.bare group) a
            = fold_left (fun acc b => acc + f b) group a.
Proof.
  intros Hf. induction group as [|s rest IH]; intros a; simpl; [reflexivity|].
  rewrite Hf. apply IH.
Qed.

Lemma newCentroid_bare centroids group idx :
  newCentroid centroids (map Spec.bare group) idx = newCentroid centroids group idx.
Proof.
  unfold newCentroid. rewrite length_map.
  rewrite (fold_plus_bare conductivity), (fold_plus_bare nitrate);
    reflexivity.
Qed.

Lemma recompute_bare centroids groups : forall idx,
  recompute centroids (map (map Spec.bare) groups) idx
  = recompute centroids groups idx.
Proof.
  induction groups as [|g gs IH]; intros idx; simpl; [reflexivity|].
  rewrite newCentroid_bare, IH. reflexivity.
Qed.

Lemma kmeansStep_bare samples count centroids :
  kmeansStep (map Spec.bare samples) count centroids
  = kmeansStep samples count centroids.
Proof.
  unfold kmeansStep.
  replace (repeat (@nil WaterSample) count)
    with (map (map Spec.bare) (repeat [] count)) at 1
    by (rewrite map_repeat; reflexivity).
  rewrite assignGroups_bare.
  destruct (assignGroups centroids samples (repeat [] count)); simpl;
    [apply recompute_bare|reflexivity].
Qed.

Lemma kmeansCentroids_bare samples count :
  kmeansCentroids (map Spec.bare samples) count = kmeansCentroids samples count.
Proof.
  unfold kmeansCentroids. rewrite firstn_map, map_map. cbn [Spec.bare conductivity nitrate].
  apply forLoop_ext. intros i [cs|] _; [apply kmeansStep_bare|reflexivity].
Qed.

Lemma simpleCentroids_bare samples count :
  simpleCentroids (map Spec.bare samples) count = simpleCentroids samples count.
Proof. unfold simpleCentroids. rewrite !map_map. reflexivity. Qed.

Lemma labels_of_labelSamples labels centroids samples :
  map cluster (labelSamples labels centroids samples)
  = map (fun s => nth_error labels (nearestCentroid centroids s)) samples.
Proof. unfold labelSamples. rewrite map_map. reflexivity. Qed.

Lemma labels_bare labels samples count algo :
  option_map (map cluster)
    (clusterDataPerPeriod labels (map Spec.bare samples) count algo)
  = option_map (map cluster) (clusterDataPerPeriod labels samples count algo).
Proof.
  unfold clusterDataPerPeriod. rewrite length_map.
  destruct (length samples <? count)%nat.
  - simpl. rewrite !map_map. reflexivity.
  - destruct algo.
    + destruct (count =? 1)%nat; simpl.
      * rewrite !map_map. reflexivity.
      * rewrite simpleCentroids_bare, !labels_of_labelSamples, map_map. reflexivity.
    + rewrite kmeansCentroids_bare.
      destruct (kmeansCentroids samples count); simpl; [|reflexivity].
      rewrite !labels_of_labelSamples, map_map. reflexivity.
Qed.

(** C9.  The k-means centroids are those of ten turns of the assignment
    and recomputation step, begun at the first [count] samples taken by
    index, and nothing else enters the computation: two runs on samples of
    the same measured values, with the same [count], have the same
    centroids and give every sample the same label.  Two runs on identical
    samples are the case where the other fields agree as well. *)
Theorem kmeans_deterministic (labels : list string)
    (samples1 samples2 : list WaterSample) (count : nat) :
  map Spec.measures samples1 = map Spec.measures samples2 ->
  kmeansCentroids samples1 count
  = Nat.iter 10
      (fun st => match st with
                 | Some centroids => kmeansStep samples1 count centroids
                 | None => None
                 end)
      (Some (map (fun s => mkCentroid (conductivity s) (nitrate s))
                 (firstn count samples1))) /\
  kmeansCentroids samples1 count = kmeansCentroids samples2 count /\
  option_map (map cluster) (clusterDataPerPeriod labels samples1 count KMeans)
  = option_map (map cluster) (clusterDataPerPeriod labels samples2 count KMeans) /\
  (samples1 = samples2 ->
   clusterDataPerPeriod labels samples1 count KMeans
   = clusterDataPerPeriod labels samples2 count KMeans).
Proof.
  intros Hm. apply bare_measures in Hm. split; [|split; [|split]].
  - unfold kmeansCentroids. apply forLoop_iter.
  - rewrite <- (kmeansCentroids_bare samples1), <- (kmeansCentroids_bare samples2), Hm.
    reflexivity.
  - rewrite <- (labels_bare labels samples1), <- (labels_bare labels samples2), Hm.
    reflexivity.
  - intros ->. reflexivity.
Qed.

Lemma kmeans_deterministic_witness :
  let run1 := [mkSample "W1" 100 10 "1402-01.xlsx" None None None;
               mkSample "W2" 900 50 "1402-01.xlsx" None None None;
               mkSample "W3" 500 30 "1402-01.xlsx" None None None] in
  let run2 := [mkSample "A" 100 10 "1402-02.xlsx" None (Some "خوب"%string) None;
               mkSample "B" 900 50 "1402-02.xlsx" None None None;
               mkSample "C" 500 30 "1402-02.xlsx" None None None] in
  option_map (map cluster) (clusterDataPerPeriod (currentClusterLabels 3) run1 3 KMeans)
  = option_map (map cluster) (clusterDataPerPeriod (currentClusterLabels 3) run2 3 KMeans).
Proof.
  intros run1 run2.
  apply (kmeans_deterministic (currentClusterLabels 3) run1 run2 3). reflexivity.
Defined.

End ClusterProofs.

(** ** The volatility ranking *)

Module VolatilityProofs.

Import JS App LoopFacts.

(** *** The score of one station *)

Lemma scoreBody_pair divEC divNO3 history i st :
  scoreBody divEC divNO3 history i st
  = (fst st + Spec.normStep divEC divNO3 (entryAt history (i - 1), entryAt history i),
     (snd st + if Spec.labelChanged (entryAt history (i - 1), entryAt history i)
               then 1 else 0)%nat).
Proof.
  unfold scoreBody, Spec.normStep, Spec.labelChanged. cbn [fst snd].
  f_equal.
  - f_equal. f_equal. f_equal.
    + unfold Rsqr, Rdiv.
      replace (Rabs (h_ec (entryAt history i) - h_ec (entryAt history (i - 1))) * / divEC
               * (Rabs (h_ec (entryAt history i) - h_ec (entryAt history (i - 1))) * / divEC))
        with (Rsqr (Rabs (h_ec (entryAt history i) - h_ec (entryAt history (i - 1))))
              * (/ divEC * / divEC)) by (unfold Rsqr; ring).
      rewrite <- Rsqr_abs. unfold Rsqr. ring.
    + unfold Rsqr, Rdiv.
      replace (Rabs (h_no3 (entryAt history i) - h_no3 (entryAt history (i - 1))) * / divNO3
               * (Rabs (h_no3 (entryAt history i) - h_no3 (entryAt history (i - 1))) * / divNO3))
        with (Rsqr (Rabs (h_no3 (entryAt history i) - h_no3 (entryAt history (i - 1))))
              * (/ divNO3 * / divNO3)) by (unfold Rsqr; ring).
      rewrite <- Rsqr_abs. unfold Rsqr. ring.
  - rewrite (String.eqb_sym (h_cluster (entryAt history i))).
    destruct (String.eqb _ _); simpl; lia.
Qed.

Lemma pairs_cons a b rest :
  Spec.pairs (a :: b :: rest) = (a, b) :: Spec.pairs (b :: rest).
Proof. reflexivity. Qed.

Lemma score_loop_pairs divEC divNO3 history : forall st,
  forLoop 1 (length history) (scoreBody divEC divNO3 history) st
  = (fst st + Spec.total (map (Spec.normStep divEC divNO3) (Spec.pairs history)),
     (snd st + length (filter Spec.labelChanged (Spec.pairs history)))%nat).
Proof.
  induction history as [|a rest IH]; intros [t j].
  - rewrite forLoop_empty by (simpl; lia). cbn. f_equal; [lra|lia].
  - destruct rest as [|b rest'].
    + rewrite forLoop_empty by (simpl; lia). cbn. f_equal; [lra|lia].
    + change (length (a :: b :: rest')) with (S (S (length rest'))).
      rewrite forLoop_first by lia. rewrite forLoop_shift.
      rewrite (forLoop_ext _ _ _ (scoreBody divEC divNO3 (b :: rest'))).
      * change (length (b :: rest')) with (S (length rest')) in IH.
        rewrite IH. rewrite scoreBody_pair.
        rewrite (pairs_cons a b rest').
        generalize (Spec.pairs (b :: rest')). intros ps.
        cbn [fst snd map filter Spec.total fold_right Nat.sub entryAt nth].
        fold (Spec.total (map (Spec.normStep divEC divNO3) ps)).
        destruct (Spec.labelChanged (a, b)); cbn [length]; f_equal; try lra; lia.
      * intros i acc Hi. rewrite !scoreBody_pair.
        replace (S i - 1)%nat with (S (i - 1)) by lia. reflexivity.
Qed.

Lemma pairs_length history : length (Spec.pairs history) = (length history - 1)%nat.
Proof.
  unfold Spec.pairs. rewrite length_combine.
  destruct history as [|a rest]; cbn [length tl]; lia.
Qed.

Lemma rankStation_score divEC divNO3 p :
  score (rankStation divEC divNO3 p)
  = Spec.volatilityScore divEC divNO3 (snd p) /\
  jumps (rankStation divEC divNO3 p)
  = length (filter Spec.labelChanged (Spec.pairs (snd p))) /\
  r_id (rankStation divEC divNO3 p) = fst p.
Proof.
  unfold rankStation, Spec.volatilityScore. cbn [score jumps r_id].
  rewrite score_loop_pairs. cbn [fst snd].
  split; [|split; reflexivity].
  pose proof (pairs_length (snd p)) as Hlen.
  rewrite Rplus_0_l, Nat.add_0_l.
  destruct (Nat.ltb_spec 1 (length (snd p))) as [Hlt|Hle].
  - destruct (Spec.pairs (snd p)) as [|q qs] eqn:Hp; [simpl in Hlen; lia|].
    rewrite Hlen. lra.
  - destruct (Spec.pairs (snd p)) as [|q qs] eqn:Hp; [simpl; lra|].
    simpl in Hlen. lia.
Qed.

Lemma total_nonneg xs : Forall (fun x => 0 <= x) xs -> 0 <= Spec.total xs.
Proof. induction 1; simpl; lra. Qed.

Lemma volatilityScore_nonneg divEC divNO3 history :
  0 <= Spec.volatilityScore divEC divNO3 history.
Proof.
  unfold Spec.volatilityScore.
  assert (Hj : 0 <= 2 / 10 * INR (length (filter Spec.labelChanged (Spec.pairs history)))).
  { pose proof (pos_INR (length (filter Spec.labelChanged (Spec.pairs history)))). nra. }
  assert (Ht : 0 <= Spec.total (map (Spec.normStep divEC divNO3) (Spec.pairs history))).
  { apply total_nonneg, Forall_forall. intros x Hx. apply in_map_iff in Hx.
    destruct Hx as (q & <- & _). apply sqrt_pos. }
  destruct (Spec.pairs history) as [|q qs] eqn:Hp; [lra|].
  assert (Hn : 0 < INR (length (q :: qs))) by (apply lt_0_INR; simpl; lia).
  assert (0 <= Spec.total (map (Spec.normStep divEC divNO3) (q :: qs))
               / INR (length (q :: qs))).
  { apply Rmult_le_pos; [exact Ht|]. left. apply Rinv_0_lt_compat, Hn. }
  lra.
Qed.

Lemma total_zero xs : Forall (fun x => x = 0) xs -> Spec.total xs = 0.
Proof. induction 1; simpl; lra. Qed.

Lemma filter_none {A : Type} (f : A -> bool) (l : list A) :
  (forall x, In x l -> f x = false) -> filter f l = [].
Proof.
  induction l as [|x l IH]; intros H; simpl; [reflexivity|].
  rewrite (H x (or_introl eq_refl)). apply IH. intros y Hy. apply H. right. exact Hy.
Qed.

Lemma in_pairs history a b :
  In (a, b) (Spec.pairs history) -> In a history /\ In b history.
Proof.
  unfold Spec.pairs. intros H. split.
  - eapply in_combine_l, H.
  - apply in_combine_r in H. destruct history; [contradiction|right; exact H].
Qed.

Lemma volatilityScore_still divEC divNO3 history :
  (forall a b, In a history -> In b history -> a = b) ->
  Spec.volatilityScore divEC divNO3 history = 0.
Proof.
  intros Hsame. unfold Spec.volatilityScore.
  assert (Hsteps : forall q, In q (Spec.pairs history) ->
                             Spec.normStep divEC divNO3 q = 0
                             /\ Spec.labelChanged q = false).
  { intros [a b] Hq. apply in_pairs in Hq. destruct Hq as [Ha Hb].
    rewrite (Hsame a b Ha Hb). unfold Spec.normStep, Spec.labelChanged. cbn [fst snd].
    rewrite String.eqb_refl. split; [|reflexivity].
    unfold Rminus, Rdiv. rewrite !Rplus_opp_r, !Rmult_0_l, Rsqr_0, Rplus_0_l.
    apply sqrt_0. }
  assert (Ht : Spec.total (map (Spec.normStep divEC divNO3) (Spec.pairs history)) = 0).
  { apply total_zero, Forall_forall. intros x Hx. apply in_map_iff in Hx.
    destruct Hx as (q & <- & Hq). apply Hsteps, Hq. }
  assert (Hf : filter Spec.labelChanged (Spec.pairs history) = []).
  { apply filter_none. intros q Hq. apply Hsteps, Hq. }
  rewrite Hf. destruct (Spec.pairs history) as [|q qs]; [simpl; lra|].
  rewrite Ht. simpl (INR (length [])). unfold Rdiv. lra.
Qed.

(** *** The histories *)

Lemma pushOwn_keys ph key h k :
  In k (map fst (pushOwn ph key h)) <-> k = key \/ In k (map fst ph).
Proof.
  induction ph as [|[k0 hs0] rest IH]; simpl.
  - intuition.
  - destruct (String.eqb_spec k0 key) as [->|Hne]; simpl.
    + intuition.
    + rewrite IH. intuition.
Qed.

Lemma pushOwn_NoDup ph key h :
  NoDup (map fst ph) -> NoDup (map fst (pushOwn ph key h)).
Proof.
  induction ph as [|[k0 hs0] rest IH]; simpl; intros Hnd.
  - constructor; [intros []|constructor].
  - inversion Hnd as [|? ? Hnotin Hrest]; subst.
    destruct (String.eqb_spec k0 key) as [->|Hne]; simpl.
    + constructor; assumption.
    + constructor; [|apply IH, Hrest].
      rewrite pushOwn_keys. intros [->|Hin]; [apply Hne; reflexivity|contradiction].
Qed.

Lemma pushOwn_in ph key h k hs :
  NoDup (map fst ph) -> In (k, hs) (pushOwn ph key h) ->
  (k <> key /\ In (k, hs) ph)
  \/ (k = key /\ exists hs0, In (key, hs0) ph /\ hs = hs0 ++ [h])
  \/ (k = key /\ ~ In key (map fst ph) /\ hs = [h]).
Proof.
  induction ph as [|[k0 hs0] rest IH]; simpl; intros Hnd Hin.
  - destruct Hin as [Hin|[]]. injection Hin as <- <-.
    right. right. repeat split. intros [].
  - inversion Hnd as [|? ? Hnotin Hrest]; subst.
    destruct (String.eqb_spec k0 key) as [->|Hne]; simpl in Hin.
    + destruct Hin as [Hin|Hin].
      * injection Hin as <- <-. right. left. split; [reflexivity|].
        exists hs0. split; [left; reflexivity|reflexivity].
      * left. split; [|right; exact Hin].
        intros ->. apply Hnotin. apply (in_map fst) in Hin. exact Hin.
    + destruct Hin as [Hin|Hin].
      * injection Hin as <- <-. left. split; [exact Hne|left; reflexivity].
      * destruct (IH Hrest Hin) as [(Hk & Hold)|[(Hk & hs1 & Hold & Hhs)|(Hk & Hnew & Hhs)]].
        -- left. split; [exact Hk|right; exact Hold].
        -- right. left. split; [exact Hk|]. exists hs1. split; [right; exact Hold|exact Hhs].
        -- right. right. split; [exact Hk|]. split; [|exact Hhs].
           intros [Heq|Hin']; [apply Hne; exact Heq|apply Hnew; exact Hin'].
Qed.

Lemma historyOf_snoc k sofar s :
  Spec.historyOf k (sofar ++ [s])
  = Spec.historyOf k sofar ++ (if String.eqb (id s) k then [entryOf s] else []).
Proof.
  unfold Spec.historyOf. rewrite filter_app, map_app. simpl.
  destruct (String.eqb (id s) k); reflexivity.
Qed.

Lemma collectSample_keeps sofar s st :
  Spec.collectedOf sofar st -> Spec.collectedOf (sofar ++ [s]) (collectSample s st).
Proof.
  destruct st as [[[ph allEC] allNO3]|]; [|exact (fun _ => I)].
  unfold collectSample. intros ((Hnd & Hhist & Hkeys) & -> & ->).
  destruct (existsb (String.eqb (id s)) objectPrototypeKeys); [exact I|].
  unfold Spec.collectedOf.
  split; [|split; rewrite map_app; reflexivity].
  split; [apply pushOwn_NoDup, Hnd|]. split.
  - intros k hs Hin. rewrite historyOf_snoc.
    destruct (pushOwn_in _ _ _ _ _ Hnd Hin)
      as [(Hk & Hold)|[(-> & hs0 & Hold & ->)|(-> & Hnew & ->)]].
    + rewrite (Hhist k hs Hold).
      destruct (String.eqb_spec (id s) k) as [Heq|_]; [congruence|].
      rewrite app_nil_r. reflexivity.
    + rewrite String.eqb_refl, (Hhist _ _ Hold). reflexivity.
    + rewrite String.eqb_refl.
      replace (Spec.historyOf (id s) sofar) with (@nil HistoryEntry); [reflexivity|].
      unfold Spec.historyOf. rewrite filter_none; [reflexivity|].
      intros s' Hs'. destruct (String.eqb_spec (id s') (id s)) as [Heq|_]; [|reflexivity].
      exfalso. apply Hnew. rewrite <- Heq. apply Hkeys, Hs'.
  - intros s' Hs'. rewrite pushOwn_keys. apply in_app_or in Hs'.
    destruct Hs' as [Hs'|[->|[]]]; [right; apply Hkeys, Hs'|left; reflexivity].
Qed.

Lemma collect_period_keeps ss : forall sofar st,
  Spec.collectedOf sofar st ->
  Spec.collectedOf (sofar ++ ss) (fold_left (fun st' s => collectSample s st') ss st).
Proof.
  induction ss as [|s ss IH]; intros sofar st Hst; simpl.
  - rewrite app_nil_r. exact Hst.
  - replace (sofar ++ s :: ss) with ((sofar ++ [s]) ++ ss)
      by (rewrite <- app_assoc; reflexivity).
    apply IH, collectSample_keeps, Hst.
Qed.

Lemma collect_keeps tps : forall sofar st,
  Spec.collectedOf sofar st ->
  Spec.collectedOf (sofar ++ Spec.allSamples tps)
    (fold_left (fun st' tp => fold_left (fun st'' s => collectSample s st'')
                                (samples tp) st') tps st).
Proof.
  induction tps as [|tp tps IH]; intros sofar st Hst; simpl.
  - rewrite app_nil_r. exact Hst.
  - rewrite app_assoc. apply IH, collect_period_keeps, Hst.
Qed.

Lemma collect_spec tps : Spec.collectedOf (Spec.allSamples tps) (collect tps).
Proof.
  unfold collect. apply (collect_keeps tps [] (Some ([], [], []))).
  simpl. split; [|split; reflexivity].
  split; [constructor|]. split; [intros k hs []|intros s []].
Qed.

(** The ranking is computed whenever no station is named after a
    property of [Object.prototype]. *)
Lemma collectSample_runs s c :
  existsb (String.eqb (id s)) objectPrototypeKeys = false ->
  exists c', collectSample s (Some c) = Some c'.
Proof.
  intros Hs. destruct c as [[ph allEC] allNO3]. unfold collectSample.
  rewrite Hs. eexists. reflexivity.
Qed.

Lemma collect_period_runs ss : forall c,
  Forall (fun s => existsb (String.eqb (id s)) objectPrototypeKeys = false) ss ->
  exists c', fold_left (fun st' s => collectSample s st') ss (Some c) = Some c'.
Proof.
  induction ss as [|s ss IH]; intros c Hall; cbn [fold_left].
  - exists c. reflexivity.
  - inversion Hall as [|? ? Hs Hrest]; subst.
    destruct (collectSample_runs s c Hs) as (c' & ->). apply IH, Hrest.
Qed.

Lemma collect_runs tps : forall c : Collected,
  Forall (fun s => existsb (String.eqb (id s)) objectPrototypeKeys = false)
         (Spec.allSamples tps) ->
  exists c', fold_left (fun st tp => fold_left (fun st' s => collectSample s st')
                                       (samples tp) st) tps (Some c)
             = Some c'.
Proof.
  induction tps as [|tp tps IH]; intros c Hall; cbn [fold_left].
  - exists c. reflexivity.
  - unfold Spec.allSamples in Hall. cbn [flat_map] in Hall.
    apply Forall_app in Hall. destruct Hall as [Htp Htps].
    destruct (collect_period_runs (samples tp) c Htp) as (c' & ->).
    apply IH, Htps.
Qed.

Lemma volatilityRanking_runs processed :
  Forall (fun s => existsb (String.eqb (id s)) objectPrototypeKeys = false)
         (Spec.allSamples processed) ->
  exists rankings, volatilityRanking processed = Some rankings.
Proof.
  intros Hall. unfold volatilityRanking.
  destruct (length processed <? 2)%nat; [eexists; reflexivity|].
  assert (Hrun : exists c, collect processed = Some c)
    by (apply (collect_runs processed ([], [], []) Hall)).
  destruct Hrun as ([[ph allEC] allNO3] & ->). eexists. reflexivity.
Qed.

(** *** The order of the ranking keeps its entries *)

Lemma insertIndexed_in {A : Type} (x y : N * A) sorted :
  In y (insertIndexed x sorted) <-> y = x \/ In y sorted.
Proof.
  induction sorted as [|z rest IH]; simpl.
  - intuition.
  - destruct (fst x <=? fst z)%N; simpl; [intuition|]. rewrite IH. intuition.
Qed.

Lemma sortIndexed_in {A : Type} (y : N * A) l :
  In y (fold_right insertIndexed [] l) <-> In y l.
Proof.
  induction l as [|x l IH]; simpl; [reflexivity|].
  rewrite insertIndexed_in, IH. intuition.
Qed.

Lemma objectEntries_in ph p : In p (objectEntries ph) <-> In p ph.
Proof.
  unfold objectEntries. rewrite in_app_iff, in_map_iff, filter_In. split.
  - intros [((v & q) & <- & Hin)|(Hin & _)]; [|exact Hin].
    apply sortIndexed_in, in_flat_map in Hin. destruct Hin as (q' & Hq' & Hin).
    destruct (arrayIndex (fst q')); [|contradiction].
    destruct Hin as [Heq|[]]. injection Heq as _ <-. exact Hq'.
  - intros Hin. destruct (arrayIndex (fst p)) as [v|] eqn:Hv.
    + left. exists (v, p). split; [reflexivity|].
      apply sortIndexed_in, in_flat_map. exists p. split; [exact Hin|].
      rewrite Hv. left. reflexivity.
    + right. split; [exact Hin|reflexivity].
Qed.

Lemma insertRanking_in r r' sorted :
  In r' (insertRanking r sorted) <-> r' = r \/ In r' sorted.
Proof.
  induction sorted as [|z rest IH]; simpl.
  - intuition.
  - destruct (Rle_dec (score z) (score r)); simpl; [intuition|]. rewrite IH. intuition.
Qed.

Lemma sortRankings_in r l : In r (sortRankings l) <-> In r l.
Proof.
  induction l as [|x l IH]; simpl; [reflexivity|].
  rewrite insertRanking_in, IH. intuition.
Qed.

(** C10.  The score of every station of the ranking is the average
    normalized Euclidean step between its consecutive periods plus 0.2
    for every change of cluster label from one period to the next; it is
    never negative, and it is 0 for a station whose conductivity, nitrate
    and label are the same in all its periods.  Every station that has a
    sample is in the ranking. *)
Theorem volatility_score_nonneg (processed : list TimePoint)
    (rankings : list Ranking) :
  volatilityRanking processed = Some rankings ->
  let all := Spec.allSamples processed in
  let divEC := meanOrOne (map conductivity all) in
  let divNO3 := meanOrOne (map nitrate all) in
  (forall r, In r rankings ->
     let history := Spec.historyOf (r_id r) all in
     score r = Spec.volatilityScore divEC divNO3 history /\
     0 <= score r /\
     ((forall a b, In a history -> In b history -> a = b) -> score r = 0)) /\
  ((2 <= length processed)%nat ->
   forall s, In s all -> exists r, In r rankings /\ r_id r = id s).
Proof.
  unfold volatilityRanking. intros Hrun. cbv zeta.
  destruct (Nat.ltb_spec (length processed) 2) as [Hshort|Hlong].
  - injection Hrun as <-. split; [intros r []|lia].
  - pose proof (collect_spec processed) as Hcol.
    destruct (collect processed) as [[[ph allEC] allNO3]|]; [|discriminate].
    injection Hrun as <-. destruct Hcol as ((Hnd & Hhist & Hkeys) & -> & ->).
    split.
    + intros r Hr. apply (proj1 (sortRankings_in _ _)) in Hr.
      apply in_map_iff in Hr.
      destruct Hr as ([k hs] & <- & Hp). apply (proj1 (objectEntries_in _ _)) in Hp.
      destruct (rankStation_score
                  (meanOrOne (map conductivity (Spec.allSamples processed)))
                  (meanOrOne (map nitrate (Spec.allSamples processed))) (k, hs))
        as (Hscore & _ & Hid).
      rewrite Hid, Hscore. cbn [fst snd]. rewrite <- (Hhist k hs Hp).
      split; [reflexivity|]. split; [apply volatilityScore_nonneg|].
      apply volatilityScore_still.
    + intros _ s Hs. specialize (Hkeys s Hs). apply in_map_iff in Hkeys.
      destruct Hkeys as ([k hs] & Hk & Hp). simpl in Hk. subst k.
      exists (rankStation (meanOrOne (map conductivity (Spec.allSamples processed)))
                          (meanOrOne (map nitrate (Spec.allSamples processed)))
                          (id s, hs)).
      split; [|reflexivity].
      apply sortRankings_in, in_map, objectEntries_in, Hp.
Qed.

Ltac run_collect :=
  repeat (progress
            (cbn [length Nat.ltb Nat.leb collect fold_left samples collectSample
                  existsb objectPrototypeKeys id orb pushOwn app entryOf
                  conductivity nitrate clusterOrEmpty cluster];
             repeat match goal with
                    | |- context [String.eqb ?a ?b] =>
                        let e := eval vm_compute in (String.eqb a b) in
                        change (String.eqb a b) with e
                    end)).

Example objectEntries_example :
  map fst (objectEntries [("W7", []); ("10", []); ("2", []); ("007", [])]%string)
  = ["2"; "10"; "W7"; "007"]%string.
Proof. reflexivity. Qed.

Example volatility_example :
  volatilityRanking
    [mkTimePoint "1402-01"
       [mkSample "W7" 100 10 "1402-01.xlsx" None (Some "عالی"%string) None];
     mkTimePoint "1402-02"
       [mkSample "W7" 200 10 "1402-02.xlsx" None (Some "خوب"%string) None]]
  = Some [mkRanking "W7" (13 / 15) 1].
Proof.
  unfold volatilityRanking. run_collect.
  unfold entryOf, clusterOrEmpty. cbn [conductivity nitrate cluster].
  change (objectEntries [("W7"%string,
                          [mkEntry 100 10 "عالی"; mkEntry 200 10 "خوب"])])
    with [("W7"%string, [mkEntry 100 10 "عالی"; mkEntry 200 10 "خوب"])].
  assert (HmEC : meanOrOne [100; 200] = 150).
  { unfold meanOrOne, sumReduce. cbn [length Nat.eqb fold_left].
    replace (INR 2) with 2 by (simpl; lra).
    destruct (Req_dec_T ((0 + 100 + 200) / 2) 0); lra. }
  assert (HmNO3 : meanOrOne [10; 10] = 10).
  { unfold meanOrOne, sumReduce. cbn [length Nat.eqb fold_left].
    replace (INR 2) with 2 by (simpl; lra).
    destruct (Req_dec_T ((0 + 10 + 10) / 2) 0); lra. }
  rewrite HmEC, HmNO3.
  cbv [map sortRankings fold_right insertRanking rankStation forLoop snd fst length
       Nat.sub seq fold_left Nat.ltb Nat.leb scoreBody entryAt nth h_ec h_no3
       h_cluster].
  replace (String.eqb "خوب" "عالی") with false by (vm_compute; reflexivity).
  cbn [negb Nat.add]. f_equal. f_equal. f_equal.
  replace (100 - 200 + 0) with (-100) by lra.
  replace (200 - 100) with 100 by lra. replace (10 - 10) with 0 by lra.
  rewrite Rabs_R0, (Rabs_right 100) by lra.
  replace (100 / 150 * (100 / 150) + 0 / 10 * (0 / 10))
    with (2 / 3 * (2 / 3)) by lra.
  rewrite sqrt_square by lra. simpl INR. lra.
Qed.

Lemma volatility_score_nonneg_witness :
  let processed :=
    [mkTimePoint "1402-01"
       [mkSample "W1" 850 12 "1402-01.xlsx" None (Some "خوب"%string) None;
        mkSample "W2" 400 5 "1402-01.xlsx" None (Some "عالی"%string) None];
     mkTimePoint "1402-02"
       [mkSample "W1" 850 12 "1402-02.xlsx" None (Some "خوب"%string) None;
        mkSample "W2" 900 30 "1402-02.xlsx" None (Some "ضعیف"%string) None]] in
  exists rankings,
    volatilityRanking processed = Some rankings /\
    (forall r, In r rankings -> 0 <= score r) /\
    (forall r, In r rankings -> r_id r = "W1"%string -> score r = 0).
Proof.
  intros processed.
  destruct (volatilityRanking processed) as [rankings|] eqn:Hrun.
  - exists rankings. split; [reflexivity|].
    destruct (volatility_score_nonneg processed rankings Hrun) as [Hall _].
    split.
    + intros r Hr. apply (Hall r Hr).
    + intros r Hr Hid. destruct (Hall r Hr) as (_ & _ & Hzero).
      apply Hzero. rewrite Hid. unfold Spec.historyOf. simpl.
      intros a b [<-|[<-|[]]] [<-|[<-|[]]]; reflexivity.
  - exfalso. revert Hrun. unfold volatilityRanking, processed.
    run_collect. discriminate.
Defined.

End VolatilityProofs.

(** ** More on the statistics service *)

Module StatsExtra.

Import JS StatsService LoopFacts StatsProofs.

(** *** Mann-Kendall *)

Lemma verdict_of_sign data :
  calculateMannKendall data
  = if (0 <? mannKendallS data)%Z then INCREASING
    else if (mannKendallS data <? 0)%Z then DECREASING else STABLE.
Proof.
  unfold calculateMannKendall. rewrite Z.gtb_ltb. reflexivity.
Qed.

Lemma laterSign_swap x y : Spec.laterSign y x = (- Spec.laterSign x y)%Z.
Proof. unfold Spec.laterSign. case_cmp. Qed.

Lemma sumZ_app l1 l2 : Spec.sumZ (l1 ++ l2) = (Spec.sumZ l1 + Spec.sumZ l2)%Z.
Proof. induction l1 as [|z l1 IH]; simpl; [reflexivity|]. rewrite IH. lia. Qed.

Lemma sumZ_rev l : Spec.sumZ (rev l) = Spec.sumZ l.
Proof.
  induction l as [|z l IH]; simpl; [reflexivity|].
  rewrite sumZ_app, IH. simpl. lia.
Qed.

Lemma pairSum_snoc l x :
  Spec.pairSum (l ++ [x])
  = (Spec.pairSum l + Spec.sumZ (map (fun y => Spec.laterSign y x) l))%Z.
Proof.
  induction l as [|y l IH]; simpl; [reflexivity|].
  rewrite IH, map_app, sumZ_app. simpl. lia.
Qed.

Lemma pairSum_rev l : Spec.pairSum (rev l) = (- Spec.pairSum l)%Z.
Proof.
  induction l as [|x l IH]; simpl; [reflexivity|].
  rewrite pairSum_snoc, IH, map_rev, sumZ_rev.
  replace (map (fun y => Spec.laterSign y x) l)
    with (map (fun y => (- Spec.laterSign x y)%Z) l)
    by (apply map_ext; intros y; symmetry; apply laterSign_swap).
  assert (Hneg : forall zs, Spec.sumZ (map Z.opp zs) = (- Spec.sumZ zs)%Z).
  { induction zs as [|z zs IHz]; simpl; [reflexivity|]. rewrite IHz. lia. }
  rewrite <- (map_map (Spec.laterSign x) Z.opp), Hneg. lia.
Qed.

(** X1.  Read backwards, a sequence has the opposite statistic: the
    verdict of the reversed sequence is "increasing" exactly when that of
    the sequence is "decreasing", and the other way round, and "stable"
    stays "stable". *)
Theorem mann_kendall_reversed (data : list R) :
  mannKendallS (rev data) = (- mannKendallS data)%Z /\
  (calculateMannKendall (rev data) = INCREASING
   <-> calculateMannKendall data = DECREASING) /\
  (calculateMannKendall (rev data) = DECREASING
   <-> calculateMannKendall data = INCREASING) /\
  (calculateMannKendall (rev data) = STABLE
   <-> calculateMannKendall data = STABLE).
Proof.
  assert (Hrev : mannKendallS (rev data) = (- mannKendallS data)%Z).
  { rewrite !mannKendallS_pairSum. apply pairSum_rev. }
  split; [exact Hrev|].
  destruct verdicts_distinct as (Hid & His & Hds).
  rewrite !verdict_of_sign, Hrev.
  destruct (Z.ltb_spec 0 (mannKendallS data));
    destruct (Z.ltb_spec (mannKendallS data) 0);
    destruct (Z.ltb_spec 0 (- mannKendallS data));
    destruct (Z.ltb_spec (- mannKendallS data) 0); try lia;
    repeat split; intros; congruence.
Qed.

Lemma sumZ_laterSign_bound x rest :
  (Z.abs (Spec.sumZ (map (Spec.laterSign x) rest)) <= Z.of_nat (length rest))%Z.
Proof.
  induction rest as [|y rest IH]; [simpl; lia|].
  cbn [map Spec.sumZ fold_right length].
  fold (Spec.sumZ (map (Spec.laterSign x) rest)).
  assert (Hs : (-1 <= Spec.laterSign x y <= 1)%Z)
    by (unfold Spec.laterSign; case_cmp).
  lia.
Qed.

(** X2.  The statistic of [n] values lies between [-n(n-1)/2] and
    [n(n-1)/2], the number of pairs. *)
Theorem mann_kendall_bounded (data : list R) :
  (2 * Z.abs (mannKendallS data)
   <= Z.of_nat (length data) * (Z.of_nat (length data) - 1))%Z.
Proof.
  rewrite mannKendallS_pairSum.
  induction data as [|x rest IH]; [simpl; lia|].
  cbn [Spec.pairSum length].
  pose proof (sumZ_laterSign_bound x rest) as Hx.
  rewrite Nat2Z.inj_succ. nia.
Qed.

Lemma laterSign_scaled a b x y :
  0 < a -> Spec.laterSign (a * x + b) (a * y + b) = Spec.laterSign x y.
Proof.
  intros Ha. unfold Spec.laterSign.
  destruct (total_order_T x y) as [[Hlt|Heq]|Hgt];
    destruct (total_order_T (a * x + b) (a * y + b)) as [[Hlt'|Heq']|Hgt'];
    try reflexivity; exfalso; try nra.
Qed.

Lemma pairSum_scaled a b data :
  0 < a ->
  Spec.pairSum (map (fun x => a * x + b) data) = Spec.pairSum data.
Proof.
  intros Ha. induction data as [|x rest IH]; [reflexivity|].
  cbn [map Spec.pairSum]. rewrite IH, map_map. f_equal. f_equal.
  apply map_ext. intros y. apply laterSign_scaled, Ha.
Qed.

(** X3.  The verdict does not depend on the unit of the values: a change
    of scale by a positive factor and a shift leave the statistic and
    the verdict as they are. *)
Theorem mann_kendall_unit_free (a b : R) (data : list R) :
  0 < a ->
  mannKendallS (map (fun x => a * x + b) data) = mannKendallS data /\
  calculateMannKendall (map (fun x => a * x + b) data) = calculateMannKendall data.
Proof.
  intros Ha.
  assert (Hs : mannKendallS (map (fun x => a * x + b) data) = mannKendallS data).
  { rewrite !mannKendallS_pairSum. apply pairSum_scaled, Ha. }
  split; [exact Hs|]. rewrite !verdict_of_sign, Hs. reflexivity.
Qed.

Lemma mann_kendall_unit_free_witness :
  calculateMannKendall (map (fun x => 9 / 5 * x + 32) [3; 1; 2])
  = calculateMannKendall [3; 1; 2].
Proof. apply (mann_kendall_unit_free (9 / 5) 32 [3; 1; 2]). lra. Defined.

(** *** Pettitt *)

Lemma sumZ_const (A : Type) (g : A -> Z) (c : Z) (l : list A) :
  (forall x, In x l -> g x = c) ->
  Spec.sumZ (map g l) = (c * Z.of_nat (length l))%Z.
Proof.
  induction l as [|x l IH]; intros Hc; [simpl; lia|].
  cbn [map Spec.sumZ fold_right length].
  fold (Spec.sumZ (map g l)).
  rewrite (Hc x (or_introl eq_refl)), IH, Nat2Z.inj_succ; [lia|].
  intros y Hy. apply Hc. right. exact Hy.
Qed.

Lemma sumZ_opp (A : Type) (g : A -> Z) (l : list A) :
  Spec.sumZ (map (fun x => (- g x)%Z) l) = (- Spec.sumZ (map g l))%Z.
Proof. induction l as [|x l IH]; simpl; [reflexivity|]. rewrite IH. lia. Qed.

Lemma U_of_constant_sign data t c :
  (t <= length data)%nat ->
  (forall x y, In x (firstn t data) -> In y (skipn t data) -> Spec.sign (x - y) = c) ->
  Spec.U data t = (c * Z.of_nat (length data - t) * Z.of_nat t)%Z.
Proof.
  intros Ht Hc. unfold Spec.U.
  rewrite (sumZ_const _ _ (c * Z.of_nat (length data - t))%Z).
  - rewrite length_firstn, Nat.min_l by exact Ht. reflexivity.
  - intros x Hx. rewrite (sumZ_const _ _ c).
    + rewrite length_skipn. reflexivity.
    + intros y Hy. apply Hc; assumption.
Qed.

Lemma sorted_across (lt : R -> R -> Prop) l1 l2 :
  StronglySorted lt (l1 ++ l2) ->
  forall x y, In x l1 -> In y l2 -> lt x y.
Proof.
  induction l1 as [|a l1 IH]; intros Hs x y Hx Hy; [contradiction|].
  simpl in Hs. inversion Hs as [|? ? Hrest Hall]; subst.
  destruct Hx as [->|Hx].
  - rewrite Forall_forall in Hall. apply Hall, in_or_app. right. exact Hy.
  - apply IH; assumption.
Qed.

Lemma U_monotone data t :
  StronglySorted Rlt data \/ StronglySorted Rgt data ->
  (t <= length data)%nat ->
  Z.abs (Spec.U data t) = (Z.of_nat t * (Z.of_nat (length data) - Z.of_nat t))%Z.
Proof.
  intros Hs Ht.
  assert (Hsplit : firstn t data ++ skipn t data = data) by apply firstn_skipn.
  destruct Hs as [Hs|Hs]; rewrite <- Hsplit in Hs.
  - rewrite (U_of_constant_sign data t (-1)%Z Ht);
      [rewrite Nat2Z.inj_sub by exact Ht; nia|].
    intros x y Hx Hy. pose proof (sorted_across _ _ _ Hs x y Hx Hy).
    unfold Spec.sign. case_cmp.
  - rewrite (U_of_constant_sign data t 1%Z Ht);
      [rewrite Nat2Z.inj_sub by exact Ht; nia|].
    intros x y Hx Hy. pose proof (sorted_across _ _ _ Hs x y Hx Hy) as Hgt.
    unfold Rgt in Hgt. unfold Spec.sign. case_cmp.
Qed.

(** X4.  On a strictly increasing or strictly decreasing series of at
    least four values, with as many dates, the change point reported is
    the date in the middle, [dates[floor(n / 2)]]: a steady trend is read
    as a break at its midpoint. *)
Theorem pettitt_monotone_middle (data : list R) (dates : list string) :
  StronglySorted Rlt data \/ StronglySorted Rgt data ->
  (4 <= length data)%nat -> length dates = length data ->
  exists d, nth_error dates (length data / 2) = Some d /\
            findPettittChangePoint data dates = Str d.
Proof.
  intros Hs Hn Hdates.
  assert (Habs : forall t, (1 <= t < length data)%nat ->
            Z.abs (pettittU data t)
            = (Z.of_nat t * (Z.of_nat (length data) - Z.of_nat t))%Z).
  { intros t Ht. rewrite pettittU_spec by lia. apply U_monotone; [exact Hs|lia]. }
  pose proof (Nat.div_mod_eq (length data) 2) as Hdiv.
  pose proof (Nat.mod_upper_bound (length data) 2 ltac:(lia)) as Hmod.
  set (m := (length data / 2)%nat) in *.
  destruct (nth_error dates m) as [d|] eqn:Hd.
  2:{ apply nth_error_None in Hd. lia. }
  exists d. split; [reflexivity|].
  unfold findPettittChangePoint, pettittLoop.
  destruct (Nat.ltb_spec (length data) 4) as [?|_]; [lia|].
  pose proof (pettittLoop_invariant data (length data) ltac:(lia)) as Hinv.
  cbv zeta in Hinv.
  destruct Hinv as [(_ & _ & Hall)|(t & Hidx & Ht & Hval & _ & Hmax & Hfirst)].
  - exfalso. pose proof (Habs 1%nat ltac:(lia)) as H1.
    rewrite (Hall 1%nat ltac:(lia)) in H1. simpl Z.abs in H1. lia.
  - rewrite Hidx. rewrite Hval in Hmax, Hfirst.
    assert (Htm : t = m).
    { destruct (Nat.lt_trichotomy t m) as [Hlt|[Heq|Hgt]]; [|exact Heq|].
      - exfalso. specialize (Hmax m ltac:(lia)).
        rewrite (Habs m ltac:(lia)), (Habs t Ht) in Hmax. nia.
      - exfalso. specialize (Hfirst m ltac:(lia)).
        rewrite (Habs m ltac:(lia)), (Habs t Ht) in Hfirst. nia. }
    subst t.
    replace (negb (Z.of_nat m =? -1)%Z) with true
      by (symmetry; apply negb_true_iff, Z.eqb_neq; lia).
    rewrite Nat2Z.id. unfold index. rewrite Hd. reflexivity.
Qed.

Lemma pettitt_monotone_middle_witness :
  findPettittChangePoint [1; 2; 3; 4; 5] ["d0"; "d1"; "d2"; "d3"; "d4"]%string
  = Str "d2"%string.
Proof.
  destruct (pettitt_monotone_middle [1; 2; 3; 4; 5]
              ["d0"; "d1"; "d2"; "d3"; "d4"]%string) as (d & Hd & Hres).
  - left. repeat constructor; lra.
  - simpl. lia.
  - reflexivity.
  - simpl in Hd. injection Hd as <-. exact Hres.
Defined.

Lemma sign_scaled a b x y :
  a <> 0 ->
  Spec.sign (a * x + b - (a * y + b))
  = (if Rlt_dec 0 a then Spec.sign (x - y) else (- Spec.sign (x - y))%Z).
Proof.
  intros Ha. unfold Spec.sign.
  destruct (Rlt_dec 0 a) as [Hpos|Hneg];
    destruct (total_order_T (x - y) 0) as [[Hlt|Heq]|Hgt];
    destruct (total_order_T (a * x + b - (a * y + b)) 0) as [[Hlt'|Heq']|Hgt'];
    try reflexivity; exfalso; nra.
Qed.

Lemma U_scaled a b data t :
  a <> 0 ->
  Z.abs (Spec.U (map (fun x => a * x + b) data) t) = Z.abs (Spec.U data t).
Proof.
  intros Ha. unfold Spec.U. rewrite firstn_map, skipn_map, map_map.
  destruct (Rlt_dec 0 a) as [Hpos|Hneg].
  - f_equal. f_equal. apply map_ext. intros x. rewrite map_map. f_equal.
    apply map_ext. intros y. rewrite sign_scaled by exact Ha.
    destruct (Rlt_dec 0 a); [reflexivity|contradiction].
  - replace (map (fun x => Spec.sumZ (map (fun y => Spec.sign (a * x + b - y))
                                          (map (fun x0 => a * x0 + b) (skipn t data))))
                 (firstn t data))
      with (map (fun x => (- Spec.sumZ (map (fun y => Spec.sign (x - y))
                                            (skipn t data)))%Z)
                (firstn t data)).
    + rewrite sumZ_opp. lia.
    + apply map_ext. intros x. rewrite map_map, <- sumZ_opp. f_equal.
      apply map_ext. intros y. rewrite sign_scaled by exact Ha.
      destruct (Rlt_dec 0 a); [contradiction|reflexivity].
Qed.

(** X5.  The change point does not depend on the unit or on the
    direction of the values: after a change of scale by a non-zero
    factor, negative ones included, and a shift, the answer is the
    same. *)
Theorem pettitt_unit_free (a b : R) (data : list R) (dates : list string) :
  a <> 0 ->
  findPettittChangePoint (map (fun x => a * x + b) data) dates
  = findPettittChangePoint data dates.
Proof.
  intros Ha. unfold findPettittChangePoint, pettittLoop. rewrite length_map.
  rewrite (forLoop_ext 1 (length data) (pettittStep (map (fun x => a * x + b) data))
             (pettittStep data)); [reflexivity|].
  intros t st Ht. unfold pettittStep.
  rewrite (pettittU_spec (map (fun x => a * x + b) data))
    by (rewrite length_map; lia).
  rewrite (pettittU_spec data) by lia.
  rewrite U_scaled by exact Ha. reflexivity.
Qed.

Lemma pettitt_unit_free_witness :
  findPettittChangePoint (map (fun x => -2 * x + 7) [1; 2; 10; 11])
    ["d0"; "d1"; "d2"; "d3"]%string
  = Str "d2"%string.
Proof.
  rewrite (pettitt_unit_free (-2) 7) by lra. apply pettitt_example.
Defined.

(** *** Shewhart control limits *)

Lemma total_all_nonneg xs : (forall x, In x xs -> 0 <= x) -> 0 <= Spec.total xs.
Proof.
  induction xs as [|x xs IH]; intros H; simpl; [lra|].
  pose proof (H x (or_introl eq_refl)).
  assert (0 <= Spec.total xs) by (apply IH; intros y Hy; apply H; right; exact Hy).
  lra.
Qed.

Lemma limits_order (data : list R) :
  0 <= lcl (calculateControlLimits data) /\
  mean (calculateControlLimits data) <= ucl (calculateControlLimits data) /\
  ((forall x, In x data -> 0 <= x) ->
   0 <= mean (calculateControlLimits data) /\
   lcl (calculateControlLimits data) <= mean (calculateControlLimits data)).
Proof.
  unfold calculateControlLimits.
  destruct (Nat.eqb_spec (length data) 0) as [H0|Hn]; cbn [mean ucl lcl].
  - repeat split; lra.
  - set (m := sumReduce data / INR (length data)).
    pose proof (sqrt_pos (sumReduce (map (fun x => (x - m) ^ 2) data)
                          / INR (length data))) as Hsigma.
    split; [apply Rmax_l|]. split; [lra|].
    intros Hpos.
    assert (Hm : 0 <= m).
    { unfold m. rewrite sumReduce_total. apply Rmult_le_pos.
      - apply total_all_nonneg, Hpos.
      - left. apply Rinv_0_lt_compat, lt_0_INR. lia. }
    split; [exact Hm|]. apply Rmax_lub; lra.
Qed.

(** X6.  The lower limit is never negative and the upper limit is never
    below the mean; when no value is negative the mean is not negative
    either and the lower limit is not above it. *)
Theorem control_limits_ordered (data : list R) :
  0 <= lcl (calculateControlLimits data) /\
  mean (calculateControlLimits data) <= ucl (calculateControlLimits data) /\
  ((forall x, In x data -> 0 <= x) ->
   0 <= mean (calculateControlLimits data) /\
   lcl (calculateControlLimits data) <= mean (calculateControlLimits data)).
Proof. apply limits_order. Qed.

Lemma control_limits_ordered_witness :
  0 <= lcl (calculateControlLimits [2; 4; 4; 4; 5; 5; 7; 9]) /\
  lcl (calculateControlLimits [2; 4; 4; 4; 5; 5; 7; 9])
  <= mean (calculateControlLimits [2; 4; 4; 4; 5; 5; 7; 9]).
Proof.
  destruct (control_limits_ordered [2; 4; 4; 4; 5; 5; 7; 9]) as (Hl & _ & H).
  split; [exact Hl|]. apply H. simpl. intros x Hx.
  repeat (destruct Hx as [<-|Hx]; [lra|]). contradiction.
Defined.

(** X7.  For a single value the deviation is 0 and the band has no
    width: the mean and the upper limit are that value, and the lower
    limit is the larger of 0 and that value. *)
Theorem control_limits_single (c : R) :
  calculateControlLimits [c] = mkLimits c c (Rmax 0 c).
Proof.
  unfold calculateControlLimits, sumReduce.
  cbn [length Nat.eqb map fold_left INR].
  replace ((0 + c) / 1) with c by field.
  replace ((0 + (c - c) ^ 2) / 1) with 0 by field.
  rewrite sqrt_0. f_equal; [ring|]. f_equal. ring.
Qed.

(** *** EWMA *)

Lemma smooth_nonneg lambda rest : forall prev,
  0 <= lambda <= 1 -> 0 <= prev ->
  (forall x, In x rest -> 0 <= x) ->
  forall y, In y (Spec.smooth lambda prev rest) -> 0 <= y.
Proof.
  induction rest as [|x rest IH]; intros prev Hl Hp Hr y Hy; [contradiction|].
  pose proof (Hr x (or_introl eq_refl)) as Hx.
  assert (Hnew : 0 <= lambda * x + (1 - lambda) * prev).
  { apply Rplus_le_le_0_compat; apply Rmult_le_pos; lra. }
  simpl in Hy. destruct Hy as [<-|Hy]; [exact Hnew|].
  apply (IH _ Hl Hnew); [|exact Hy]. intros z Hz. apply Hr. right. exact Hz.
Qed.

(** X8.  With a smoothing factor between 0 and 1 the smoothing keeps the
    sign of the data: when no value is negative, no smoothed value is. *)
Theorem ewma_nonneg (data : list R) (lambda : R) :
  0 <= lambda <= 1 ->
  (forall x, In x data -> 0 <= x) ->
  forall y, In y (calculateEWMA data lambda) -> 0 <= y.
Proof.
  intros Hl Hr y. rewrite calculateEWMA_spec.
  destruct data as [|x rest]; [intros []|].
  simpl. intros [<-|Hy]; [apply Hr; left; reflexivity|].
  apply (smooth_nonneg lambda rest x Hl); [apply Hr; left; reflexivity| |exact Hy].
  intros z Hz. apply Hr. right. exact Hz.
Qed.

Lemma ewma_nonneg_witness :
  0 <= 3 / 10 <= 1 /\
  0 <= nth 2 (calculateEWMA [850; 0; 420] (3 / 10)) 0.
Proof.
  split; [lra|].
  apply (ewma_nonneg [850; 0; 420] (3 / 10)); [lra| |].
  - simpl. intros x Hx. repeat (destruct Hx as [<-|Hx]; [lra|]). contradiction.
  - apply nth_In. rewrite calculateEWMA_spec, StatsProofs.ewma_length. simpl. lia.
Defined.

Lemma smooth_app lambda l1 : forall prev l2,
  exists tail, Spec.smooth lambda prev (l1 ++ l2)
               = Spec.smooth lambda prev l1 ++ tail /\
               length tail = length l2.
Proof.
  induction l1 as [|x l1 IH]; intros prev l2; simpl.
  - exists (Spec.smooth lambda prev l2). split; [reflexivity|apply smooth_length].
  - destruct (IH (lambda * x + (1 - lambda) * prev) l2) as (tail & -> & Hlen).
    exists tail. split; [reflexivity|exact Hlen].
Qed.

(** X10.  The smoothing looks back only: values added at the end of the
    data leave the smoothed values before them as they were. *)
Theorem ewma_causal (lambda : R) (data later : list R) :
  exists tail, calculateEWMA (data ++ later) lambda
               = calculateEWMA data lambda ++ tail /\
               length tail = length later.
Proof.
  rewrite !calculateEWMA_spec. destruct data as [|x rest].
  - exists (Spec.ewma lambda later). split; [reflexivity|apply ewma_length].
  - simpl. destruct (smooth_app lambda rest x later) as (tail & -> & Hlen).
    exists tail. split; [reflexivity|exact Hlen].
Qed.

(** What the change-point test can answer, whatever the length. *)
Lemma pettitt_answers data dates :
  length dates = length data ->
  findPettittChangePoint data dates = Null
  \/ exists t d, (1 <= t < length data)%nat /\ nth_error dates t = Some d /\
                 findPettittChangePoint data dates = Str d.
Proof.
  intros Hdates. unfold findPettittChangePoint, pettittLoop.
  destruct (Nat.ltb_spec (length data) 4) as [?|Hn]; [left; reflexivity|].
  pose proof (pettittLoop_invariant data (length data) ltac:(lia)) as Hinv.
  cbv zeta in Hinv.
  destruct Hinv as [(Hidx & _)|(t & Hidx & Ht & _)]; rewrite Hidx.
  - left. reflexivity.
  - right. destruct (nth_error dates t) as [d|] eqn:Hd.
    2:{ apply nth_error_None in Hd. lia. }
    exists t, d. split; [exact Ht|]. split; [exact Hd|].
    replace (negb (Z.of_nat t =? -1)%Z) with true
      by (symmetry; apply negb_true_iff, Z.eqb_neq; lia).
    rewrite Nat2Z.id. unfold index. rewrite Hd. reflexivity.
Qed.

End StatsExtra.

(** ** More on the clustering *)

Module ClusterExtra.

Import JS App LoopFacts ClusterProofs.

(** *** The palette *)

Lemma group_label_inj i j :
  ("دسته " ++ NilEmpty.string_of_uint (Nat.to_uint (i + 1)))%string
  = ("دسته " ++ NilEmpty.string_of_uint (Nat.to_uint (j + 1)))%string ->
  i = j.
Proof.
  intros H. cbn [String.append] in H.
  repeat (injection H as H).
  apply (f_equal NilEmpty.uint_of_string) in H.
  rewrite !NilEmpty.usu in H. injection H as H.
  apply (f_equal Nat.of_uint) in H. rewrite !DecimalNat.Unsigned.of_to in H. lia.
Qed.

Lemma palette_NoDup clusterCount : NoDup (currentClusterLabels clusterCount).
Proof.
  unfold currentClusterLabels. destruct (clusterCount =? 5)%nat.
  - unfold DEFAULT_CLUSTER_LABELS.
    repeat (constructor; [simpl; intros H;
                          repeat (destruct H as [H|H]; [discriminate H|]);
                          exact H|]).
    constructor.
  - apply NoDup_map_NoDup_ForallPairs; [|apply seq_NoDup].
    intros i j _ _. apply group_label_inj.
Qed.

(** A label of the palette is a plain key of an object: it is not empty,
    it is not [date], and [Object.prototype] has no property of that
    name. *)
Lemma palette_plain clusterCount l :
  In l (currentClusterLabels clusterCount) ->
  String.eqb l EmptyString = false /\
  String.eqb l PROTO = false /\
  String.eqb l "date" = false /\
  existsb (String.eqb l) objectPrototypeKeys = false /\
  TrajectoryChart.lookupColour TrajectoryChart.CLUSTER_COLORS_STATIC l
  = (if (clusterCount =? 5)%nat
     then TrajectoryChart.lookupColour TrajectoryChart.CLUSTER_COLORS_STATIC l
     else None).
Proof.
  unfold currentClusterLabels. destruct (clusterCount =? 5)%nat.
  - unfold DEFAULT_CLUSTER_LABELS. simpl.
    intros H. repeat (destruct H as [<-|H]; [repeat split|]). contradiction.
  - intros H. apply in_map_iff in H. destruct H as (i & <- & _).
    repeat split.
Qed.

(** X11.  The palette of [clusterCount] labels has that many labels and
    no label twice, for the default five as for the numbered ones. *)
Theorem palette_distinct (clusterCount : nat) :
  length (currentClusterLabels clusterCount) = clusterCount /\
  NoDup (currentClusterLabels clusterCount).
Proof.
  split; [apply currentClusterLabels_length|apply palette_NoDup].
Qed.

(** *** Every run on one cluster or more *)

Lemma cluster_runs labels samples count algo :
  (1 <= count)%nat ->
  exists out,
    clusterDataPerPeriod labels samples count algo = Some out /\
    Forall2 (fun s o => Spec.sameMeasures s o /\
                        exists idx, (idx < count)%nat /\
                                    cluster o = nth_error labels idx)
            samples out.
Proof.
  intros Hc.
  assert (Hzero : Forall2 (fun s o => Spec.sameMeasures s o /\
                             exists idx, (idx < count)%nat /\
                                         cluster o = nth_error labels idx)
                          samples
                          (map (fun s => withCluster s (nth_error labels 0)) samples)).
  { induction samples as [|s rest IH]; simpl; constructor; [|exact IH].
    split; [repeat split|]. exists 0%nat. split; [lia|reflexivity]. }
  assert (Hnear : forall centroids, length centroids = count ->
            Forall2 (fun s o => Spec.sameMeasures s o /\
                       exists idx, (idx < count)%nat /\
                                   cluster o = nth_error labels idx)
                    samples (labelSamples labels (sortCentroids centroids) samples)).
  { intros centroids Hlen.
    assert (Hne : sortCentroids centroids <> []).
    { intros Hnil. pose proof (sortCentroids_length centroids) as Hl.
      rewrite Hnil in Hl. simpl in Hl. lia. }
    eapply Forall2_impl; [|apply (labelSamples_nearest labels _ samples Hne)].
    intros s o (Hsame & idx & (Hidx & _) & Hlabel). split; [exact Hsame|].
    exists idx. rewrite sortCentroids_length in Hidx. split; [lia|exact Hlabel]. }
  unfold clusterDataPerPeriod.
  destruct (Nat.ltb_spec (length samples) count) as [Hlt|Hge].
  - eexists. split; [reflexivity|exact Hzero].
  - destruct algo.
    + destruct (Nat.eqb_spec count 1) as [H1|Hne1].
      * eexists. split; [reflexivity|exact Hzero].
      * eexists. split; [reflexivity|]. apply Hnear, simpleCentroids_length.
        destruct samples; [simpl in Hge; lia|discriminate].
    + destruct (kmeansCentroids_some samples count ltac:(lia)) as (cs & -> & Hlen).
      eexists. split; [reflexivity|]. apply Hnear, Hlen.
Qed.

Lemma cluster_palette clusterCount samples algo :
  (1 <= clusterCount)%nat ->
  exists out,
    clusterDataPerPeriod (currentClusterLabels clusterCount) samples
      clusterCount algo = Some out /\
    Forall2 (fun s o => Spec.sameMeasures s o /\
                        exists l, cluster o = Some l /\
                                  In l (currentClusterLabels clusterCount))
            samples out.
Proof.
  intros Hc.
  destruct (cluster_runs (currentClusterLabels clusterCount) samples clusterCount
              algo Hc) as (out & Hrun & Hall).
  exists out. split; [exact Hrun|].
  eapply Forall2_impl; [|exact Hall].
  intros s o (Hsame & idx & Hidx & Hlabel). split; [exact Hsame|].
  destruct (nth_error (currentClusterLabels clusterCount) idx) as [l|] eqn:Hl.
  - exists l. split; [exact Hlabel|]. eapply nth_error_In, Hl.
  - apply nth_error_None in Hl. rewrite currentClusterLabels_length in Hl. lia.
Qed.

(** X12.  With one cluster or more the routine never fails, whatever the
    number of samples and the algorithm: it returns the samples in their
    order, each with its fields but the label as they were, and each
    label is one of the palette. *)
Theorem clustering_total (clusterCount : nat) (samples : list WaterSample)
    (algo : Algo) :
  (1 <= clusterCount)%nat ->
  exists out,
    clusterDataPerPeriod (currentClusterLabels clusterCount) samples
      clusterCount algo = Some out /\
    Forall2 (fun s o => Spec.sameMeasures s o /\
                        exists l, cluster o = Some l /\
                                  In l (currentClusterLabels clusterCount))
            samples out.
Proof. apply cluster_palette. Qed.

Lemma clustering_total_witness :
  exists out,
    clusterDataPerPeriod (currentClusterLabels 1)
      [mkSample "W1" 100 10 "1402-01.xlsx" None None None;
       mkSample "W2" 900 50 "1402-01.xlsx" None None None] 1 Simple = Some out /\
    length out = 2%nat.
Proof.
  destruct (clustering_total 1
              [mkSample "W1" 100 10 "1402-01.xlsx" None None None;
               mkSample "W2" 900 50 "1402-01.xlsx" None None None] Simple)
    as (out & Hrun & Hall); [lia|].
  exists out. split; [exact Hrun|].
  apply Forall2_length in Hall. rewrite <- Hall. reflexivity.
Defined.

(** X13.  With no cluster at all and at least one sample, k-means
    throws, at the first sample it files in a group that does not exist,
    and the uniform-range algorithm gives every sample the label of
    index 0. *)
Theorem clustering_without_clusters (labels : list string)
    (samples : list WaterSample) :
  samples <> [] ->
  clusterDataPerPeriod labels samples 0 KMeans = None /\
  clusterDataPerPeriod labels samples 0 Simple
  = Some (map (fun s => withCluster s (nth_error labels 0)) samples).
Proof.
  intros Hne. destruct samples as [|s rest]; [contradiction|].
  unfold clusterDataPerPeriod. cbn [length Nat.ltb Nat.leb Nat.eqb].
  split.
  - unfold kmeansCentroids. rewrite forLoop_iter. cbn [firstn map].
    assert (Hit : forall n,
              Nat.iter (S n)
                (fun st => match st with
                           | Some centroids => kmeansStep (s :: rest) 0 centroids
                           | None => None
                           end) (Some []) = None).
    { induction n as [|n IH]; [reflexivity|].
      rewrite Nat.iter_succ, IH. reflexivity. }
    rewrite (Hit 9%nat). reflexivity.
  - unfold simpleCentroids. cbn [map mathMax seq sortCentroids fold_right].
    reflexivity.
Qed.

Lemma clustering_without_clusters_witness :
  clusterDataPerPeriod (currentClusterLabels 0)
    [mkSample "W1" 100 10 "1402-01.xlsx" None None None] 0 KMeans = None.
Proof.
  apply (clustering_without_clusters (currentClusterLabels 0)
           [mkSample "W1" 100 10 "1402-01.xlsx" None None None]).
  discriminate.
Defined.

(** *** The uniform-range centroids *)

Lemma fold_Rmax_upper xs : forall x0,
  x0 <= fold_left Rmax xs x0 /\
  (forall x, In x xs -> x <= fold_left Rmax xs x0).
Proof.
  induction xs as [|y xs IH]; intros x0; simpl.
  - split; [lra|intros x []].
  - destruct (IH (Rmax x0 y)) as [Hseed Hall].
    pose proof (Rmax_l x0 y). pose proof (Rmax_r x0 y).
    split; [lra|]. intros x [<-|Hx]; [lra|apply Hall, Hx].
Qed.

Lemma mathMax_upper xs m :
  mathMax xs = Some m -> forall x, In x xs -> x <= m.
Proof.
  destruct xs as [|x0 xs]; [discriminate|]. simpl. intros Hm. injection Hm as <-.
  destruct (fold_Rmax_upper xs x0) as [Hseed Hall].
  intros x [<-|Hx]; [exact Hseed|apply Hall, Hx].
Qed.

Lemma fold_Rmax_attained xs : forall x0,
  fold_left Rmax xs x0 = x0 \/ In (fold_left Rmax xs x0) xs.
Proof.
  induction xs as [|y xs IH]; intros x0; simpl; [left; reflexivity|].
  destruct (IH (Rmax x0 y)) as [Heq|Hin]; [|right; right; exact Hin].
  rewrite Heq. destruct (Rle_dec x0 y) as [Hle|Hgt].
  - right. left. symmetry. apply Rmax_right, Hle.
  - left. apply Rmax_left. lra.
Qed.

Lemma mathMax_attained xs m : mathMax xs = Some m -> In m xs.
Proof.
  destruct xs as [|x0 xs]; [discriminate|]. simpl. intros Hm. injection Hm as <-.
  destruct (fold_Rmax_attained xs x0) as [->|Hin]; [left; reflexivity|right; exact Hin].
Qed.

Lemma sort_of_sorted centroids :
  StronglySorted Spec.lowerMagnitude centroids -> sortCentroids centroids = centroids.
Proof.
  induction 1 as [|c rest Hs IH Hall]; [reflexivity|].
  change (sortCentroids (c :: rest)) with (insertCentroid c (sortCentroids rest)).
  rewrite IH.
  destruct rest as [|c' rest']; [reflexivity|]. simpl.
  inversion Hall as [|? ? Hc _]; subst. unfold Spec.lowerMagnitude in Hc.
  destruct (Rle_dec (magnitude c) (magnitude c')); [reflexivity|contradiction].
Qed.

Lemma map_seq_sorted (f : nat -> Centroid) len : forall start,
  (forall i j, (i <= j)%nat -> Spec.lowerMagnitude (f i) (f j)) ->
  StronglySorted Spec.lowerMagnitude (map f (seq start len)).
Proof.
  induction len as [|len IH]; intros start Hmono; simpl; constructor.
  - apply IH, Hmono.
  - apply Forall_forall. intros c Hc. apply in_map_iff in Hc.
    destruct Hc as (j & <- & Hj). apply in_seq in Hj. apply Hmono. lia.
Qed.

(** X14.  For two clusters or more the uniform-range centroids are
    [count], from (0, 0) to the largest conductivity and the largest
    nitrate of the period: each of the two is the value of a sample and
    no sample exceeds it.  When neither maximum is negative, as for
    measured values, the centroids are in ascending order already and
    the sort leaves them as they are. *)
Theorem uniform_centroids (samples : list WaterSample) (count : nat) :
  samples <> [] -> (2 <= count)%nat ->
  exists maxEC maxNO3,
    (exists s, In s samples /\ conductivity s = maxEC) /\
    (exists s, In s samples /\ nitrate s = maxNO3) /\
    (forall s, In s samples -> conductivity s <= maxEC /\ nitrate s <= maxNO3) /\
    length (simpleCentroids samples count) = count /\
    nth_error (simpleCentroids samples count) 0 = Some (mkCentroid 0 0) /\
    nth_error (simpleCentroids samples count) (count - 1)
    = Some (mkCentroid maxEC maxNO3) /\
    (0 <= maxEC -> 0 <= maxNO3 ->
     sortCentroids (simpleCentroids samples count) = simpleCentroids samples count).
Proof.
  intros Hne Hc. unfold simpleCentroids.
  destruct (mathMax (map conductivity samples)) as [maxEC|] eqn:HmE.
  2:{ destruct samples; [contradiction|discriminate]. }
  destruct (mathMax (map nitrate samples)) as [maxNO3|] eqn:HmN.
  2:{ destruct samples; [contradiction|discriminate]. }
  exists maxEC, maxNO3.
  assert (Hd : INR (count - 1) <> 0) by (apply not_0_INR; lia).
  split; [|split; [|split; [|split; [|split; [|split]]]]].
  - apply mathMax_attained, in_map_iff in HmE.
    destruct HmE as (s & Hs & Hin). exists s. split; assumption.
  - apply mathMax_attained, in_map_iff in HmN.
    destruct HmN as (s & Hs & Hin). exists s. split; assumption.
  - intros s Hs. split.
    + apply (mathMax_upper _ _ HmE), in_map, Hs.
    + apply (mathMax_upper _ _ HmN), in_map, Hs.
  - rewrite length_map, length_seq. reflexivity.
  - destruct count as [|count]; [lia|]. cbn [seq map nth_error].
    f_equal. cbn [INR]. unfold Rdiv. rewrite !Rmult_0_l. reflexivity.
  - rewrite nth_error_map, nth_error_nth' with (d := 0%nat)
      by (rewrite length_seq; lia).
    rewrite seq_nth by lia. cbn [option_map Nat.add]. f_equal.
    f_equal; field; exact Hd.
  - intros HposE HposN. apply sort_of_sorted, map_seq_sorted.
    intros i j Hij. unfold Spec.lowerMagnitude. cbn [ec no3].
    apply le_INR in Hij.
    assert (Hinv : 0 < / INR (count - 1))
      by (apply Rinv_0_lt_compat, lt_0_INR; lia).
    unfold Rdiv.
    assert (Hfrac : INR i * / INR (count - 1) <= INR j * / INR (count - 1)) by nra.
    nra.
Qed.

Lemma uniform_centroids_witness :
  let samples := [mkSample "W1" 100 10 "1402-01.xlsx" None None None;
                  mkSample "W2" 900 50 "1402-01.xlsx" None None None;
                  mkSample "W3" 500 70 "1402-01.xlsx" None None None] in
  nth_error (simpleCentroids samples 3) 2 = Some (mkCentroid 900 70) /\
  sortCentroids (simpleCentroids samples 3) = simpleCentroids samples 3.
Proof.
  intros samples.
  destruct (uniform_centroids samples 3)
    as (maxEC & maxNO3 & (sE & HsE & HE) & (sN & HsN & HN) & Hup & _ & _
        & Hlast & Hsort).
  - discriminate.
  - lia.
  - assert (HmE : maxEC = 900).
    { pose proof (Hup (mkSample "W2" 900 50 "1402-01.xlsx" None None None)
                    (or_intror (or_introl eq_refl))) as [Hge _].
      cbn [conductivity] in Hge.
      destruct HsE as [<-|[<-|[<-|[]]]]; cbn [conductivity] in HE; lra. }
    assert (HmN : maxNO3 = 70).
    { pose proof (Hup (mkSample "W3" 500 70 "1402-01.xlsx" None None None)
                    (or_intror (or_intror (or_introl eq_refl)))) as [_ Hge].
      cbn [nitrate] in Hge.
      destruct HsN as [<-|[<-|[<-|[]]]]; cbn [nitrate] in HN; lra. }
    rewrite HmE, HmN in Hlast, Hsort. split; [exact Hlast|].
    apply Hsort; lra.
Defined.

(** *** All the periods *)

Lemma processed_runs timePoints clusterCount algo :
  (1 <= clusterCount)%nat ->
  exists out,
    processedTimePoints timePoints clusterCount algo = Some out /\
    Forall2 (fun tp tp' =>
               date tp' = date tp /\
               Forall2 (fun s o => Spec.sameMeasures s o /\
                                   exists l, cluster o = Some l /\
                                             In l (currentClusterLabels clusterCount))
                       (samples tp) (samples tp'))
            timePoints out.
Proof.
  intros Hc. induction timePoints as [|tp rest IH]; simpl.
  - exists []. split; [reflexivity|constructor].
  - destruct (cluster_palette clusterCount (samples tp) algo Hc) as (ss & -> & Hss).
    destruct IH as (rest' & -> & Hrest).
    eexists. split; [reflexivity|]. constructor; [|exact Hrest].
    split; [reflexivity|exact Hss].
Qed.

(** X16.  With one cluster or more the clustering of all the periods
    never fails and keeps the periods as they are: as many, in the same
    order, with the same dates and the same samples, each of which has a
    label of the palette. *)
Theorem processed_keeps_periods (timePoints : list TimePoint) (clusterCount : nat)
    (algo : Algo) :
  (1 <= clusterCount)%nat ->
  exists out,
    processedTimePoints timePoints clusterCount algo = Some out /\
    map date out = map date timePoints /\
    Forall2 (fun tp tp' =>
               Forall2 (fun s o => Spec.sameMeasures s o /\
                                   exists l, cluster o = Some l /\
                                             In l (currentClusterLabels clusterCount))
                       (samples tp) (samples tp'))
            timePoints out.
Proof.
  intros Hc.
  destruct (processed_runs timePoints clusterCount algo Hc) as (out & Hrun & Hall).
  exists out. split; [exact Hrun|]. split.
  - clear Hrun. induction Hall as [|tp tp' tps out (Hd & _) _ IH]; simpl;
      [reflexivity|]. rewrite Hd, IH. reflexivity.
  - eapply Forall2_impl; [|exact Hall]. intros tp tp' (_ & H). exact H.
Qed.

Lemma processed_keeps_periods_witness :
  exists out,
    processedTimePoints
      [mkTimePoint "1402-01"
         [mkSample "W1" 100 10 "1402-01.xlsx" None None None];
       mkTimePoint "1402-02"
         [mkSample "W1" 120 11 "1402-02.xlsx" None None None]] 5 KMeans
    = Some out /\
    map date out = ["1402-01"; "1402-02"]%string.
Proof.
  destruct (processed_keeps_periods
              [mkTimePoint "1402-01"
                 [mkSample "W1" 100 10 "1402-01.xlsx" None None None];
               mkTimePoint "1402-02"
                 [mkSample "W1" 120 11 "1402-02.xlsx" None None None]] 5 KMeans)
    as (out & Hrun & Hdates & _); [lia|].
  exists out. split; [exact Hrun|exact Hdates].
Defined.

(** *** Clustering what is clustered already *)

Lemma cluster_shape labels samples count algo out :
  clusterDataPerPeriod labels samples count algo = Some out ->
  exists g, out = map (fun s => withCluster s (g s)) samples.
Proof.
  unfold clusterDataPerPeriod, labelSamples.
  destruct (length samples <? count)%nat.
  - intros H. injection H as <-. exists (fun _ => nth_error labels 0). reflexivity.
  - destruct algo.
    + destruct (count =? 1)%nat; intros H; injection H as <-; eexists; reflexivity.
    + destruct (kmeansCentroids samples count); [|discriminate].
      intros H. injection H as <-. eexists. reflexivity.
Qed.

Lemma map_relabel (f g : WaterSample -> option string) samples :
  map f samples = map g samples ->
  map (fun s => withCluster s (f s)) samples
  = map (fun s => withCluster s (g s)) samples.
Proof.
  induction samples as [|s rest IH]; simpl; intros H; [reflexivity|].
  injection H as Hs Hrest. rewrite Hs, IH by exact Hrest. reflexivity.
Qed.

(** X17.  Clustering the samples a run has returned, with the same
    labels, number of clusters and algorithm, returns them unchanged:
    the labels they carry play no part, and they get the same ones
    again. *)
Theorem clustering_idempotent (labels : list string) (samples : list WaterSample)
    (count : nat) (algo : Algo) (out : list WaterSample) :
  clusterDataPerPeriod labels samples count algo = Some out ->
  clusterDataPerPeriod labels out count algo = Some out.
Proof.
  intros Hrun.
  destruct (cluster_shape _ _ _ _ _ Hrun) as (g & ->).
  set (out := map (fun s => withCluster s (g s)) samples) in *.
  assert (Hbare : map Spec.bare out = map Spec.bare samples).
  { unfold out. rewrite map_map. reflexivity. }
  pose proof (labels_bare labels out count algo) as Hl1.
  pose proof (labels_bare labels samples count algo) as Hl2.
  rewrite Hbare, Hl2, Hrun in Hl1. simpl in Hl1.
  destruct (clusterDataPerPeriod labels out count algo) as [out'|] eqn:Hrun';
    [|discriminate].
  simpl in Hl1. injection Hl1 as Hlabels.
  destruct (cluster_shape _ _ _ _ _ Hrun') as (g' & ->).
  f_equal. unfold out in *. rewrite !map_map in Hlabels. rewrite map_map.
  exact (map_relabel (fun s => g' (withCluster s (g s))) g samples (eq_sym Hlabels)).
Qed.

Lemma clustering_idempotent_witness :
  let samples := [mkSample "W1" 100 10 "1402-01.xlsx" None None None;
                  mkSample "W2" 900 50 "1402-01.xlsx" None None None;
                  mkSample "W3" 500 30 "1402-01.xlsx" None None None] in
  exists out,
    clusterDataPerPeriod (currentClusterLabels 3) samples 3 KMeans = Some out /\
    clusterDataPerPeriod (currentClusterLabels 3) out 3 KMeans = Some out.
Proof.
  intros samples.
  destruct (cluster_runs (currentClusterLabels 3) samples 3 KMeans)
    as (out & Hrun & _); [lia|].
  exists out. split; [exact Hrun|].
  apply (clustering_idempotent _ samples), Hrun.
Defined.

End ClusterExtra.

(** ** More on the volatility ranking *)

Module VolatilityExtra.

Import JS App LoopFacts VolatilityProofs.

(** *** When the ranking throws *)

Lemma collect_period_none ss :
  fold_left (fun st' s => collectSample s st') ss None = None.
Proof. induction ss as [|s ss IH]; simpl; [reflexivity|exact IH]. Qed.

Lemma collect_none tps :
  fold_left (fun st tp => fold_left (fun st' s => collectSample s st')
                            (samples tp) st) tps None = None.
Proof.
  induction tps as [|tp tps IH]; cbn [fold_left]; [reflexivity|].
  rewrite collect_period_none. exact IH.
Qed.

Lemma collect_period_fails ss : forall st,
  Exists (fun s => existsb (String.eqb (id s)) objectPrototypeKeys = true) ss ->
  fold_left (fun st' s => collectSample s st') ss st = None.
Proof.
  induction ss as [|s ss IH]; intros st Hex; [inversion Hex|].
  cbn [fold_left]. inversion Hex as [? ? Hs|? ? Hrest]; subst.
  - destruct st as [[[ph allEC] allNO3]|]; unfold collectSample at 2;
      [rewrite Hs|]; apply collect_period_none.
  - apply IH, Hrest.
Qed.

Lemma collect_fails tps : forall st,
  Exists (fun s => existsb (String.eqb (id s)) objectPrototypeKeys = true)
         (Spec.allSamples tps) ->
  fold_left (fun st tp => fold_left (fun st' s => collectSample s st')
                            (samples tp) st) tps st = None.
Proof.
  induction tps as [|tp tps IH]; intros st Hex; [inversion Hex|].
  cbn [fold_left]. unfold Spec.allSamples in Hex. cbn [flat_map] in Hex.
  apply Exists_app in Hex. destruct Hex as [Hex|Hex].
  - rewrite collect_period_fails by exact Hex. apply collect_none.
  - apply IH, Hex.
Qed.

(** X18.  The ranking throws exactly when there are two periods or more
    and some sample is named after a property of [Object.prototype],
    such as [constructor] or [toString]; with fewer than two periods it
    is empty whatever the names. *)
Theorem ranking_fails_exactly (processed : list TimePoint) :
  (volatilityRanking processed = None <->
   (2 <= length processed)%nat /\
   exists s, In s (Spec.allSamples processed) /\ In (id s) objectPrototypeKeys) /\
  ((length processed < 2)%nat -> volatilityRanking processed = Some []).
Proof.
  split.
  - split.
    + intros Hnone.
      destruct (Nat.ltb_spec (length processed) 2) as [Hshort|Hlong].
      * unfold volatilityRanking in Hnone.
        destruct (Nat.ltb_spec (length processed) 2); [discriminate|lia].
      * split; [exact Hlong|].
        destruct (Exists_dec
                    (fun s => existsb (String.eqb (id s)) objectPrototypeKeys = true)
                    (Spec.allSamples processed)) as [Hex|Hnex].
        { intros s. destruct (existsb (String.eqb (id s)) objectPrototypeKeys);
            [left; reflexivity|right; discriminate]. }
        -- apply Exists_exists in Hex. destruct Hex as (s & Hs & Hbad).
           exists s. split; [exact Hs|].
           apply existsb_exists in Hbad. destruct Hbad as (k & Hk & Heq).
           apply String.eqb_eq in Heq. rewrite Heq. exact Hk.
        -- exfalso.
           destruct (volatilityRanking_runs processed) as (rk & Hrk);
             [|rewrite Hrk in Hnone; discriminate].
           apply Forall_forall. intros s Hs.
           destruct (existsb (String.eqb (id s)) objectPrototypeKeys) eqn:Hb;
             [|reflexivity].
           exfalso. apply Hnex, Exists_exists. exists s. split; assumption.
    + intros (Hlong & s & Hs & Hbad). unfold volatilityRanking.
      destruct (Nat.ltb_spec (length processed) 2) as [?|_]; [lia|].
      unfold collect. rewrite collect_fails; [reflexivity|].
      apply Exists_exists. exists s. split; [exact Hs|].
      apply existsb_exists. exists (id s). split; [exact Hbad|apply String.eqb_refl].
  - intros Hshort. unfold volatilityRanking.
    destruct (Nat.ltb_spec (length processed) 2); [reflexivity|lia].
Qed.

Lemma ranking_fails_exactly_witness :
  volatilityRanking
    [mkTimePoint "1402-01"
       [mkSample "toString" 100 10 "1402-01.xlsx" None None None];
     mkTimePoint "1402-02"
       [mkSample "W1" 100 10 "1402-02.xlsx" None None None]] = None /\
  volatilityRanking
    [mkTimePoint "1402-01"
       [mkSample "toString" 100 10 "1402-01.xlsx" None None None]] = Some [].
Proof.
  split.
  - apply ranking_fails_exactly. split; [simpl; lia|].
    exists (mkSample "toString" 100 10 "1402-01.xlsx" None None None).
    split; [left; reflexivity|]. simpl. right. left. reflexivity.
  - apply ranking_fails_exactly. simpl. lia.
Defined.

(** *** The order of the ranking *)

Lemma insertRanking_sorted r sorted :
  StronglySorted (fun a b => score b <= score a) sorted ->
  StronglySorted (fun a b => score b <= score a) (insertRanking r sorted).
Proof.
  induction 1 as [|r' rest Hs IH Hall]; simpl.
  - constructor; constructor.
  - destruct (Rle_dec (score r') (score r)) as [Hle|Hgt].
    + constructor; [constructor; assumption|].
      constructor; [exact Hle|].
      eapply Forall_impl; [|exact Hall]. intros a Ha. cbv beta in *. lra.
    + constructor; [exact IH|].
      apply Forall_forall. intros a Ha. apply insertRanking_in in Ha.
      destruct Ha as [->|Ha]; [lra|].
      rewrite Forall_forall in Hall. apply Hall, Ha.
Qed.

(** Two stations, the still one first in the files and last in the
    ranking. *)
Example two_stations_example :
  volatilityRanking
    [mkTimePoint "1402-01"
       [mkSample "W1" 100 10 "1402-01.xlsx" None (Some "عالی"%string) None;
        mkSample "W7" 100 10 "1402-01.xlsx" None (Some "عالی"%string) None];
     mkTimePoint "1402-02"
       [mkSample "W1" 100 10 "1402-02.xlsx" None (Some "عالی"%string) None;
        mkSample "W7" 300 10 "1402-02.xlsx" None (Some "خوب"%string) None]]
  = Some [mkRanking "W7" (23 / 15) 1; mkRanking "W1" 0 0].
Proof.
  unfold volatilityRanking. run_collect.
  unfold entryOf, clusterOrEmpty. cbn [conductivity nitrate cluster].
  change (objectEntries
            [("W1"%string, [mkEntry 100 10 "عالی"; mkEntry 100 10 "عالی"]);
             ("W7"%string, [mkEntry 100 10 "عالی"; mkEntry 300 10 "خوب"])])
    with [("W1"%string, [mkEntry 100 10 "عالی"; mkEntry 100 10 "عالی"]);
          ("W7"%string, [mkEntry 100 10 "عالی"; mkEntry 300 10 "خوب"])].
  assert (HmEC : meanOrOne [100; 100; 100; 300] = 150).
  { unfold meanOrOne, sumReduce. cbn [length Nat.eqb fold_left].
    replace (INR 4) with 4 by (simpl; lra).
    destruct (Req_dec_T ((0 + 100 + 100 + 100 + 300) / 4) 0); lra. }
  assert (HmNO3 : meanOrOne [10; 10; 10; 10] = 10).
  { unfold meanOrOne, sumReduce. cbn [length Nat.eqb fold_left].
    replace (INR 4) with 4 by (simpl; lra).
    destruct (Req_dec_T ((0 + 10 + 10 + 10 + 10) / 4) 0); lra. }
  rewrite HmEC, HmNO3. cbn [map].
  assert (H1 : rankStation 150 10
                 ("W1"%string, [mkEntry 100 10 "عالی"; mkEntry 100 10 "عالی"])
               = mkRanking "W1" 0 0).
  { cbv [rankStation forLoop snd fst length Nat.sub seq fold_left Nat.ltb Nat.leb
         scoreBody entryAt nth h_ec h_no3 h_cluster].
    replace (String.eqb "عالی" "عالی") with true by (vm_compute; reflexivity).
    cbn [negb]. f_equal.
    replace (100 - 100) with 0 by lra. replace (10 - 10) with 0 by lra.
    rewrite Rabs_R0.
    replace (0 / 150 * (0 / 150) + 0 / 10 * (0 / 10)) with 0 by lra.
    rewrite sqrt_0. simpl INR. lra. }
  assert (H7 : rankStation 150 10
                 ("W7"%string, [mkEntry 100 10 "عالی"; mkEntry 300 10 "خوب"])
               = mkRanking "W7" (23 / 15) 1).
  { cbv [rankStation forLoop snd fst length Nat.sub seq fold_left Nat.ltb Nat.leb
         scoreBody entryAt nth h_ec h_no3 h_cluster].
    replace (String.eqb "خوب" "عالی") with false by (vm_compute; reflexivity).
    cbn [negb Nat.add]. f_equal.
    replace (300 - 100) with 200 by lra. replace (10 - 10) with 0 by lra.
    rewrite Rabs_R0, (Rabs_right 200) by lra.
    replace (200 / 150 * (200 / 150) + 0 / 10 * (0 / 10))
      with (4 / 3 * (4 / 3)) by lra.
    rewrite sqrt_square by lra. simpl INR. lra. }
  rewrite H1, H7. cbv [sortRankings fold_right insertRanking score].
  destruct (Rle_dec (23 / 15) 0) as [Hle|_]; [exfalso; lra|]. reflexivity.
Qed.

(** X19.  The ranking is in descending order of score: no station comes
    before a station of higher score. *)
Theorem ranking_descending (processed : list TimePoint) (rankings : list Ranking) :
  volatilityRanking processed = Some rankings ->
  StronglySorted (fun a b => score b <= score a) rankings.
Proof.
  unfold volatilityRanking.
  destruct (length processed <? 2)%nat.
  - intros H. injection H as <-. constructor.
  - destruct (collect processed) as [[[ph allEC] allNO3]|]; [|discriminate].
    intros H. injection H as <-. unfold sortRankings.
    induction (map (rankStation (meanOrOne allEC) (meanOrOne allNO3))
                   (objectEntries ph)) as [|r l IH]; simpl.
    + constructor.
    + apply insertRanking_sorted, IH.
Qed.

Lemma ranking_descending_witness :
  let processed :=
    [mkTimePoint "1402-01"
       [mkSample "W1" 100 10 "1402-01.xlsx" None (Some "عالی"%string) None;
        mkSample "W7" 100 10 "1402-01.xlsx" None (Some "عالی"%string) None];
     mkTimePoint "1402-02"
       [mkSample "W1" 100 10 "1402-02.xlsx" None (Some "عالی"%string) None;
        mkSample "W7" 300 10 "1402-02.xlsx" None (Some "خوب"%string) None]] in
  exists rankings,
    volatilityRanking processed = Some rankings /\
    map r_id rankings = ["W7"; "W1"]%string /\
    StronglySorted (fun a b => score b <= score a) rankings.
Proof.
  intros processed.
  exists [mkRanking "W7" (23 / 15) 1; mkRanking "W1" 0 0].
  split; [apply two_stations_example|]. split; [reflexivity|].
  apply (ranking_descending processed), two_stations_example.
Defined.

(** *** One entry for every station *)

Lemma insertRanking_perm r sorted : Permutation (r :: sorted) (insertRanking r sorted).
Proof.
  induction sorted as [|r' rest IH]; simpl; [reflexivity|].
  destruct (Rle_dec (score r') (score r)); [reflexivity|].
  rewrite perm_swap. apply perm_skip, IH.
Qed.

Lemma sortRankings_perm l : Permutation l (sortRankings l).
Proof.
  induction l as [|r l IH]; simpl; [constructor|].
  rewrite <- insertRanking_perm. apply perm_skip, IH.
Qed.

Lemma insertIndexed_perm {A : Type} (x : N * A) sorted :
  Permutation (x :: sorted) (insertIndexed x sorted).
Proof.
  induction sorted as [|y rest IH]; simpl; [reflexivity|].
  destruct (fst x <=? fst y)%N; [reflexivity|].
  rewrite perm_swap. apply perm_skip, IH.
Qed.

Lemma sortIndexed_perm {A : Type} (l : list (N * A)) :
  Permutation l (fold_right insertIndexed [] l).
Proof.
  induction l as [|x l IH]; simpl; [constructor|].
  rewrite <- insertIndexed_perm. apply perm_skip, IH.
Qed.

Lemma objectEntries_perm ph : Permutation ph (objectEntries ph).
Proof.
  unfold objectEntries.
  rewrite <- (Permutation_map snd (sortIndexed_perm _)).
  induction ph as [|p ph IH]; simpl; [constructor|].
  destruct (arrayIndex (fst p)); simpl.
  - apply perm_skip, IH.
  - apply Permutation_cons_app, IH.
Qed.

Lemma collect_period_keys ss : forall ph allEC allNO3 ph' allEC' allNO3' ids,
  fold_left (fun st' s => collectSample s st') ss (Some (ph, allEC, allNO3))
  = Some (ph', allEC', allNO3') ->
  (forall k, In k (map fst ph) -> In k ids) ->
  forall k, In k (map fst ph') -> In k (ids ++ map id ss).
Proof.
  induction ss as [|s ss IH]; intros ph allEC allNO3 ph' allEC' allNO3' ids Hrun Hkeys;
    cbn [fold_left] in Hrun.
  - injection Hrun as <- _ _. intros k Hk. rewrite app_nil_r. apply Hkeys, Hk.
  - unfold collectSample at 2 in Hrun.
    destruct (existsb (String.eqb (id s)) objectPrototypeKeys).
    + rewrite collect_period_none in Hrun. discriminate.
    + intros k Hk.
      replace (ids ++ map id (s :: ss)) with ((ids ++ [id s]) ++ map id ss)
        by (rewrite <- app_assoc; reflexivity).
      apply (IH _ _ _ _ _ _ (ids ++ [id s]) Hrun); [|exact Hk].
      intros k' Hk'. apply pushOwn_keys in Hk'. apply in_or_app.
      destruct Hk' as [->|Hk']; [right; left; reflexivity|left; apply Hkeys, Hk'].
Qed.

Lemma collect_keys tps : forall ph allEC allNO3 ph' allEC' allNO3' ids,
  fold_left (fun st tp => fold_left (fun st' s => collectSample s st')
                            (samples tp) st) tps (Some (ph, allEC, allNO3))
  = Some (ph', allEC', allNO3') ->
  (forall k, In k (map fst ph) -> In k ids) ->
  forall k, In k (map fst ph') -> In k (ids ++ map id (Spec.allSamples tps)).
Proof.
  induction tps as [|tp tps IH]; intros ph allEC allNO3 ph' allEC' allNO3' ids Hrun Hkeys;
    cbn [fold_left] in Hrun.
  - injection Hrun as <- _ _. intros k Hk. simpl. rewrite app_nil_r. apply Hkeys, Hk.
  - destruct (fold_left (fun st' s => collectSample s st') (samples tp)
                (Some (ph, allEC, allNO3))) as [[[ph1 allEC1] allNO31]|] eqn:Hp.
    2:{ rewrite collect_none in Hrun. discriminate. }
    intros k Hk. unfold Spec.allSamples. cbn [flat_map].
    rewrite map_app, app_assoc.
    apply (IH _ _ _ _ _ _ (ids ++ map id (samples tp)) Hrun); [|exact Hk].
    apply (collect_period_keys _ _ _ _ _ _ _ _ Hp Hkeys).
Qed.

(** The ranking is, up to its order, the list of the stations of
    [pointHistories], each with the history of its samples. *)
Lemma ranking_entries processed rankings :
  volatilityRanking processed = Some rankings -> (2 <= length processed)%nat ->
  exists ph,
    Permutation (map (rankStation
                        (meanOrOne (map conductivity (Spec.allSamples processed)))
                        (meanOrOne (map nitrate (Spec.allSamples processed)))) ph)
                rankings /\
    NoDup (map fst ph) /\
    (forall k hs, In (k, hs) ph -> hs = Spec.historyOf k (Spec.allSamples processed)) /\
    (forall k, In k (map fst ph) <-> In k (map id (Spec.allSamples processed))).
Proof.
  unfold volatilityRanking. intros Hrun Hlong.
  destruct (Nat.ltb_spec (length processed) 2) as [?|_]; [lia|].
  pose proof (collect_spec processed) as Hcol.
  destruct (collect processed) as [[[ph allEC] allNO3]|] eqn:Hc; [|discriminate].
  injection Hrun as <-. destruct Hcol as ((Hnd & Hhist & Hkeys) & -> & ->).
  exists ph. split; [|split; [exact Hnd|split; [exact Hhist|]]].
  - rewrite <- sortRankings_perm. apply Permutation_map. apply objectEntries_perm.
  - intros k. split.
    + intros Hk. unfold collect in Hc.
      apply (collect_keys _ _ _ _ _ _ _ [] Hc); [intros k' []|exact Hk].
    + intros Hk. apply in_map_iff in Hk. destruct Hk as (s & <- & Hs).
      apply Hkeys, Hs.
Qed.

(** X20.  In a ranking of two periods or more every station has one
    entry and no more: no identifier comes twice, and the identifiers of
    the ranking are those of the samples. *)
Theorem ranking_one_per_station (processed : list TimePoint)
    (rankings : list Ranking) :
  volatilityRanking processed = Some rankings -> (2 <= length processed)%nat ->
  NoDup (map r_id rankings) /\
  (forall k, In k (map r_id rankings)
             <-> In k (map id (Spec.allSamples processed))).
Proof.
  intros Hrun Hlong.
  destruct (ranking_entries processed rankings Hrun Hlong)
    as (ph & Hperm & Hnd & _ & Hkeys).
  assert (Hids : Permutation (map fst ph) (map r_id rankings)).
  { rewrite <- (Permutation_map r_id Hperm), map_map. reflexivity. }
  split.
  - apply (Permutation_NoDup Hids), Hnd.
  - intros k. rewrite <- Hkeys. split; intros Hk.
    + apply (Permutation_in k (Permutation_sym Hids)), Hk.
    + apply (Permutation_in k Hids), Hk.
Qed.

Lemma ranking_one_per_station_witness :
  NoDup (map r_id [mkRanking "W7" (13 / 15) 1]).
Proof.
  apply (ranking_one_per_station
           [mkTimePoint "1402-01"
              [mkSample "W7" 100 10 "1402-01.xlsx" None (Some "عالی"%string) None];
            mkTimePoint "1402-02"
              [mkSample "W7" 200 10 "1402-02.xlsx" None (Some "خوب"%string) None]]).
  - apply volatility_example.
  - simpl. lia.
Defined.

Lemma score_above_jumps divEC divNO3 history :
  2 / 10 * INR (length (filter Spec.labelChanged (Spec.pairs history)))
  <= Spec.volatilityScore divEC divNO3 history.
Proof.
  unfold Spec.volatilityScore.
  assert (Ht : 0 <= Spec.total (map (Spec.normStep divEC divNO3) (Spec.pairs history))).
  { apply total_nonneg, Forall_forall. intros x Hx. apply in_map_iff in Hx.
    destruct Hx as (q & <- & _). apply sqrt_pos. }
  destruct (Spec.pairs history) as [|q qs] eqn:Hp; [lra|].
  assert (Hn : 0 < INR (length (q :: qs))) by (apply lt_0_INR; simpl; lia).
  assert (0 <= Spec.total (map (Spec.normStep divEC divNO3) (q :: qs))
               / INR (length (q :: qs))).
  { apply Rmult_le_pos; [exact Ht|]. left. apply Rinv_0_lt_compat, Hn. }
  lra.
Qed.

(** X21.  A station changes label at most once between two of its
    consecutive samples: its count of changes is below the number of its
    samples, and its score is at least 0.2 times that count. *)
Theorem ranking_jumps_bounded (processed : list TimePoint)
    (rankings : list Ranking) (r : Ranking) :
  volatilityRanking processed = Some rankings -> In r rankings ->
  (jumps r < length (filter (fun s => String.eqb (id s) (r_id r))
                            (Spec.allSamples processed)))%nat /\
  2 / 10 * INR (jumps r) <= score r.
Proof.
  intros Hrun Hr.
  destruct (Nat.ltb_spec (length processed) 2) as [Hshort|Hlong].
  { unfold volatilityRanking in Hrun.
    destruct (Nat.ltb_spec (length processed) 2); [|lia].
    injection Hrun as <-. contradiction. }
  destruct (ranking_entries processed rankings Hrun Hlong)
    as (ph & Hperm & _ & Hhist & Hkeys).
  apply (Permutation_in r (Permutation_sym Hperm)) in Hr.
  apply in_map_iff in Hr. destruct Hr as ([k hs] & <- & Hp).
  destruct (rankStation_score
              (meanOrOne (map conductivity (Spec.allSamples processed)))
              (meanOrOne (map nitrate (Spec.allSamples processed))) (k, hs))
    as (Hscore & Hjumps & Hid).
  rewrite Hscore, Hjumps, Hid. cbn [fst snd]. split; [|apply score_above_jumps].
  pose proof (Hhist k hs Hp) as Hhs.
  assert (Hone : (1 <= length hs)%nat).
  { assert (Hk : In k (map id (Spec.allSamples processed))).
    { apply Hkeys. apply in_map_iff. exists (k, hs). split; [reflexivity|exact Hp]. }
    apply in_map_iff in Hk. destruct Hk as (s & Hs & Hin).
    assert (Hf : In (entryOf s) hs).
    { rewrite Hhs. unfold Spec.historyOf. apply in_map, filter_In.
      split; [exact Hin|]. rewrite Hs. apply String.eqb_refl. }
    destruct hs; [contradiction|simpl; lia]. }
  assert (Hlen : length hs
                 = length (filter (fun s => String.eqb (id s) k)
                                  (Spec.allSamples processed))).
  { rewrite Hhs. unfold Spec.historyOf. apply length_map. }
  rewrite <- Hlen.
  pose proof (filter_length_le Spec.labelChanged (Spec.pairs hs)) as Hf.
  rewrite pairs_length in Hf. lia.
Qed.

Lemma ranking_jumps_bounded_witness :
  2 / 10 * INR (jumps (mkRanking "W7" (13 / 15) 1))
  <= score (mkRanking "W7" (13 / 15) 1).
Proof.
  apply (ranking_jumps_bounded
           [mkTimePoint "1402-01"
              [mkSample "W7" 100 10 "1402-01.xlsx" None (Some "عالی"%string) None];
            mkTimePoint "1402-02"
              [mkSample "W7" 200 10 "1402-02.xlsx" None (Some "خوب"%string) None]]
           [mkRanking "W7" (13 / 15) 1]).
  - apply volatility_example.
  - left. reflexivity.
Defined.

End VolatilityExtra.

(** ** The statistics of the selected point *)

Module PointStatsExtra.

Import JS StatsService App LoopFacts StatsProofs.

Lemma selected_shape selectedPointId processed st :
  selectedPointStats selectedPointId processed = Some st ->
  exists key,
    selectedPointId = Some key /\ key <> EmptyString /\
    selectedHistory key processed <> [] /\
    map row (history st) = selectedHistory key processed /\
    map ecEWMA (history st)
    = map (nth_error (calculateEWMA_default
                        (map row_ec (selectedHistory key processed))))
          (seq 0 (length (selectedHistory key processed))) /\
    map no3EWMA (history st)
    = map (nth_error (calculateEWMA_default
                        (map row_nitrate (selectedHistory key processed))))
          (seq 0 (length (selectedHistory key processed))) /\
    ecStats st = seriesStats (map row_ec (selectedHistory key processed))
                             (map row_date (selectedHistory key processed)) /\
    no3Stats st = seriesStats (map row_nitrate (selectedHistory key processed))
                              (map row_date (selectedHistory key processed)).
Proof.
  unfold selectedPointStats. destruct selectedPointId as [key|]; [|discriminate].
  destruct (String.eqb_spec key EmptyString) as [|Hkey]; [discriminate|].
  destruct (length processed =? 0)%nat; [discriminate|]. cbn [orb].
  destruct (Nat.eqb_spec (length (selectedHistory key processed)) 0) as [|Hlen];
    [discriminate|].
  intros H. injection H as <-. exists key. cbn [history ecStats no3Stats].
  assert (Hcomb : forall (A : Type) (l : list A) start,
            map snd (combine (seq start (length l)) l) = l
            /\ map fst (combine (seq start (length l)) l) = seq start (length l)).
  { intros A l. induction l as [|x l IH]; intros start; simpl; [split; reflexivity|].
    destruct (IH (S start)) as [-> ->]. split; reflexivity. }
  destruct (Hcomb _ (selectedHistory key processed) 0%nat) as [Hsnd Hfst].
  repeat split.
  - exact Hkey.
  - intros Hnil. apply Hlen. rewrite Hnil. reflexivity.
  - rewrite map_map. cbn [row]. exact Hsnd.
  - rewrite map_map. cbn [ecEWMA].
    rewrite <- (map_map fst (nth_error _)), Hfst. reflexivity.
  - rewrite map_map. cbn [no3EWMA].
    rewrite <- (map_map fst (nth_error _)), Hfst. reflexivity.
Qed.

Lemma selectedHistory_rows key processed h :
  In h (selectedHistory key processed) ->
  0 < row_ec h /\
  exists tp s, In tp processed /\ row_date h = date tp /\
               find (fun s => String.eqb (id s) key) (samples tp) = Some s /\
               row_ec h = conductivity s /\ row_nitrate h = nitrate s.
Proof.
  unfold selectedHistory. intros Hin. apply filter_In in Hin.
  destruct Hin as [Hin Hpos]. unfold gtb in Hpos.
  destruct (Rlt_dec 0 (row_ec h)) as [Hlt|]; [|discriminate].
  split; [exact Hlt|]. apply in_map_iff in Hin. destruct Hin as (tp & <- & Htp).
  unfold rowOf in *.
  destruct (find (fun s => String.eqb (id s) key) (samples tp)) as [s|] eqn:Hf.
  - exists tp, s. repeat split; assumption.
  - cbn [row_ec] in Hlt. lra.
Qed.

(** X23.  The statistics of a point are shown exactly when a point is
    selected, its identifier is not empty, and in some period the first
    sample of that identifier has a positive conductivity.  A period
    where the point is missing, or where that sample has a conductivity
    of 0 or less, does not count. *)
Theorem selected_stats_shown (selectedPointId : option string)
    (processed : list TimePoint) :
  (exists st, selectedPointStats selectedPointId processed = Some st)
  <->
  (exists key tp s,
     selectedPointId = Some key /\ key <> EmptyString /\ In tp processed /\
     find (fun s => String.eqb (id s) key) (samples tp) = Some s /\
     0 < conductivity s).
Proof.
  split.
  - intros (st & Hst).
    destruct (selected_shape _ _ _ Hst) as (key & -> & Hkey & Hne & _).
    destruct (selectedHistory key processed) as [|h rest] eqn:Hh; [contradiction|].
    destruct (selectedHistory_rows key processed h) as (Hpos & tp & s & Htp & _ & Hf & Hec & _);
      [rewrite Hh; left; reflexivity|].
    exists key, tp, s. rewrite <- Hec. repeat split; assumption.
  - intros (key & tp & s & -> & Hkey & Htp & Hf & Hpos).
    unfold selectedPointStats.
    destruct (String.eqb_spec key EmptyString) as [|_]; [contradiction|].
    destruct (Nat.eqb_spec (length processed) 0) as [H0|_].
    { destruct processed; [contradiction|discriminate]. }
    cbn [orb].
    assert (Hin : In (rowOf key tp) (selectedHistory key processed)).
    { unfold selectedHistory. apply filter_In. split; [apply in_map, Htp|].
      unfold rowOf. rewrite Hf. cbn [row_ec]. unfold gtb.
      destruct (Rlt_dec 0 (conductivity s)); [reflexivity|contradiction]. }
    destruct (Nat.eqb_spec (length (selectedHistory key processed)) 0) as [H0|_].
    { destruct (selectedHistory key processed); [contradiction|discriminate]. }
    eexists. reflexivity.
Qed.

Lemma selected_stats_shown_witness :
  exists st,
    selectedPointStats (Some "W1"%string)
      [mkTimePoint "1402-01"
         [mkSample "W2" 400 5 "1402-01.xlsx" None None None];
       mkTimePoint "1402-02"
         [mkSample "W1" 850 12 "1402-02.xlsx" None None None]] = Some st.
Proof.
  apply selected_stats_shown.
  exists "W1"%string,
         (mkTimePoint "1402-02" [mkSample "W1" 850 12 "1402-02.xlsx" None None None]),
         (mkSample "W1" 850 12 "1402-02.xlsx" None None None).
  repeat split.
  - discriminate.
  - right. left. reflexivity.
  - cbn [conductivity]. lra.
Defined.

Lemma lookup_all (l : list R) : forall pre,
  map (nth_error (pre ++ l)) (seq (length pre) (length l)) = map Some l.
Proof.
  induction l as [|x l IH]; intros pre; [reflexivity|].
  cbn [length seq map]. f_equal.
  - rewrite nth_error_app2, Nat.sub_diag by lia. reflexivity.
  - replace (pre ++ x :: l) with ((pre ++ [x]) ++ l)
      by (rewrite <- app_assoc; reflexivity).
    replace (S (length pre)) with (length (pre ++ [x]))
      by (rewrite length_app; simpl; lia).
    apply IH.
Qed.

Lemma smoothed_rows vals :
  map (nth_error (calculateEWMA_default vals)) (seq 0 (length vals))
  = map Some (calculateEWMA_default vals).
Proof.
  assert (Hlen : length (calculateEWMA_default vals) = length vals).
  { unfold calculateEWMA_default. rewrite calculateEWMA_spec. apply ewma_length. }
  rewrite <- Hlen. apply (lookup_all (calculateEWMA_default vals) []).
Qed.

(** X24.  The rows of the chart of the selected point are the periods
    that count, in their order: there is at least one and no more than
    there are periods, each has a positive conductivity and the date of
    a period, and each carries the smoothed conductivity and the smoothed
    nitrate of its position, none of them undefined. *)
Theorem selected_rows (selectedPointId : option string)
    (processed : list TimePoint) (st : PointStats) :
  selectedPointStats selectedPointId processed = Some st ->
  (1 <= length (history st) <= length processed)%nat /\
  (forall r, In r (history st) ->
     0 < row_ec (row r) /\ In (row_date (row r)) (map date processed)) /\
  map ecEWMA (history st)
  = map Some (calculateEWMA_default (map (fun r => row_ec (row r)) (history st))) /\
  map no3EWMA (history st)
  = map Some (calculateEWMA_default (map (fun r => row_nitrate (row r)) (history st))).
Proof.
  intros Hst.
  destruct (selected_shape _ _ _ Hst)
    as (key & _ & _ & Hne & Hrows & HecE & Hno3E & _).
  assert (Hlen : length (history st) = length (selectedHistory key processed)).
  { rewrite <- Hrows. symmetry. apply length_map. }
  split; [|split; [|split]].
  - rewrite Hlen. split.
    + destruct (selectedHistory key processed); [contradiction|simpl; lia].
    + unfold selectedHistory.
      pose proof (filter_length_le (fun h => gtb (row_ec h) 0)
                    (map (rowOf key) processed)) as Hf.
      rewrite length_map in Hf. exact Hf.
  - intros r Hr.
    assert (Hin : In (row r) (selectedHistory key processed))
      by (rewrite <- Hrows; apply in_map, Hr).
    destruct (selectedHistory_rows key processed (row r) Hin)
      as (Hpos & tp & s & Htp & Hdate & _).
    split; [exact Hpos|]. rewrite Hdate. apply in_map, Htp.
  - rewrite HecE. rewrite <- (map_map row row_ec), Hrows.
    rewrite <- (length_map row_ec). apply smoothed_rows.
  - rewrite Hno3E. rewrite <- (map_map row row_nitrate), Hrows.
    rewrite <- (length_map row_nitrate). apply smoothed_rows.
Qed.

Example selectedHistory_example :
  selectedHistory "W1"
    [mkTimePoint "1402-01"
       [mkSample "W2" 400 5 "1402-01.xlsx" None None None];
     mkTimePoint "1402-02"
       [mkSample "W1" 850 12 "1402-02.xlsx" None None None]]
  = [mkRow "1402-02" 850 12 UNKNOWN].
Proof.
  unfold selectedHistory, rowOf, gtb.
  cbn [map samples find id String.eqb Ascii.eqb Bool.eqb row_ec conductivity nitrate
       cluster date filter].
  destruct (Rlt_dec 0 0) as [H0|_]; [lra|].
  destruct (Rlt_dec 0 850) as [_|H1]; [reflexivity|lra].
Qed.

Lemma selected_rows_witness :
  exists st,
    selectedPointStats (Some "W1"%string)
      [mkTimePoint "1402-01"
         [mkSample "W2" 400 5 "1402-01.xlsx" None None None];
       mkTimePoint "1402-02"
         [mkSample "W1" 850 12 "1402-02.xlsx" None None None]] = Some st /\
    (1 <= length (history st) <= 2)%nat.
Proof.
  destruct (selectedPointStats (Some "W1"%string)
              [mkTimePoint "1402-01"
                 [mkSample "W2" 400 5 "1402-01.xlsx" None None None];
               mkTimePoint "1402-02"
                 [mkSample "W1" 850 12 "1402-02.xlsx" None None None]])
    as [st|] eqn:Hst.
  - exists st. split; [reflexivity|]. apply (selected_rows _ _ _ Hst).
  - exfalso. unfold selectedPointStats in Hst.
    rewrite selectedHistory_example in Hst. discriminate.
Defined.

(** X25.  The change point shown for the selected point, of the
    conductivity as of the nitrate, is none when fewer than four periods
    count; else it is none or the date of one of the rows, and never the
    date of the first row. *)
Theorem selected_change_point (selectedPointId : option string)
    (processed : list TimePoint) (st : PointStats) (series : SeriesStats) :
  selectedPointStats selectedPointId processed = Some st ->
  series = ecStats st \/ series = no3Stats st ->
  ((length (history st) < 4)%nat -> changePoint series = Null) /\
  (changePoint series = Null
   \/ exists t d, (1 <= t < length (history st))%nat /\
                  nth_error (map (fun r => row_date (row r)) (history st)) t = Some d /\
                  changePoint series = Str d).
Proof.
  intros Hst Hseries.
  destruct (selected_shape _ _ _ Hst)
    as (key & _ & _ & _ & Hrows & _ & _ & Hec & Hno3).
  assert (Hlen : length (history st) = length (selectedHistory key processed)).
  { rewrite <- Hrows. symmetry. apply length_map. }
  assert (Hdates : map (fun r => row_date (row r)) (history st)
                   = map row_date (selectedHistory key processed)).
  { rewrite <- Hrows, map_map. reflexivity. }
  assert (Hgen : forall vals,
            length vals = length (selectedHistory key processed) ->
            ((length (history st) < 4)%nat ->
             findPettittChangePoint vals
               (map row_date (selectedHistory key processed)) = Null) /\
            (findPettittChangePoint vals
               (map row_date (selectedHistory key processed)) = Null
             \/ exists t d, (1 <= t < length (history st))%nat /\
                  nth_error (map (fun r => row_date (row r)) (history st)) t = Some d /\
                  findPettittChangePoint vals
                    (map row_date (selectedHistory key processed)) = Str d)).
  { intros vals Hvals. split.
    - intros Hshort. unfold findPettittChangePoint.
      destruct (Nat.ltb_spec (length vals) 4); [reflexivity|lia].
    - rewrite Hdates, Hlen, <- Hvals. apply StatsExtra.pettitt_answers.
      rewrite length_map. symmetry. exact Hvals. }
  destruct Hseries as [-> | ->].
  - rewrite Hec. cbn [changePoint seriesStats]. apply Hgen, length_map.
  - rewrite Hno3. cbn [changePoint seriesStats]. apply Hgen, length_map.
Qed.

Example selected_example :
  exists st,
    selectedPointStats (Some "W1"%string)
      [mkTimePoint "1402-01"
         [mkSample "W2" 400 5 "1402-01.xlsx" None None None];
       mkTimePoint "1402-02"
         [mkSample "W1" 850 12 "1402-02.xlsx" None None None]] = Some st.
Proof.
  unfold selectedPointStats. rewrite selectedHistory_example.
  eexists. reflexivity.
Qed.

Lemma selected_change_point_witness :
  exists st,
    selectedPointStats (Some "W1"%string)
      [mkTimePoint "1402-01"
         [mkSample "W2" 400 5 "1402-01.xlsx" None None None];
       mkTimePoint "1402-02"
         [mkSample "W1" 850 12 "1402-02.xlsx" None None None]] = Some st /\
    (changePoint (ecStats st) = Null
     \/ exists t d, (1 <= t < length (history st))%nat /\
                    nth_error (map (fun r => row_date (row r)) (history st)) t = Some d /\
                    changePoint (ecStats st) = Str d).
Proof.
  destruct selected_example as (st & Hst). exists st. split; [exact Hst|].
  apply (selected_change_point _ _ st (ecStats st) Hst). left. reflexivity.
Defined.

Lemma total_positive xs :
  xs <> [] -> (forall x, In x xs -> 0 < x) -> 0 < Spec.total xs.
Proof.
  intros Hne Hpos. destruct xs as [|x xs]; [contradiction|]. simpl.
  pose proof (Hpos x (or_introl eq_refl)).
  assert (0 <= Spec.total xs).
  { apply StatsExtra.total_all_nonneg. intros y Hy. left. apply Hpos. right. exact Hy. }
  lra.
Qed.

(** X26.  The control limits of the conductivity of the selected point
    are in order around a positive mean: the lower limit is between 0
    and the mean, and the upper limit is not below the mean. *)
Theorem selected_ec_limits (selectedPointId : option string)
    (processed : list TimePoint) (st : PointStats) :
  selectedPointStats selectedPointId processed = Some st ->
  0 < mean (limits (ecStats st)) /\
  0 <= lcl (limits (ecStats st)) /\
  lcl (limits (ecStats st)) <= mean (limits (ecStats st)) /\
  mean (limits (ecStats st)) <= ucl (limits (ecStats st)).
Proof.
  intros Hst.
  destruct (selected_shape _ _ _ Hst) as (key & _ & _ & Hne & _ & _ & _ & Hec & _).
  rewrite Hec. cbn [limits seriesStats].
  set (vals := map row_ec (selectedHistory key processed)).
  assert (Hpos : forall x, In x vals -> 0 < x).
  { intros x Hx. apply in_map_iff in Hx. destruct Hx as (h & <- & Hh).
    apply (selectedHistory_rows key processed h Hh). }
  assert (Hvals : vals <> []).
  { unfold vals. destruct (selectedHistory key processed); [contradiction|discriminate]. }
  destruct (StatsExtra.limits_order vals) as (Hl & Hu & Hm).
  destruct Hm as [_ Hlm]; [intros x Hx; left; apply Hpos, Hx|].
  split; [|split; [exact Hl|split; [exact Hlm|exact Hu]]].
  unfold calculateControlLimits.
  destruct (Nat.eqb_spec (length vals) 0) as [H0|Hn].
  { destruct vals; [contradiction|discriminate]. }
  cbn [mean]. rewrite sumReduce_total. apply Rmult_lt_0_compat.
  - apply total_positive; assumption.
  - apply Rinv_0_lt_compat, lt_0_INR. lia.
Qed.

Lemma selected_ec_limits_witness :
  exists st,
    selectedPointStats (Some "W1"%string)
      [mkTimePoint "1402-01"
         [mkSample "W2" 400 5 "1402-01.xlsx" None None None];
       mkTimePoint "1402-02"
         [mkSample "W1" 850 12 "1402-02.xlsx" None None None]] = Some st /\
    0 < mean (limits (ecStats st)).
Proof.
  destruct selected_example as (st & Hst). exists st. split; [exact Hst|].
  apply (selected_ec_limits _ _ st Hst).
Defined.

End PointStatsExtra.

(** ** The number of samples of each label *)

Module ClusterStatsExtra.

Import JS App.

Lemma getOwn_setOwn counts key v key' :
  getOwn (setOwn counts key v) key'
  = if String.eqb key key' then Some v else getOwn counts key'.
Proof.
  induction counts as [|[k0 old] rest IH]; simpl.
  - destruct (String.eqb key key'); reflexivity.
  - destruct (String.eqb_spec k0 key) as [->|Hne]; simpl.
    + destruct (String.eqb key key'); reflexivity.
    + rewrite IH. destruct (String.eqb_spec k0 key') as [->|_]; [|reflexivity].
      destruct (String.eqb_spec key key') as [Heq|_]; [|reflexivity].
      exfalso. apply Hne. symmetry. exact Heq.
Qed.

Lemma setOwn_keys counts key v k :
  In k (map fst (setOwn counts key v)) <-> k = key \/ In k (map fst counts).
Proof.
  induction counts as [|[k0 old] rest IH]; simpl.
  - intuition.
  - destruct (String.eqb_spec k0 key) as [->|Hne]; simpl.
    + intuition.
    + rewrite IH. intuition.
Qed.

Lemma setOwn_NoDup counts key v :
  NoDup (map fst counts) -> NoDup (map fst (setOwn counts key v)).
Proof.
  induction counts as [|[k0 old] rest IH]; simpl; intros Hnd.
  - constructor; [intros []|constructor].
  - inversion Hnd as [|? ? Hnotin Hrest]; subst.
    destruct (String.eqb_spec k0 key) as [->|Hne]; simpl.
    + constructor; assumption.
    + constructor; [|apply IH, Hrest].
      rewrite setOwn_keys. intros [->|Hin]; [apply Hne; reflexivity|contradiction].
Qed.

Lemma getOwn_missing counts key :
  ~ In key (map fst counts) -> getOwn counts key = None.
Proof.
  induction counts as [|[k0 v] rest IH]; simpl; intros Hk; [reflexivity|].
  destruct (String.eqb_spec k0 key) as [->|_]; [exfalso; apply Hk; left; reflexivity|].
  apply IH. intros Hin. apply Hk. right. exact Hin.
Qed.

Section Counting.

Variable labels : list string.
Hypothesis labels_plain : forall l, In l labels ->
  String.eqb l PROTO = false /\ String.eqb l EmptyString = false.

Lemma zeros_counted : forall todo done counts,
  (forall l, In l todo -> In l labels) ->
  NoDup (map fst counts) ->
  (forall k, In k (map fst counts) <-> In k done) ->
  (forall l, In l done -> getOwn counts l = Some (Num 0)) ->
  NoDup (map fst (fold_left (fun c l => assign c l (Num 0)) todo counts)) /\
  (forall k, In k (map fst (fold_left (fun c l => assign c l (Num 0)) todo counts))
             <-> In k (done ++ todo)) /\
  (forall l, In l (done ++ todo) ->
     getOwn (fold_left (fun c l => assign c l (Num 0)) todo counts) l = Some (Num 0)).
Proof.
  induction todo as [|l todo IH]; intros done counts Htodo Hnd Hkeys Hz.
  - simpl. rewrite app_nil_r. repeat split; try assumption; apply Hkeys.
  - cbn [fold_left]. unfold assign at 2 4 6.
    destruct (labels_plain l (Htodo l (or_introl eq_refl))) as [-> _].
    replace (done ++ l :: todo) with ((done ++ [l]) ++ todo)
      by (rewrite <- app_assoc; reflexivity).
    apply IH.
    + intros l' Hl'. apply Htodo. right. exact Hl'.
    + apply setOwn_NoDup, Hnd.
    + intros k. rewrite setOwn_keys, in_app_iff, Hkeys. simpl. intuition.
    + intros l' Hl'. rewrite getOwn_setOwn.
      destruct (String.eqb_spec l l') as [_|Hne]; [reflexivity|].
      apply Hz. apply in_app_or in Hl'. destruct Hl' as [Hl'|[Hl'|[]]];
        [exact Hl'|contradiction].
Qed.

Lemma countSample_counted f counts s :
  Spec.counted labels f counts ->
  (forall c, cluster s = Some c -> c = EmptyString \/ In c labels) ->
  Spec.counted labels (fun l => (f l + if Spec.labelled l s then 1 else 0)%nat)
               (countSample counts s).
Proof.
  intros (Hnd & Hkeys & Hget) Hs. unfold countSample, Spec.labelled.
  destruct (cluster s) as [c|].
  - destruct (String.eqb_spec c EmptyString) as [->|Hc].
    + split; [exact Hnd|]. split; [exact Hkeys|]. intros l Hl.
      destruct (labels_plain l Hl) as [_ Hl0]. rewrite String.eqb_sym, Hl0.
      rewrite (Hget _ Hl), Nat.add_0_r. reflexivity.
    + destruct (Hs c eq_refl) as [Hempty|Hin]; [contradiction|].
      unfold increment. rewrite (Hget c Hin). unfold assign.
      destruct (labels_plain c Hin) as [-> _].
      split; [apply setOwn_NoDup, Hnd|]. split.
      * intros k Hk. apply setOwn_keys in Hk. destruct Hk as [->|Hk];
          [exact Hin|apply Hkeys, Hk].
      * intros l Hl. rewrite getOwn_setOwn.
        destruct (String.eqb_spec c l) as [<-|_]; [reflexivity|].
        rewrite (Hget l Hl), Nat.add_0_r. reflexivity.
  - split; [exact Hnd|]. split; [exact Hkeys|]. intros l Hl.
    rewrite (Hget l Hl), Nat.add_0_r. reflexivity.
Qed.

Lemma countSamples_counted ss : forall f counts,
  Spec.counted labels f counts ->
  (forall s c, In s ss -> cluster s = Some c -> c = EmptyString \/ In c labels) ->
  Spec.counted labels (fun l => (f l + length (filter (Spec.labelled l) ss))%nat)
               (fold_left countSample ss counts).
Proof.
  induction ss as [|s ss IH]; intros f counts Hc Hs; cbn [fold_left].
  - destruct Hc as (Hnd & Hkeys & Hget). split; [exact Hnd|]. split; [exact Hkeys|].
    intros l Hl. rewrite (Hget l Hl). simpl. rewrite Nat.add_0_r. reflexivity.
  - pose proof (countSample_counted f counts s Hc
                  (fun c => Hs s c (or_introl eq_refl))) as Hstep.
    specialize (IH _ _ Hstep (fun s' c Hin => Hs s' c (or_intror Hin))).
    destruct IH as (Hnd & Hkeys & Hget). split; [exact Hnd|]. split; [exact Hkeys|].
    intros l Hl. rewrite (Hget l Hl). f_equal. f_equal. cbn [filter].
    destruct (Spec.labelled l s); cbn [length]; lia.
Qed.

Lemma countPeriod_counted tp :
  NoDup labels ->
  (forall s c, In s (samples tp) -> cluster s = Some c ->
               c = EmptyString \/ In c labels) ->
  Spec.counted labels (fun l => length (filter (Spec.labelled l) (samples tp)))
               (countPeriod labels tp).
Proof.
  intros Hnd Hs. unfold countPeriod.
  destruct (zeros_counted labels [] [] (fun l H => H) (NoDup_nil _)) as (Hn & Hk & Hz).
  - intros k. simpl. reflexivity.
  - intros l [].
  - apply (countSamples_counted (samples tp) (fun _ => 0%nat)); [|exact Hs].
    split; [exact Hn|]. split.
    + intros k Hin. apply Hk in Hin. exact Hin.
    + intros l Hl. apply Hz. exact Hl.
Qed.

End Counting.

Lemma getCell_setCell r key v key' :
  getCell (setCell r key v) key'
  = if String.eqb key key' then Some v else getCell r key'.
Proof.
  induction r as [|[k0 old] rest IH]; simpl.
  - destruct (String.eqb key key'); reflexivity.
  - destruct (String.eqb_spec k0 key) as [->|Hne]; simpl.
    + destruct (String.eqb key key'); reflexivity.
    + rewrite IH. destruct (String.eqb_spec k0 key') as [->|_]; [|reflexivity].
      destruct (String.eqb_spec key key') as [Heq|_]; [|reflexivity].
      exfalso. apply Hne. symmetry. exact Heq.
Qed.

Lemma spread_cells counts : forall r key,
  NoDup (map fst counts) ->
  getCell (fold_left (fun r p => setCell r (fst p) (CountCell (snd p))) counts r) key
  = match getOwn counts key with
    | Some v => Some (CountCell v)
    | None => getCell r key
    end.
Proof.
  induction counts as [|[k0 v0] rest IH]; intros r key Hnd; cbn [fold_left];
    [reflexivity|].
  inversion Hnd as [|? ? Hnotin Hrest]; subst.
  rewrite (IH _ key Hrest). cbn [getOwn fst snd]. rewrite getCell_setCell.
  destruct (String.eqb_spec k0 key) as [<-|_]; [|reflexivity].
  rewrite getOwn_missing by exact Hnotin. reflexivity.
Qed.

Lemma row_counts labels tp :
  NoDup labels ->
  (forall l, In l labels ->
     String.eqb l PROTO = false /\ String.eqb l EmptyString = false) ->
  ~ In "date"%string labels ->
  (forall s c, In s (samples tp) -> cluster s = Some c ->
               c = EmptyString \/ In c labels) ->
  getCell (statsRow labels tp) "date" = Some (DateCell (date tp)) /\
  (forall l, In l labels ->
     getCell (statsRow labels tp) l
     = Some (CountCell (Num (length (filter (Spec.labelled l) (samples tp)))))).
Proof.
  intros Hnd Hplain Hdate Hs.
  destruct (countPeriod_counted labels Hplain tp Hnd Hs) as (Hkeysnd & Hkeys & Hget).
  unfold statsRow. split.
  - rewrite spread_cells by exact Hkeysnd.
    rewrite getOwn_missing; [reflexivity|].
    intros Hin. apply Hdate, Hkeys, Hin.
  - intros l Hl. rewrite spread_cells by exact Hkeysnd.
    rewrite (Hget l Hl). reflexivity.
Qed.

(** X27.  For labels that are all different, none of them empty,
    [__proto__] or [date], and samples that have one of those labels or
    none, the row of a period keeps the date of the period and gives for
    every label the number of the samples of the period that have it. *)
Theorem cluster_counts (labels : list string) (tp : TimePoint) :
  NoDup labels ->
  (forall l, In l labels ->
     String.eqb l PROTO = false /\ String.eqb l EmptyString = false) ->
  ~ In "date"%string labels ->
  (forall s c, In s (samples tp) -> cluster s = Some c ->
               c = EmptyString \/ In c labels) ->
  getCell (statsRow labels tp) "date" = Some (DateCell (date tp)) /\
  (forall l, In l labels ->
     getCell (statsRow labels tp) l
     = Some (CountCell (Num (length (filter (Spec.labelled l) (samples tp)))))).
Proof. apply row_counts. Qed.

Lemma palette_is_plain clusterCount :
  (forall l, In l (currentClusterLabels clusterCount) ->
     String.eqb l PROTO = false /\ String.eqb l EmptyString = false) /\
  ~ In "date"%string (currentClusterLabels clusterCount).
Proof.
  split.
  - intros l Hl.
    destruct (ClusterExtra.palette_plain clusterCount l Hl) as (H0 & Hp & _).
    split; assumption.
  - intros Hin.
    destruct (ClusterExtra.palette_plain clusterCount _ Hin) as (_ & _ & Hd & _).
    discriminate Hd.
Qed.

Lemma cluster_counts_witness :
  let tp := mkTimePoint "1402-01"
              [mkSample "W1" 100 10 "1402-01.xlsx" None (Some "خوب"%string) None;
               mkSample "W2" 900 50 "1402-01.xlsx" None (Some "ضعیف"%string) None;
               mkSample "W3" 120 11 "1402-01.xlsx" None (Some "خوب"%string) None;
               mkSample "W4" 500 30 "1402-01.xlsx" None None None] in
  getCell (statsRow (currentClusterLabels 5) tp) "خوب" = Some (CountCell (Num 2)) /\
  getCell (statsRow (currentClusterLabels 5) tp) "عالی" = Some (CountCell (Num 0)).
Proof.
  intros tp.
  destruct (palette_is_plain 5) as [Hplain Hdate].
  destruct (cluster_counts (currentClusterLabels 5) tp
              (ClusterExtra.palette_NoDup 5) Hplain Hdate) as [_ Hcount].
  - unfold tp. cbn [samples]. intros s c Hs Hc. right.
    repeat (destruct Hs as [<-|Hs];
            [cbn [cluster] in Hc; try discriminate Hc; injection Hc as <-;
             cbn; tauto|]).
    contradiction.
  - split.
    + rewrite (Hcount "خوب"%string) by (cbn; tauto). reflexivity.
    + rewrite (Hcount "عالی"%string) by (cbn; tauto). reflexivity.
Defined.

(** *** The counts of a period add up *)

Lemma list_sum_plus {A : Type} (f g : A -> nat) l :
  list_sum (map (fun x => (f x + g x)%nat) l)
  = (list_sum (map f l) + list_sum (map g l))%nat.
Proof. induction l as [|x l IH]; simpl; [reflexivity|]. rewrite IH. lia. Qed.

Lemma one_label labels l0 :
  NoDup labels -> In l0 labels ->
  list_sum (map (fun l => if String.eqb l0 l then 1 else 0)%nat labels) = 1%nat.
Proof.
  induction labels as [|l labels IH]; intros Hnd Hin; [contradiction|].
  inversion Hnd as [|? ? Hnotin Hrest]; subst. cbn [map list_sum].
  destruct (String.eqb_spec l0 l) as [->|Hne].
  - assert (Hz : list_sum (map (fun l' => if String.eqb l l' then 1 else 0)%nat labels)
                 = 0%nat).
    { clear IH Hin Hnd Hrest. induction labels as [|l' labels IH]; [reflexivity|].
      cbn [map list_sum].
      destruct (String.eqb_spec l l') as [->|_];
        [exfalso; apply Hnotin; left; reflexivity|].
      apply IH. intros Hin. apply Hnotin. right. exact Hin. }
    cbn [fold_right] in *. simpl. simpl in Hz. rewrite Hz. reflexivity.
  - destruct Hin as [Heq|Hin]; [exfalso; apply Hne; symmetry; exact Heq|].
    simpl. apply (IH Hrest Hin).
Qed.

Lemma labelled_add_up labels ss :
  NoDup labels ->
  (forall s, In s ss -> exists l, cluster s = Some l /\ In l labels) ->
  list_sum (map (fun l => length (filter (Spec.labelled l) ss)) labels) = length ss.
Proof.
  intros Hnd. induction ss as [|s ss IH]; intros Hs.
  - cbn [filter length]. clear Hnd Hs.
    induction labels as [|l labels IH]; [reflexivity|exact IH].
  - change (length (s :: ss)) with (1 + length ss)%nat.
    rewrite <- (IH (fun s' H => Hs s' (or_intror H))).
    destruct (Hs s (or_introl eq_refl)) as (l0 & Hl0 & Hin).
    rewrite <- (one_label labels l0 Hnd Hin), <- list_sum_plus.
    f_equal. apply map_ext. intros l. cbn [filter]. unfold Spec.labelled at 1.
    rewrite Hl0. destruct (String.eqb l0 l); reflexivity.
Qed.

Lemma Forall2_right {A B : Type} (P : A -> B -> Prop) l l' :
  Forall2 P l l' -> forall y, In y l' -> exists x, In x l /\ P x y.
Proof.
  induction 1 as [|x y l l' Hxy _ IH]; intros z Hz; [contradiction|].
  destruct Hz as [<-|Hz].
  - exists x. split; [left; reflexivity|exact Hxy].
  - destruct (IH z Hz) as (x' & Hx' & Hp). exists x'. split; [right; exact Hx'|exact Hp].
Qed.

(** X28.  After a clustering with one cluster or more, the row of every
    period has the date of the period, and its counts, read at the labels
    of the palette, add up to the number of samples of the period: the
    bands of the chart of the clusters fill the period, no sample is
    left out and none is counted twice. *)
Theorem counts_add_up (timePoints processed : list TimePoint) (clusterCount : nat)
    (algo : Algo) (tp : TimePoint) :
  (1 <= clusterCount)%nat ->
  processedTimePoints timePoints clusterCount algo = Some processed ->
  In tp processed ->
  getCell (statsRow (currentClusterLabels clusterCount) tp) "date"
  = Some (DateCell (date tp)) /\
  list_sum (map (Spec.countOf (statsRow (currentClusterLabels clusterCount) tp))
                (currentClusterLabels clusterCount))
  = length (samples tp).
Proof.
  intros Hc Hrun Htp.
  destruct (ClusterExtra.processed_runs timePoints clusterCount algo Hc)
    as (out & Hout & Hall).
  rewrite Hrun in Hout. injection Hout as <-.
  destruct (Forall2_right _ _ _ Hall tp Htp) as (tp0 & _ & _ & Hsamples).
  assert (Hlab : forall s, In s (samples tp) ->
            exists l, cluster s = Some l /\ In l (currentClusterLabels clusterCount)).
  { intros s Hs. destruct (Forall2_right _ _ _ Hsamples s Hs) as (s0 & _ & _ & Hl).
    exact Hl. }
  destruct (palette_is_plain clusterCount) as [Hplain Hdate].
  destruct (row_counts (currentClusterLabels clusterCount) tp
              (ClusterExtra.palette_NoDup clusterCount) Hplain Hdate)
    as [Hd Hcount].
  { intros s c Hs Hcl. right. destruct (Hlab s Hs) as (l & Hl & Hin).
    rewrite Hl in Hcl. injection Hcl as <-. exact Hin. }
  split; [exact Hd|].
  rewrite <- (labelled_add_up (currentClusterLabels clusterCount) (samples tp)
                (ClusterExtra.palette_NoDup clusterCount) Hlab).
  f_equal. apply map_ext_in. intros l Hl. unfold Spec.countOf.
  rewrite (Hcount l Hl). reflexivity.
Qed.

Lemma counts_add_up_witness :
  let timePoints := [mkTimePoint "1402-01"
                       [mkSample "W1" 100 10 "1402-01.xlsx" None None None;
                        mkSample "W2" 900 50 "1402-01.xlsx" None None None]] in
  exists processed,
    processedTimePoints timePoints 3 KMeans = Some processed /\
    forall tp, In tp processed ->
      list_sum (map (Spec.countOf (statsRow (currentClusterLabels 3) tp))
                    (currentClusterLabels 3))
      = length (samples tp).
Proof.
  intros timePoints.
  destruct (ClusterExtra.processed_runs timePoints 3 KMeans) as (processed & Hrun & _);
    [lia|].
  exists processed. split; [exact Hrun|].
  intros tp Htp. apply (counts_add_up timePoints processed 3 KMeans tp); [lia| |]; assumption.
Defined.

End ClusterStatsExtra.

(** ** The colours and the axes of the chart *)

Module ChartExtra.

Import JS App TrajectoryChart.

Lemma indexOfFrom_found labels l : forall start,
  In l labels ->
  exists i, (i < length labels)%nat /\ nth_error labels i = Some l /\
            indexOfFrom start labels l = (start + Z.of_nat i)%Z.
Proof.
  induction labels as [|l0 labels IH]; intros start Hin; [contradiction|].
  cbn [indexOfFrom]. destruct (String.eqb_spec l0 l) as [->|Hne].
  - exists 0%nat. simpl. repeat split; lia.
  - destruct Hin as [Heq|Hin]; [contradiction|].
    destruct (IH (start + 1)%Z Hin) as (i & Hi & Hnth & Hidx).
    exists (S i). simpl. repeat split; [lia|exact Hnth|lia].
Qed.

Lemma indexOfFrom_missing labels l : forall start,
  ~ In l labels -> indexOfFrom start labels l = (-1)%Z.
Proof.
  induction labels as [|l0 labels IH]; intros start Hnot; [reflexivity|].
  cbn [indexOfFrom]. destruct (String.eqb_spec l0 l) as [->|_].
  - exfalso. apply Hnot. left. reflexivity.
  - apply IH. intros Hin. apply Hnot. right. exact Hin.
Qed.

Lemma periodColour_defined i :
  (i < 8)%nat ->
  exists c, nth_error PERIOD_COLORS i = Some c /\
            periodColour (Z.of_nat i) = Colour c.
Proof.
  intros Hi. unfold periodColour. change (Z.of_nat (length PERIOD_COLORS)) with 8%Z.
  rewrite Z.rem_small by lia.
  destruct (Z.ltb_spec (Z.of_nat i) 0); [lia|]. rewrite Nat2Z.id.
  destruct (nth_error PERIOD_COLORS i) as [c|] eqn:Hc.
  - exists c. split; reflexivity.
  - apply nth_error_None in Hc. simpl in Hc. lia.
Qed.

Lemma periodColour_any idx :
  exists c, periodColour (Z.of_nat idx) = Colour c.
Proof.
  unfold periodColour. change (Z.of_nat (length PERIOD_COLORS)) with 8%Z.
  pose proof (Z.rem_bound_pos (Z.of_nat idx) 8 ltac:(lia) ltac:(lia)) as Hb.
  destruct (Z.ltb_spec (Z.rem (Z.of_nat idx) 8) 0); [lia|].
  destruct (nth_error PERIOD_COLORS (Z.to_nat (Z.rem (Z.of_nat idx) 8))) as [c|] eqn:Hc.
  - exists c. reflexivity.
  - apply nth_error_None in Hc. simpl in Hc. lia.
Qed.

Lemma period_colours_distinct : NoDup PERIOD_COLORS.
Proof.
  unfold PERIOD_COLORS.
  repeat (constructor; [simpl; intros H;
                        repeat (destruct H as [H|H]; [discriminate H|]);
                        exact H|]).
  constructor.
Qed.

(** The colour of a label of the palette. *)
Lemma palette_colour clusterCount l :
  In l (currentClusterLabels clusterCount) ->
  (clusterCount = 5%nat /\
   exists c, lookupColour CLUSTER_COLORS_STATIC l = Some c /\
             getClusterColor l (indexOf (currentClusterLabels clusterCount) l)
             = Colour c)
  \/
  (clusterCount <> 5%nat /\
   exists i, (i < clusterCount)%nat /\
             nth_error (currentClusterLabels clusterCount) i = Some l /\
             getClusterColor l (indexOf (currentClusterLabels clusterCount) l)
             = periodColour (Z.of_nat i)).
Proof.
  intros Hl.
  destruct (ClusterExtra.palette_plain clusterCount l Hl) as (_ & _ & _ & Hproto & Hstatic).
  destruct (Nat.eqb_spec clusterCount 5) as [->|Hne].
  - left. split; [reflexivity|]. unfold getClusterColor.
    change (currentClusterLabels 5) with DEFAULT_CLUSTER_LABELS in Hl.
    unfold DEFAULT_CLUSTER_LABELS in Hl. simpl in Hl.
    repeat (destruct Hl as [<-|Hl]; [eexists; split; reflexivity|]). contradiction.
  - right. split; [exact Hne|].
    destruct (indexOfFrom_found _ l 0%Z Hl) as (i & Hi & Hnth & Hidx).
    rewrite ClusterProofs.currentClusterLabels_length in Hi.
    exists i. split; [exact Hi|]. split; [exact Hnth|].
    unfold getClusterColor, indexOf. rewrite Hstatic, Hproto, Hidx. reflexivity.
Qed.

(** X29.  Coloured by cluster, a sample that has a label of the palette
    gets a colour, never [undefined]; with at most eight clusters two
    such samples have the same colour only if they have the same label.
    A sample without a label gets [undefined]: its label is not among
    the labels, and the index -1 reads past the colours. *)
Theorem cluster_colours (clusterCount idx : nat) (entry other : WaterSample)
    (l l' : string) :
  let labels := currentClusterLabels clusterCount in
  (In l labels -> cluster entry = Some l ->
   exists c, cellFill true labels idx entry = Colour c) /\
  ((clusterCount <= 8)%nat -> In l labels -> In l' labels ->
   cluster entry = Some l -> cluster other = Some l' ->
   cellFill true labels idx entry = cellFill true labels idx other -> l = l') /\
  (cluster entry = None -> cellFill true labels idx entry = NoFill).
Proof.
  cbv zeta. split; [|split].
  - intros Hl Hc. unfold cellFill, clusterOrEmpty. rewrite Hc.
    destruct (palette_colour clusterCount l Hl)
      as [(_ & c & _ & ->)|(_ & i & Hi & _ & ->)].
    + exists c. reflexivity.
    + destruct (Nat.le_gt_cases 8 i) as [Hbig|Hsmall].
      * apply periodColour_any.
      * destruct (periodColour_defined i Hsmall) as (c & _ & ->). exists c. reflexivity.
  - intros Hk Hl Hl' Hc Hc'. unfold cellFill, clusterOrEmpty. rewrite Hc, Hc'.
    destruct (palette_colour clusterCount l Hl)
      as [(H5 & c & Hs & ->)|(Hn5 & i & Hi & Hnth & ->)];
      destruct (palette_colour clusterCount l' Hl')
        as [(H5' & c' & Hs' & ->)|(Hn5' & i' & Hi' & Hnth' & ->)];
      try contradiction.
    + intros Heq. injection Heq as <-. subst clusterCount.
      change (currentClusterLabels 5) with DEFAULT_CLUSTER_LABELS in Hl, Hl'.
      unfold DEFAULT_CLUSTER_LABELS in Hl, Hl'. simpl in Hl, Hl'.
      repeat (destruct Hl as [<-|Hl]; [|]);
        repeat (destruct Hl' as [<-|Hl']; [|]);
        try contradiction; try reflexivity;
        cbn in Hs, Hs'; congruence.
    + destruct (periodColour_defined i ltac:(lia)) as (c & Hc1 & ->).
      destruct (periodColour_defined i' ltac:(lia)) as (c' & Hc2 & ->).
      intros Heq. injection Heq as <-.
      assert (Hii : i = i').
      { apply (proj1 (NoDup_nth_error PERIOD_COLORS) period_colours_distinct).
        - apply nth_error_Some. rewrite Hc1. discriminate.
        - rewrite Hc1, Hc2. reflexivity. }
      subst i'. rewrite Hnth in Hnth'. injection Hnth' as <-. reflexivity.
  - intros Hc. unfold cellFill, clusterOrEmpty. rewrite Hc.
    unfold getClusterColor, indexOf. cbn [lookupColour CLUSTER_COLORS_STATIC].
    rewrite indexOfFrom_missing; [reflexivity|].
    intros Hin.
    destruct (ClusterExtra.palette_plain clusterCount _ Hin) as (H0 & _).
    discriminate H0.
Qed.

Lemma cluster_colours_witness :
  cellFill true (currentClusterLabels 3) 0
    (mkSample "W1" 100 10 "1402-01.xlsx" None (Some "دسته 2"%string) None)
  = Colour "#d97706".
Proof.
  destruct (cluster_colours 3 0
              (mkSample "W1" 100 10 "1402-01.xlsx" None (Some "دسته 2"%string) None)
              (mkSample "W1" 100 10 "1402-01.xlsx" None (Some "دسته 2"%string) None)
              "دسته 2" "دسته 2") as (Hcol & _ & _).
  destruct Hcol as (c & Hc); [cbn; tauto|reflexivity|].
  rewrite Hc. revert Hc. vm_compute. intros Hc. exact (eq_sym Hc).
Defined.

(** X30.  The upper end of an axis is at least 11 and above every value
    plotted on it: no point lies on the border of the chart or beyond
    it. *)
Theorem axis_covers (key : AxisField) (data : list TimePoint) :
  11 <= maxVal key data /\
  (forall tp s, In tp data -> In s (samples tp) -> field key s < maxVal key data).
Proof.
  unfold maxVal.
  destruct (mathMax (flat_map (fun tp => map (field key) (samples tp)) data ++ [10]))
    as [m|] eqn:Hm.
  2:{ destruct (flat_map (fun tp => map (field key) (samples tp)) data);
      discriminate Hm. }
  pose proof (ClusterExtra.mathMax_upper _ _ Hm) as Hup.
  assert (H10 : 10 <= m) by (apply Hup, in_or_app; right; left; reflexivity).
  split; [lra|].
  intros tp s Htp Hs.
  assert (Hv : field key s <= m).
  { apply Hup, in_or_app. left. apply in_flat_map. exists tp.
    split; [exact Htp|apply in_map, Hs]. }
  lra.
Qed.

End ChartExtra.
